(** * P2PApp: the peer negotiation and recovery logic of [src/components/Room.tsx]

    A shallow embedding of the signalling handler of the [Room] component
    ([handleSignalMessage], [initiateConnection], [restartConnection],
    [handleRemoteDisconnect], [createPeerConnection], [startAnnouncementLoop])
    together with the refs and React state they read and write.

    Conventions.
    - Every handler is a state transformer on [Session]; a handler runs to
      completion before the next event is dispatched, so an [await] is
      modelled as sequencing.
    - The browser's [RTCPeerConnection] is an external collaborator: its
      behaviour is the type class [Engine], and every property below that
      quantifies over [Engine] holds whatever the engine answers.  The calls
      the component makes on it are recorded, oldest first, in [engineLog].
    - [setTimeout]/[setInterval] handles are positive integers, as the HTML
      standard requires, so a stored handle is always truthy.
    - Peer identities are the base-36 tokens produced by
      [Math.random().toString(36).substring(7)]; on such strings the
      JavaScript relational operators coincide with [String.compare]. *)

From Stdlib Require Import List String Ascii Bool Arith PArith NArith Lia.
Import ListNotations.
Local Open Scope string_scope.
Local Open Scope list_scope.

(** ** Data model *)

(** type ConnectionStatus (Room.tsx, line 26) *)
Inductive ConnectionStatus : Type :=
| Initializing
| WaitingForPeer
| Negotiating
| Connected
| Reconnecting
| Disconnected
| Failed.

(** The parts of the WebRTC API that the component observes or drives. *)
Module RTC.

Inductive RTCPeerConnectionState : Type :=
| pcs_new | pcs_connecting | pcs_connected
| pcs_disconnected | pcs_failed | pcs_closed.

Inductive RTCSignalingState : Type :=
| stable | have_local_offer | have_remote_offer
| have_local_pranswer | have_remote_pranswer | sig_closed.

Inductive RTCIceConnectionState : Type :=
| ice_new | ice_checking | ice_connected | ice_completed
| ice_failed | ice_disconnected | ice_closed.

Inductive RTCSdpType : Type :=
| sdp_offer | sdp_answer | sdp_pranswer | sdp_rollback.

Record RTCSessionDescriptionInit : Type := mkDescription {
  type : RTCSdpType;
  sdp : string
}.

Record RTCIceCandidateInit : Type := mkCandidate {
  candidate : string;
  sdpMid : option string;
  sdpMLineIndex : option nat
}.

Inductive TrackKind : Type := audio | video.

Record MediaStreamTrack : Type := mkTrack {
  kind : TrackKind;
  label : string
}.

(** The observable properties of one engine instance. *)
Record RTCPeerConnection : Type := mkPC {
  connectionState : RTCPeerConnectionState;
  signalingState : RTCSignalingState;
  iceConnectionState : RTCIceConnectionState;
  localDescription : option RTCSessionDescriptionInit;
  remoteDescription : option RTCSessionDescriptionInit;
  candidates : list RTCIceCandidateInit;
  senders : list MediaStreamTrack;
  dataChannels : list string
}.

(** A call on the control surface of an engine instance. *)
Inductive EngineCall : Type :=
| CreateDataChannel (l : string)
| CreateOffer
| CreateAnswer
| SetLocalDescription (d : RTCSessionDescriptionInit)
| SetRemoteDescription (d : RTCSessionDescriptionInit)
| AddIceCandidate (c : RTCIceCandidateInit)
| AddTrack (t : MediaStreamTrack).

(** What happened to the engine instances, the instance being named by the
    serial number of the [new RTCPeerConnection] that produced it. *)
Inductive EngineEvent : Type :=
| Constructed (inst : nat)
| Closed (inst : nat)
| Called (inst : nat) (c : EngineCall).

Definition state_eqb (a b : RTCPeerConnectionState) : bool :=
  match a, b with
  | pcs_new, pcs_new | pcs_connecting, pcs_connecting
  | pcs_connected, pcs_connected | pcs_disconnected, pcs_disconnected
  | pcs_failed, pcs_failed | pcs_closed, pcs_closed => true
  | _, _ => false
  end.

Definition signaling_eqb (a b : RTCSignalingState) : bool :=
  match a, b with
  | stable, stable | have_local_offer, have_local_offer
  | have_remote_offer, have_remote_offer
  | have_local_pranswer, have_local_pranswer
  | have_remote_pranswer, have_remote_pranswer
  | sig_closed, sig_closed => true
  | _, _ => false
  end.

Definition ice_eqb (a b : RTCIceConnectionState) : bool :=
  match a, b with
  | ice_new, ice_new | ice_checking, ice_checking
  | ice_connected, ice_connected | ice_completed, ice_completed
  | ice_failed, ice_failed | ice_disconnected, ice_disconnected
  | ice_closed, ice_closed => true
  | _, _ => false
  end.

End RTC.
Import RTC.

(** interface ChatMessage (types.ts) *)
Module Chat.
Record ChatMessage : Type := mkChat {
  id : string;
  text : string;
  senderId : string;
  timestamp : nat;
  isSystem : option bool
}.
End Chat.

(** The [type] tags seen on the wire: those of [SignalType] in types.ts and
    the ['announce'] tag that Room.tsx sends and receives. *)
Inductive SignalType : Type :=
| announce | join | offer | answer | ice_candidate | leave | chat.

Definition SignalType_eqb (a b : SignalType) : bool :=
  match a, b with
  | announce, announce | join, join | offer, offer | answer, answer
  | ice_candidate, ice_candidate | leave, leave | chat, chat => true
  | _, _ => false
  end.

(** interface SignalMessage (types.ts): the envelope's payload. *)
Record SignalMessage : Type := mkSignal {
  type : SignalType;
  sdp : option RTCSessionDescriptionInit;
  candidate : option RTCIceCandidateInit;
  senderId : string;
  chatMessage : option Chat.ChatMessage
}.

(** The functions handed to [setTimeout] and [setInterval]. *)
Inductive TimerCallback : Type :=
| NegotiationTimedOut     (* initiateConnection, lines 360-368 *)
| DelayedRestart          (* onconnectionstatechange, line 455 *)
| InitialBroadcast        (* startAnnouncementLoop, lines 464-473 *)
| PeriodicBroadcast.      (* startAnnouncementLoop, lines 475-487 *)

Record Timer : Type := mkTimer {
  handle : positive;
  delay : N;                (* milliseconds *)
  repeats : bool;           (* setInterval rather than setTimeout *)
  callback : TimerCallback
}.

Inductive ConsoleLevel : Type := log | warn | error.

(** The refs of the component (Room.tsx, lines 59-74). *)
Record Refs : Type := mkRefs {
  myId : string;
  peerConnection : option RTCPeerConnection;
  channel : option string;
  isInitiator : bool;
  announceInterval : option positive;
  negotiationTimeout : option positive;
  iceCandidatesQueue : list RTCIceCandidateInit;
  localStreamRef : option (list MediaStreamTrack);
  remoteVideoSrcObject : option string
}.

(** The React state the negotiation code writes (Room.tsx, lines 32-52). *)
Record View : Type := mkView {
  status : ConnectionStatus;
  statusMessage : string;
  peerConnected : bool;
  messages : list Chat.ChatMessage;
  unreadCount : nat;
  showChat : bool
}.

(** What the component did to its surroundings: the pending timers, the
    envelopes handed to the channel, the console and the engine. *)
Record World : Type := mkWorld {
  timers : list Timer;
  nextHandle : positive;
  outbox : list SignalMessage;
  console : list (ConsoleLevel * string);
  instances : nat;          (* serial number of the newest engine instance *)
  engineLog : list EngineEvent
}.

Record Session : Type := mkSession {
  refs : Refs;
  view : View;
  world : World
}.

(** ** Field updates *)

Definition with_peerConnection (v : option RTCPeerConnection) (r : Refs) : Refs :=
  mkRefs (myId r) v (channel r) (isInitiator r) (announceInterval r)
         (negotiationTimeout r) (iceCandidatesQueue r) (localStreamRef r)
         (remoteVideoSrcObject r).

Definition with_channel (v : option string) (r : Refs) : Refs :=
  mkRefs (myId r) (peerConnection r) v (isInitiator r) (announceInterval r)
         (negotiationTimeout r) (iceCandidatesQueue r) (localStreamRef r)
         (remoteVideoSrcObject r).

Definition with_isInitiator (v : bool) (r : Refs) : Refs :=
  mkRefs (myId r) (peerConnection r) (channel r) v (announceInterval r)
         (negotiationTimeout r) (iceCandidatesQueue r) (localStreamRef r)
         (remoteVideoSrcObject r).

Definition with_announceInterval (v : option positive) (r : Refs) : Refs :=
  mkRefs (myId r) (peerConnection r) (channel r) (isInitiator r) v
         (negotiationTimeout r) (iceCandidatesQueue r) (localStreamRef r)
         (remoteVideoSrcObject r).

Definition with_negotiationTimeout (v : option positive) (r : Refs) : Refs :=
  mkRefs (myId r) (peerConnection r) (channel r) (isInitiator r)
         (announceInterval r) v (iceCandidatesQueue r) (localStreamRef r)
         (remoteVideoSrcObject r).

Definition with_iceCandidatesQueue (v : list RTCIceCandidateInit) (r : Refs) : Refs :=
  mkRefs (myId r) (peerConnection r) (channel r) (isInitiator r)
         (announceInterval r) (negotiationTimeout r) v (localStreamRef r)
         (remoteVideoSrcObject r).

Definition with_localStreamRef (v : option (list MediaStreamTrack)) (r : Refs) : Refs :=
  mkRefs (myId r) (peerConnection r) (channel r) (isInitiator r)
         (announceInterval r) (negotiationTimeout r) (iceCandidatesQueue r) v
         (remoteVideoSrcObject r).

Definition with_remoteVideoSrcObject (v : option string) (r : Refs) : Refs :=
  mkRefs (myId r) (peerConnection r) (channel r) (isInitiator r)
         (announceInterval r) (negotiationTimeout r) (iceCandidatesQueue r)
         (localStreamRef r) v.

Definition with_status (v : ConnectionStatus) (w : View) : View :=
  mkView v (statusMessage w) (peerConnected w) (messages w) (unreadCount w)
         (showChat w).

Definition with_statusMessage (v : string) (w : View) : View :=
  mkView (status w) v (peerConnected w) (messages w) (unreadCount w)
         (showChat w).

Definition with_peerConnected (v : bool) (w : View) : View :=
  mkView (status w) (statusMessage w) v (messages w) (unreadCount w)
         (showChat w).

Definition with_messages (v : list Chat.ChatMessage) (w : View) : View :=
  mkView (status w) (statusMessage w) (peerConnected w) v (unreadCount w)
         (showChat w).

Definition with_unreadCount (v : nat) (w : View) : View :=
  mkView (status w) (statusMessage w) (peerConnected w) (messages w) v
         (showChat w).

Definition with_timers (v : list Timer) (w : World) : World :=
  mkWorld v (nextHandle w) (outbox w) (console w) (instances w) (engineLog w).

Definition with_nextHandle (v : positive) (w : World) : World :=
  mkWorld (timers w) v (outbox w) (console w) (instances w) (engineLog w).

Definition with_outbox (v : list SignalMessage) (w : World) : World :=
  mkWorld (timers w) (nextHandle w) v (console w) (instances w) (engineLog w).

Definition with_console (v : list (ConsoleLevel * string)) (w : World) : World :=
  mkWorld (timers w) (nextHandle w) (outbox w) v (instances w) (engineLog w).

Definition with_instances (v : nat) (w : World) : World :=
  mkWorld (timers w) (nextHandle w) (outbox w) (console w) v (engineLog w).

Definition with_engineLog (v : list EngineEvent) (w : World) : World :=
  mkWorld (timers w) (nextHandle w) (outbox w) (console w) (instances w) v.

Definition on_refs (f : Refs -> Refs) (s : Session) : Session :=
  mkSession (f (refs s)) (view s) (world s).

Definition on_view (f : View -> View) (s : Session) : Session :=
  mkSession (refs s) (f (view s)) (world s).

Definition on_world (f : World -> World) (s : Session) : Session :=
  mkSession (refs s) (view s) (f (world s)).

(** ** The browser primitives the component uses *)

(** [a > b] on two strings: code units compared left to right. *)
Definition js_gt (a b : string) : bool :=
  match String.compare a b with
  | Gt => true
  | _ => false
  end.

(** console.log / console.warn / console.error *)
Definition consoleWrite (l : ConsoleLevel) (msg : string) : Session -> Session :=
  on_world (fun w => with_console (console w ++ [(l, msg)]) w).

Definition setStatus (v : ConnectionStatus) : Session -> Session :=
  on_view (with_status v).

Definition setStatusMessage (v : string) : Session -> Session :=
  on_view (with_statusMessage v).

Definition setPeerConnected (v : bool) : Session -> Session :=
  on_view (with_peerConnected v).

(** clearTimeout and clearInterval: one pool of handles, an unknown handle is
    ignored. *)
Definition clearTimer (h : positive) : Session -> Session :=
  on_world (fun w =>
    with_timers (filter (fun t => negb (Pos.eqb (handle t) h)) (timers w)) w).

(** setTimeout ([rep = false]) and setInterval ([rep = true]): the handle
    returned is fresh. *)
Definition setTimer (cb : TimerCallback) (ms : N) (rep : bool)
  (s : Session) : positive * Session :=
  let h := nextHandle (world s) in
  (h, on_world (fun w =>
        with_nextHandle (Pos.succ h)
          (with_timers (timers w ++ [mkTimer h ms rep cb]) w)) s).

(** if (ref.current) clearX(ref.current) *)
Definition clearIfSet (r : option positive) (s : Session) : Session :=
  match r with
  | Some h => clearTimer h s
  | None => s
  end.

Definition pending (h : positive) (s : Session) : option Timer :=
  find (fun t => Pos.eqb (handle t) h) (timers (world s)).

(** ** The connection engine *)

(** What an engine instance answers to each call; [None] is a thrown
    exception or a rejected promise, and leaves the instance as it was. *)
Class Engine : Type := {
  construct : RTCPeerConnection;
  createDataChannel : string -> RTCPeerConnection -> option RTCPeerConnection;
  createOffer :
    RTCPeerConnection -> option (RTCSessionDescriptionInit * RTCPeerConnection);
  createAnswer :
    RTCPeerConnection -> option (RTCSessionDescriptionInit * RTCPeerConnection);
  setLocalDescription :
    RTCSessionDescriptionInit -> RTCPeerConnection -> option RTCPeerConnection;
  setRemoteDescription :
    RTCSessionDescriptionInit -> RTCPeerConnection -> option RTCPeerConnection;
  addIceCandidate :
    RTCIceCandidateInit -> RTCPeerConnection -> option RTCPeerConnection;
  addTrack :
    MediaStreamTrack -> RTCPeerConnection -> option RTCPeerConnection
}.

(** ** Code that may throw *)

Inductive Completion (A : Type) : Type :=
| Normal (a : A)
| Throw.
Arguments Normal {A} a.
Arguments Throw {A}.

(** A piece of handler code: it ends normally with a value or throws, and in
    both cases leaves the session as it made it. *)
Definition Code (A : Type) : Type := Session -> Completion A * Session.

Definition ret {A : Type} (a : A) : Code A := fun s => (Normal a, s).

Definition throw {A : Type} : Code A := fun s => (Throw, s).

Definition bind {A B : Type} (m : Code A) (k : A -> Code B) : Code B :=
  fun s =>
    match m s with
    | (Normal a, s1) => k a s1
    | (Throw, s1) => (Throw, s1)
    end.

(** A statement that cannot throw. *)
Definition exec (f : Session -> Session) : Code unit :=
  fun s => (Normal tt, f s).

(** try { m } catch (e) { h } *)
Definition try_catch (m : Code unit) (h : Session -> Session) (s : Session)
  : Session :=
  match m s with
  | (Normal _, s1) => s1
  | (Throw, s1) => h s1
  end.

Declare Scope code_scope.
Delimit Scope code_scope with code.
Notation "x <- m ;; k" := (bind m (fun x => k))
  (at level 61, m at next level, right associativity) : code_scope.
Notation "m ;; k" := (bind m (fun _ => k))
  (at level 61, right associativity) : code_scope.
Local Open Scope code_scope.

(** ** The component *)

Section Room.

Context {E : Engine}.

(** peerConnection.current, dereferenced: a TypeError when it is null. *)
Definition currentPC : Code RTCPeerConnection :=
  fun s =>
    match peerConnection (refs s) with
    | Some pc => (Normal pc, s)
    | None => (Throw, s)
    end.

Definition recordCall (c : EngineCall) : Session -> Session :=
  on_world (fun w => with_engineLog (engineLog w ++ [Called (instances w) c]) w).

(** One call on the current engine instance: the call is recorded, then the
    engine answers. *)
Definition onEngine {A : Type} (c : EngineCall)
  (f : RTCPeerConnection -> option (A * RTCPeerConnection)) : Code A :=
  fun s =>
    match peerConnection (refs s) with
    | None => (Throw, s)
    | Some pc =>
        match f pc with
        | Some (a, pc') =>
            (Normal a, on_refs (with_peerConnection (Some pc')) (recordCall c s))
        | None => (Throw, recordCall c s)
        end
    end.

Definition unitResult (r : option RTCPeerConnection)
  : option (unit * RTCPeerConnection) :=
  match r with
  | Some pc => Some (tt, pc)
  | None => None
  end.

Definition pc_createDataChannel (l : string) : Code unit :=
  onEngine (CreateDataChannel l) (fun pc => unitResult (createDataChannel l pc)).

Definition pc_createOffer : Code RTCSessionDescriptionInit :=
  onEngine CreateOffer createOffer.

Definition pc_createAnswer : Code RTCSessionDescriptionInit :=
  onEngine CreateAnswer createAnswer.

Definition pc_setLocalDescription (d : RTCSessionDescriptionInit) : Code unit :=
  onEngine (SetLocalDescription d) (fun pc => unitResult (setLocalDescription d pc)).

Definition pc_setRemoteDescription (d : RTCSessionDescriptionInit) : Code unit :=
  onEngine (SetRemoteDescription d) (fun pc => unitResult (setRemoteDescription d pc)).

Definition pc_addIceCandidate (c : RTCIceCandidateInit) : Code unit :=
  onEngine (AddIceCandidate c) (fun pc => unitResult (addIceCandidate c pc)).

Definition pc_addTrack (t : MediaStreamTrack) : Code unit :=
  onEngine (AddTrack t) (fun pc => unitResult (addTrack t pc)).

(** channel.current.send({type: 'broadcast', event: 'signal', payload}):
    a TypeError when the channel is null. *)
Definition channelSend (m : SignalMessage) : Code unit :=
  fun s =>
    match channel (refs s) with
    | Some _ => (Normal tt, on_world (fun w => with_outbox (outbox w ++ [m]) w) s)
    | None => (Throw, s)
    end.

(** channel.current?.send(...) *)
Definition channelSendIfAny (m : SignalMessage) (s : Session) : Session :=
  match channel (refs s) with
  | Some _ => on_world (fun w => with_outbox (outbox w ++ [m]) w) s
  | None => s
  end.

Definition announceEnvelope (s : Session) : SignalMessage :=
  mkSignal announce None None (myId (refs s)) None.

(** The body of a timer set by startAnnouncementLoop (lines 464-487). *)
Definition initialBroadcast (s : Session) : Session :=
  match option_map connectionState (peerConnection (refs s)) with
  | Some pcs_connected => s
  | _ =>
      channelSendIfAny (announceEnvelope s)
        (consoleWrite log "Broadcasting presence..." s)
  end.

Definition periodicBroadcast (s : Session) : Session :=
  match option_map connectionState (peerConnection (refs s)) with
  | Some pcs_connected => clearIfSet (announceInterval (refs s)) s
  | _ =>
      channelSendIfAny (announceEnvelope s)
        (consoleWrite log "Broadcasting presence..." s)
  end.

(** startAnnouncementLoop (lines 460-488) *)
Definition startAnnouncementLoop (s : Session) : Session :=
  let s1 := clearIfSet (announceInterval (refs s)) s in
  let s2 := snd (setTimer InitialBroadcast 500%N false s1) in
  let (h, s3) := setTimer PeriodicBroadcast 2000%N true s2 in
  on_refs (with_announceInterval (Some h)) s3.

(** createPeerConnection (lines 402-458): the handlers it installs are
    [onconnectionstatechange] below and display-only ones. *)
Definition createPeerConnection (s : Session) : Session :=
  match peerConnection (refs s) with
  | Some _ => s
  | None =>
      let s1 := consoleWrite log "Creating RTCPeerConnection" s in
      let n := S (instances (world s1)) in
      on_refs (with_peerConnection (Some construct))
        (on_world (fun w =>
           with_instances n (with_engineLog (engineLog w ++ [Constructed n]) w))
           s1)
  end.

(** tracks.forEach(track => { try { pc?.addTrack(track, stream) }
    catch (e) { console.error(...) } }) *)
Fixpoint addTracks (ts : list MediaStreamTrack) (s : Session) : Session :=
  match ts with
  | [] => s
  | t :: rest =>
      addTracks rest
        (match peerConnection (refs s) with
         | None => s
         | Some _ =>
             try_catch (pc_addTrack t)
               (consoleWrite error "Error adding initial tracks") s
         end)
  end.

(** if (peerConnection.current) { peerConnection.current.close();
    peerConnection.current = null; }  (lines 377-380) *)
Definition closeCurrent (s : Session) : Session :=
  match peerConnection (refs s) with
  | Some _ =>
      on_refs (with_peerConnection None)
        (on_world (fun w =>
           with_engineLog (engineLog w ++ [Closed (instances w)]) w) s)
  | None => s
  end.

(** if (localStreamRef.current && peerConnection.current) { ... }
    (lines 382-388) *)
Definition attachLocalTracks (s : Session) : Session :=
  match localStreamRef (refs s), peerConnection (refs s) with
  | Some ts, Some _ => addTracks ts s
  | _, _ => s
  end.

(** restartConnection (lines 375-392) *)
Definition restartConnection (s : Session) : Session :=
  let s1 := consoleWrite log "Restarting connection..." s in
  let s2 := closeCurrent s1 in
  let s3 := createPeerConnection s2 in
  let s4 := attachLocalTracks s3 in
  startAnnouncementLoop
    (setStatusMessage "Retrying connection..." (setStatus WaitingForPeer s4)).

(** handleRemoteDisconnect (lines 394-400) *)
Definition handleRemoteDisconnect (s : Session) : Session :=
  restartConnection
    (on_refs (with_remoteVideoSrcObject None)
       (setPeerConnected false
          (setStatusMessage "Peer left. Waiting..."
             (setStatus WaitingForPeer s)))).

(** if (announceInterval.current) { clearInterval(...);
    announceInterval.current = null; } *)
Definition stopAnnouncing (s : Session) : Session :=
  match announceInterval (refs s) with
  | Some h => on_refs (with_announceInterval None) (clearTimer h s)
  | None => s
  end.

Definition offerEnvelope (d : RTCSessionDescriptionInit) (s : Session)
  : SignalMessage :=
  mkSignal offer (Some d) None (myId (refs s)) None.

Definition answerEnvelope (d : RTCSessionDescriptionInit) (s : Session)
  : SignalMessage :=
  mkSignal answer (Some d) None (myId (refs s)) None.

(** The statements of initiateConnection inside its try (lines 341-369). *)
Definition sendOffer : Code unit :=
  pc_createDataChannel "keepalive" ;;
  d <- pc_createOffer ;;
  pc_setLocalDescription d ;;
  (fun s => channelSend (offerEnvelope d s) s) ;;
  exec (fun s =>
    let s1 := clearIfSet (negotiationTimeout (refs s)) s in
    let (h, s2) := setTimer NegotiationTimedOut 10000%N false s1 in
    on_refs (with_negotiationTimeout (Some h)) s2).

(** initiateConnection (lines 328-373) *)
Definition initiateConnection (s : Session) : Session :=
  match peerConnection (refs s) with
  | None => s
  | Some _ =>
      let s1 := stopAnnouncing s in
      let s2 := setStatusMessage "Calling peer..." (setStatus Negotiating s1) in
      let s3 := on_refs (with_isInitiator true) s2 in
      try_catch sendOffer (consoleWrite error "Error initiating connection") s3
  end.

(** The callback of the negotiation timer (lines 360-368). *)
Definition negotiationTimedOut (s : Session) : Session :=
  let pcState := option_map connectionState (peerConnection (refs s)) in
  let iceState := option_map iceConnectionState (peerConnection (refs s)) in
  match pcState, iceState with
  | Some pcs_connected, _ => s
  | _, Some ice_connected => s
  | _, _ =>
      restartConnection (consoleWrite log "Negotiation timed out. Retrying..." s)
  end.

Definition runCallback (cb : TimerCallback) : Session -> Session :=
  match cb with
  | NegotiationTimedOut => negotiationTimedOut
  | DelayedRestart => restartConnection
  | InitialBroadcast => initialBroadcast
  | PeriodicBroadcast => periodicBroadcast
  end.

(** The timer with handle [h] comes due: nothing if it was cleared; a
    timeout is consumed, an interval stays armed. *)
Definition fireTimer (h : positive) (s : Session) : Session :=
  match pending h s with
  | None => s
  | Some t =>
      runCallback (callback t) (if repeats t then s else clearTimer h s)
  end.

(** onconnectionstatechange (lines 438-457), run by the engine after it
    changed [connectionState]. *)
Definition onconnectionstatechange (s : Session) : Session :=
  let s0 := consoleWrite log "Connection State Change:" s in
  match option_map connectionState (peerConnection (refs s)) with
  | Some pcs_connected =>
      let s1 := setPeerConnected true
                  (setStatusMessage "Securely connected"
                     (setStatus Connected s0)) in
      let s2 := clearIfSet (announceInterval (refs s1)) s1 in
      clearIfSet (negotiationTimeout (refs s2)) s2
  | Some pcs_disconnected =>
      setPeerConnected false
        (setStatusMessage "Peer disconnected" (setStatus Disconnected s0))
  | Some pcs_failed =>
      snd (setTimer DelayedRestart 2000%N false
             (setStatusMessage "Connection failed. Retrying..."
                (setStatus Failed s0)))
  | _ => s0
  end.

Definition with_connectionState (v : RTCPeerConnectionState)
  (pc : RTCPeerConnection) : RTCPeerConnection :=
  mkPC v (signalingState pc) (iceConnectionState pc) (localDescription pc)
       (remoteDescription pc) (candidates pc) (senders pc) (dataChannels pc).

(** The engine moves the current instance to connection state [v] and
    fires the event. *)
Definition connectionStateChanged (v : RTCPeerConnectionState) (s : Session)
  : Session :=
  onconnectionstatechange
    (on_refs (fun r =>
       with_peerConnection (option_map (with_connectionState v) (peerConnection r)) r)
       s).

(** {type: "rollback"} *)
Definition rollback : RTCSessionDescriptionInit := mkDescription sdp_rollback "".

(** The loop over the queue (lines 279-286): while the queue is not empty,
    shift its head and try to add it.  [fuel] bounds the iterations. *)
Fixpoint drainQueue (fuel : nat) (s : Session) : Session :=
  match fuel with
  | O => s
  | S n =>
      match iceCandidatesQueue (refs s) with
      | [] => s
      | c :: rest =>
          drainQueue n
            (try_catch (pc_addIceCandidate c)
               (consoleWrite warn "Failed to add queued candidate")
               (on_refs (with_iceCandidatesQueue rest) s))
      end
  end.

(** Lines 268-276.  In the glare branch both calls are issued, the rollback
    first, and [Promise.all] rejects when either does; the argument
    [new RTCSessionDescription(payload.sdp)] throws when the envelope carries
    no description. *)
Definition applyRemoteOffer (payload : SignalMessage) : Code unit :=
  pc <- currentPC ;;
  if negb (signaling_eqb (signalingState pc) stable) then
    fun s =>
      let (r1, s1) := pc_setLocalDescription rollback s in
      match sdp payload with
      | None => (Throw, s1)
      | Some d =>
          let (r2, s2) := pc_setRemoteDescription d s1 in
          (match r1, r2 with
           | Normal _, Normal _ => Normal tt
           | _, _ => Throw
           end, s2)
      end
  else
    match sdp payload with
    | None => throw
    | Some d => pc_setRemoteDescription d
    end.

(** Lines 288-295: the answer is created, set and sent. *)
Definition sendAnswer : Code unit :=
  d <- pc_createAnswer ;;
  pc_setLocalDescription d ;;
  (fun s => channelSend (answerEnvelope d s) s).

(** The 'offer' branch (lines 257-295). *)
Definition onOffer (payload : SignalMessage) : Code unit :=
  exec (consoleWrite log "Received Offer") ;;
  exec (setStatus Negotiating) ;;
  exec (setStatusMessage "Accepting connection...") ;;
  exec stopAnnouncing ;;
  applyRemoteOffer payload ;;
  exec (fun s => drainQueue (List.length (iceCandidatesQueue (refs s))) s) ;;
  sendAnswer.

(** The 'answer' branch (lines 297-304). *)
Definition onAnswer (payload : SignalMessage) : Code unit :=
  exec (consoleWrite log "Received Answer") ;;
  exec (setStatus Negotiating) ;;
  exec (setStatusMessage "Finalizing connection...") ;;
  pc <- currentPC ;;
  if signaling_eqb (signalingState pc) have_local_offer then
    match sdp payload with
    | None => throw
    | Some d => pc_setRemoteDescription d
    end
  else ret tt.

(** The 'ice-candidate' branch (lines 306-315). *)
Definition onIceCandidate (payload : SignalMessage) : Code unit :=
  match candidate payload with
  | None => ret tt
  | Some c =>
      pc <- currentPC ;;
      match remoteDescription pc with
      | Some _ =>
          exec (try_catch (pc_addIceCandidate c)
                  (consoleWrite warn "Error adding candidate"))
      | None =>
          exec (on_refs (fun r =>
                  with_iceCandidatesQueue (iceCandidatesQueue r ++ [c]) r))
      end
  end.

(** sigState !== 'stable' && pcState !== 'failed' && pcState !== 'disconnected' *)
Definition alreadyNegotiating (pc : RTCPeerConnection) : bool :=
  negb (signaling_eqb (signalingState pc) stable)
  && negb (state_eqb (connectionState pc) pcs_failed)
  && negb (state_eqb (connectionState pc) pcs_disconnected).

(** The 'announce' branch (lines 231-256). *)
Definition onAnnounce (payload : SignalMessage) : Code unit :=
  pc <- currentPC ;;
  if state_eqb (connectionState pc) pcs_connected then ret tt
  else
    fun s =>
      if js_gt (myId (refs s)) (senderId payload) then
        if alreadyNegotiating pc then ret tt s
        else
          exec initiateConnection
            (consoleWrite log
               "Announcement received. I am Initiator. Calling peer..." s)
      else
        exec (consoleWrite log
                "Announcement received. I am Follower. Waiting for offer...") s.

(** The body of the try of handleSignalMessage (lines 231-318). *)
Definition signaling (payload : SignalMessage) : Code unit :=
  match type payload with
  | announce => onAnnounce payload
  | offer => onOffer payload
  | answer => onAnswer payload
  | ice_candidate => onIceCandidate payload
  | leave => exec handleRemoteDisconnect
  | join | chat => ret tt
  end.

(** Its catch (lines 319-325). *)
Definition signalingFailed (payload : SignalMessage) (s : Session) : Session :=
  let s1 := consoleWrite error "Signaling error:" s in
  match type payload with
  | offer | answer => restartConnection s1
  | _ => s1
  end.

(** setMessages(prev => prev.some(m => m.id === msg.id) ? prev : [...prev, msg]) *)
Definition appendUnlessKnown (m : Chat.ChatMessage)
  (prev : list Chat.ChatMessage) : list Chat.ChatMessage :=
  if existsb (fun x => String.eqb (Chat.id x) (Chat.id m)) prev
  then prev
  else prev ++ [m].

(** handleSignalMessage (lines 209-326).  The function that the channel
    calls (line 519) is the one of the render in which the main effect ran,
    the effect depending on roomId alone; the [showChat] it reads at line 223
    is therefore the initial [false] of line 48, whatever the chat panel
    shows by now, and every chat envelope of another peer is counted as
    unread. *)
Definition handleSignalMessage (payload : SignalMessage) (s : Session)
  : Session :=
  if String.eqb (senderId payload) (myId (refs s)) then s
  else
    match type payload, chatMessage payload with
    | chat, Some m =>
        on_view (fun v => with_unreadCount (unreadCount v + 1) v)
          (on_view (fun v => with_messages (appendUnlessKnown m (messages v)) v) s)
    | _, _ =>
        match peerConnection (refs s) with
        | None => s
        | Some _ => try_catch (signaling payload) (signalingFailed payload) s
        end
    end.

(** The handler run on a list of envelopes, in order of delivery. *)
Definition deliver (ps : list SignalMessage) (s : Session) : Session :=
  fold_left (fun acc p => handleSignalMessage p acc) ps s.

(** The component as mounted (lines 32-74), before init has run. *)
Definition mounted (me : string) : Session :=
  mkSession
    (mkRefs me None None false None None [] None None)
    (mkView Initializing "Setting up room..." false [] 0 false)
    (mkWorld [] 1%positive [] [] 0 []).

(** init with no local media, up to the 'SUBSCRIBED' callback (lines
    494-533): the engine exists, the channel is open and the announcement
    loop runs. *)
Definition subscribed (me room : string) : Session :=
  startAnnouncementLoop
    (setStatusMessage "Searching for peer..."
       (setStatus WaitingForPeer
          (consoleWrite log "Subscribed to Supabase channel"
             (on_refs (with_channel (Some (String.append "room:" room)))
                (createPeerConnection (setStatus Initializing (mounted me))))))).

End Room.

(** ** A reference engine

    The signalling state machine of the W3C WebRTC recommendation, as far as
    the component can observe it.  It is used to run the component on
    concrete inputs; the general results do not depend on it. *)

Module Reference.

Definition with_signaling (v : RTCSignalingState)
  (l r : option RTCSessionDescriptionInit) (pc : RTCPeerConnection)
  : RTCPeerConnection :=
  mkPC (connectionState pc) v (iceConnectionState pc) l r
       (candidates pc) (senders pc) (dataChannels pc).

Definition isClosed (pc : RTCPeerConnection) : bool :=
  signaling_eqb (signalingState pc) sig_closed.

Definition newPC : RTCPeerConnection :=
  mkPC pcs_new stable ice_new None None [] [] [].

Definition dataChannel (l : string) (pc : RTCPeerConnection)
  : option RTCPeerConnection :=
  if isClosed pc then None
  else Some (mkPC (connectionState pc) (signalingState pc)
               (iceConnectionState pc) (localDescription pc)
               (remoteDescription pc) (candidates pc) (senders pc)
               (dataChannels pc ++ [l])).

Definition offerOf (pc : RTCPeerConnection)
  : option (RTCSessionDescriptionInit * RTCPeerConnection) :=
  if isClosed pc then None
  else Some (mkDescription sdp_offer "v=0 o=offer", pc).

Definition answerOf (pc : RTCPeerConnection)
  : option (RTCSessionDescriptionInit * RTCPeerConnection) :=
  match signalingState pc with
  | have_remote_offer | have_local_pranswer =>
      Some (mkDescription sdp_answer "v=0 o=answer", pc)
  | _ => None
  end.

Definition setLocal (d : RTCSessionDescriptionInit) (pc : RTCPeerConnection)
  : option RTCPeerConnection :=
  match RTC.type d, signalingState pc with
  | sdp_offer, stable | sdp_offer, have_local_offer =>
      Some (with_signaling have_local_offer (Some d) (remoteDescription pc) pc)
  | sdp_answer, have_remote_offer | sdp_answer, have_local_pranswer =>
      Some (with_signaling stable (Some d) (remoteDescription pc) pc)
  | sdp_pranswer, have_remote_offer | sdp_pranswer, have_local_pranswer =>
      Some (with_signaling have_local_pranswer (Some d) (remoteDescription pc) pc)
  | sdp_rollback, have_local_offer =>
      Some (with_signaling stable None (remoteDescription pc) pc)
  | sdp_rollback, have_remote_offer =>
      Some (with_signaling stable (localDescription pc) None pc)
  | _, _ => None
  end.

Definition setRemote (d : RTCSessionDescriptionInit) (pc : RTCPeerConnection)
  : option RTCPeerConnection :=
  if String.eqb (RTC.sdp d) "" && negb (match RTC.type d with sdp_rollback => true | _ => false end)
  then None
  else
    match RTC.type d, signalingState pc with
    | sdp_offer, stable | sdp_offer, have_remote_offer =>
        Some (with_signaling have_remote_offer (localDescription pc) (Some d) pc)
    | sdp_answer, have_local_offer | sdp_answer, have_remote_pranswer =>
        Some (with_signaling stable (localDescription pc) (Some d) pc)
    | sdp_pranswer, have_local_offer | sdp_pranswer, have_remote_pranswer =>
        Some (with_signaling have_remote_pranswer (localDescription pc) (Some d) pc)
    | sdp_rollback, have_remote_offer =>
        Some (with_signaling stable (localDescription pc) None pc)
    | _, _ => None
    end.

Definition addCandidate (c : RTCIceCandidateInit) (pc : RTCPeerConnection)
  : option RTCPeerConnection :=
  match remoteDescription pc, sdpMid c, sdpMLineIndex c with
  | None, _, _ => None
  | Some _, None, None => None
  | Some _, _, _ =>
      Some (mkPC (connectionState pc) (signalingState pc)
              (iceConnectionState pc) (localDescription pc)
              (remoteDescription pc) (candidates pc ++ [c]) (senders pc)
              (dataChannels pc))
  end.

Definition sameTrack (a b : MediaStreamTrack) : bool :=
  String.eqb (label a) (label b)
  && match kind a, kind b with
     | audio, audio | video, video => true
     | _, _ => false
     end.

Definition track (t : MediaStreamTrack) (pc : RTCPeerConnection)
  : option RTCPeerConnection :=
  if isClosed pc || existsb (sameTrack t) (senders pc) then None
  else Some (mkPC (connectionState pc) (signalingState pc)
               (iceConnectionState pc) (localDescription pc)
               (remoteDescription pc) (candidates pc) (senders pc ++ [t])
               (dataChannels pc)).

#[export] Instance engine : Engine := {
  construct := newPC;
  createDataChannel := dataChannel;
  createOffer := offerOf;
  createAnswer := answerOf;
  setLocalDescription := setLocal;
  setRemoteDescription := setRemote;
  addIceCandidate := addCandidate;
  addTrack := track
}.

(** An engine that rejects every call, for the failure paths. *)
Definition broken : Engine := {|
  construct := newPC;
  createDataChannel := fun _ _ => None;
  createOffer := fun _ => None;
  createAnswer := fun _ => None;
  setLocalDescription := fun _ _ => None;
  setRemoteDescription := fun _ _ => None;
  addIceCandidate := fun _ _ => None;
  addTrack := fun _ _ => None
|}.

End Reference.

(** ** Sample inputs *)

Module Sample.

Definition announceFrom (who : string) : SignalMessage :=
  mkSignal announce None None who None.

Definition remoteOffer : RTCSessionDescriptionInit :=
  mkDescription sdp_offer "v=0 o=remote-offer".

Definition remoteAnswer : RTCSessionDescriptionInit :=
  mkDescription sdp_answer "v=0 o=remote-answer".

Definition offerFrom (who : string) : SignalMessage :=
  mkSignal offer (Some remoteOffer) None who None.

Definition answerFrom (who : string) : SignalMessage :=
  mkSignal answer (Some remoteAnswer) None who None.

Definition host (n : nat) : RTCIceCandidateInit :=
  mkCandidate "candidate:host" (Some "0") (Some n).

(** Neither sdpMid nor sdpMLineIndex: the reference engine rejects it. *)
Definition malformed : RTCIceCandidateInit :=
  mkCandidate "candidate:bad" None None.

Definition candidateFrom (who : string) (c : RTCIceCandidateInit)
  : SignalMessage :=
  mkSignal ice_candidate None (Some c) who None.

Definition hello : Chat.ChatMessage :=
  Chat.mkChat "m1" "hello" "a9" 1 None.

Definition chatFrom (who : string) (m : Chat.ChatMessage) : SignalMessage :=
  mkSignal chat None None who (Some m).

(** A peer waiting in the room, on the reference engine. *)
Definition waiting (me : string) : Session :=
  @subscribed Reference.engine me "lobby".

(** "b1" after it heard the announcement of "a9": it has offered. *)
Definition offering : Session :=
  @handleSignalMessage Reference.engine (announceFrom "a9") (waiting "b1").

Definition offeringPC : RTCPeerConnection :=
  mkPC pcs_new have_local_offer ice_new
    (Some (mkDescription sdp_offer "v=0 o=offer")) None [] [] ["keepalive"].

(** "a9" after the offer of "b1" reached it: it has answered. *)
Definition answered : Session :=
  @handleSignalMessage Reference.engine (offerFrom "b1") (waiting "a9").

Definition answeredPC : RTCPeerConnection :=
  mkPC pcs_new stable ice_new
    (Some (mkDescription sdp_answer "v=0 o=answer")) (Some remoteOffer)
    [] [] [].

(** "a9" with three candidates of "b1" queued, the second one malformed
    (scenario 3). *)
Definition queued : Session :=
  @deliver Reference.engine
    [candidateFrom "b1" (host 0); candidateFrom "b1" malformed;
     candidateFrom "b1" (host 2)]
    (waiting "a9").

(** An answer whose description the reference engine rejects. *)
Definition emptyAnswer : RTCSessionDescriptionInit :=
  mkDescription sdp_answer "".

Definition badAnswerFrom (who : string) : SignalMessage :=
  mkSignal answer (Some emptyAnswer) None who None.

(** "b1" after the answer of "a9" reached it. *)
Definition accepted : Session :=
  @handleSignalMessage Reference.engine (answerFrom "a9") offering.

(** "b1" once its engine has reported the connection. *)
Definition connected : Session :=
  connectionStateChanged pcs_connected accepted.

(** The engine moves to ICE connection state [v]; the handler of that event
    (lines 430-432) only updates the detailed status line, which the session
    does not carry. *)
Definition with_iceConnectionState (v : RTCIceConnectionState)
  (pc : RTCPeerConnection) : RTCPeerConnection :=
  mkPC (connectionState pc) (signalingState pc) v (localDescription pc)
       (remoteDescription pc) (candidates pc) (senders pc) (dataChannels pc).

(** "b1" after the answer, the transport still being set up: the connection
    state is connecting while the ICE agent has found a working pair. *)
Definition iceConnected : Session :=
  on_refs (fun r =>
     with_peerConnection
       (option_map (with_iceConnectionState ice_connected) (peerConnection r)) r)
    (connectionStateChanged pcs_connecting accepted).

End Sample.

(** ** Vocabulary of the statements *)

Section Vocabulary.

Context {E : Engine}.

(** What the engine makes of the three calls of the initiator path, in
    their order: the keep-alive data channel, the offer, the offer as local
    description. *)
Definition offerProduced (pc : RTCPeerConnection)
  : option (RTCSessionDescriptionInit * RTCPeerConnection) :=
  match createDataChannel "keepalive" pc with
  | None => None
  | Some pc1 =>
      match createOffer pc1 with
      | None => None
      | Some (d, pc2) =>
          match setLocalDescription d pc2 with
          | None => None
          | Some pc3 => Some (d, pc3)
          end
      end
  end.

(** What the engine makes of a remote offer [d]: directly when the
    signalling state is stable, after a rollback otherwise. *)
Definition remoteOfferAccepted (d : RTCSessionDescriptionInit)
  (pc : RTCPeerConnection) : option RTCPeerConnection :=
  if signaling_eqb (signalingState pc) stable then setRemoteDescription d pc
  else
    match setLocalDescription rollback pc with
    | None => None
    | Some pc1 => setRemoteDescription d pc1
    end.

(** The engine calls by which a remote offer [d] is applied. *)
Definition remoteOfferCalls (d : RTCSessionDescriptionInit)
  (pc : RTCPeerConnection) : list EngineCall :=
  if signaling_eqb (signalingState pc) stable
  then [SetRemoteDescription d]
  else [SetLocalDescription rollback; SetRemoteDescription d].

(** One candidate offered to the engine: a rejected one changes nothing. *)
Definition applyCandidate (pc : RTCPeerConnection) (c : RTCIceCandidateInit)
  : RTCPeerConnection :=
  match addIceCandidate c pc with
  | Some pc' => pc'
  | None => pc
  end.

(** The candidates of [q] that the engine refuses when they are handed to
    it one after the other, the first one to [pc]. *)
Fixpoint rejected (q : list RTCIceCandidateInit) (pc : RTCPeerConnection)
  : list RTCIceCandidateInit :=
  match q with
  | [] => []
  | c :: rest =>
      match addIceCandidate c pc with
      | Some pc' => rejected rest pc'
      | None => c :: rejected rest pc
      end
  end.

(** The guard of line 242, in words. *)
Definition midNegotiation (pc : RTCPeerConnection) : Prop :=
  signalingState pc <> stable
  /\ connectionState pc <> pcs_failed
  /\ connectionState pc <> pcs_disconnected.

(** The session as initiateConnection has it when it enters its try
    (lines 331-339). *)
Definition initiatorPrefix (s : Session) : Session :=
  on_refs (with_isInitiator true)
    (setStatusMessage "Calling peer..."
       (setStatus Negotiating (stopAnnouncing s))).

(** The session as the 'offer' branch has it before it touches the engine
    (lines 258-266). *)
Definition offerPrefix (s : Session) : Session :=
  stopAnnouncing
    (setStatusMessage "Accepting connection..."
       (setStatus Negotiating (consoleWrite log "Received Offer" s))).

(** The session as the 'answer' branch has it before it reads the
    signalling state (lines 298-300). *)
Definition answerPrefix (s : Session) : Session :=
  setStatusMessage "Finalizing connection..."
    (setStatus Negotiating (consoleWrite log "Received Answer" s)).

(** iceCandidatesQueue.current.push, for each of [cs] in turn. *)
Definition enqueue (cs : list RTCIceCandidateInit) : Session -> Session :=
  on_refs (fun r => with_iceCandidatesQueue (iceCandidatesQueue r ++ cs) r).

(** [s'] has the engine log of [s] and possibly more. *)
Definition extends (s s' : Session) : Prop :=
  exists rest, engineLog (world s') = engineLog (world s) ++ rest.

(** The events a restart adds to the engine log. *)
Definition closing (s : Session) : list EngineEvent :=
  match peerConnection (refs s) with
  | Some _ => [Closed (instances (world s))]
  | None => []
  end.

Definition localTracks (s : Session) : list MediaStreamTrack :=
  match localStreamRef (refs s) with
  | Some ts => ts
  | None => []
  end.

(** [s'] is what a full restart made of a session that stood as [s]: the
    engine instance of [s], if any, was closed and a new one constructed,
    the status is Waiting for Peer, and the announcement loop runs anew, with
    its first broadcast after 500 ms and its period of 2 s. *)
Definition restarted (s s' : Session) : Prop :=
  let i := instances (world s) in
  instances (world s') = S i
  /\ (exists pre rest,
        engineLog (world s')
        = engineLog (world s) ++ pre ++ closing s ++ Constructed (S i) :: rest)
  /\ peerConnection (refs s') <> None
  /\ status (view s') = WaitingForPeer
  /\ (exists h h0,
        announceInterval (refs s') = Some h
        /\ In (mkTimer h 2000 true PeriodicBroadcast) (timers (world s'))
        /\ In (mkTimer h0 500 false InitialBroadcast) (timers (world s'))).

(** Every handle in use was issued before [nextHandle]. *)
Definition issued (h : positive) (s : Session) : Prop :=
  (h < nextHandle (world s))%positive.

Definition handlesIssued (s : Session) : Prop :=
  (forall t, In t (timers (world s)) -> issued (handle t) s)
  /\ (forall h, announceInterval (refs s) = Some h -> issued h s)
  /\ (forall h, negotiationTimeout (refs s) = Some h -> issued h s).

End Vocabulary.


(** ** The event loop *)

Section EventLoop.

Context {E : Engine}.

(** What the browser can hand to the component once it is subscribed: an
    envelope from the channel (line 518), a timer that comes due, a
    connection-state change of the engine (line 438) and a click on
    "Force Reconnect" (line 926). *)
Inductive Event : Type :=
| Envelope (p : SignalMessage)
| TimerDue (h : positive)
| ConnectionState (v : RTCPeerConnectionState)
| ReconnectClicked.

Definition dispatch (e : Event) (s : Session) : Session :=
  match e with
  | Envelope p => handleSignalMessage p s
  | TimerDue h => fireTimer h s
  | ConnectionState v => connectionStateChanged v s
  | ReconnectClicked => restartConnection s
  end.

Definition run (es : list Event) (s : Session) : Session :=
  fold_left (fun acc e => dispatch e acc) es s.

(** Lines 359-368 of initiateConnection: the negotiation timer is re-armed. *)
Definition armNegotiationTimer (s : Session) : Session :=
  let s1 := clearIfSet (negotiationTimeout (refs s)) s in
  let (h, s2) := setTimer NegotiationTimedOut 10000 false s1 in
  on_refs (with_negotiationTimeout (Some h)) s2.

End EventLoop.

(** ** Invariants of the event loop *)

(** The part of a session that the timers and the engine protocol depend on. *)
Definition hasEngine (s : Session) : bool :=
  match peerConnection (refs s) with
  | Some _ => true
  | None => false
  end.

Definition skeleton (s : Session) :=
  (timers (world s), nextHandle (world s),
   announceInterval (refs s), negotiationTimeout (refs s),
   hasEngine s, instances (world s), engineLog (world s)).

Definition keeps (I : Session -> Prop) (f : Session -> Session) : Prop :=
  forall s, I s -> I (f s).

Definition keepsCode (I : Session -> Prop) {A : Type} (m : Code A) : Prop :=
  forall s, I s -> I (snd (m s)).

(** The timers are owned: handles are fresh and distinct, every pending
    announcement interval is the one [announceInterval] names and every
    pending negotiation timer is the one [negotiationTimeout] names. *)
Definition timersOwned (s : Session) : Prop :=
  handlesIssued s
  /\ NoDup (map handle (timers (world s)))
  /\ (forall t, In t (timers (world s)) ->
                callback t = PeriodicBroadcast ->
                announceInterval (refs s) = Some (handle t))
  /\ (forall t, In t (timers (world s)) ->
                callback t = NegotiationTimedOut ->
                negotiationTimeout (refs s) = Some (handle t)).

(** How the engine instances may be used: one at a time, numbered upwards,
    called and closed only while in use. *)
Inductive Usage : Type :=
| Broken
| Idle (last : nat)
| Using (inst : nat).

Definition engineStep (u : Usage) (e : EngineEvent) : Usage :=
  match u, e with
  | Idle last, Constructed n => if Nat.ltb last n then Using n else Broken
  | Using m, Closed n => if Nat.eqb m n then Idle m else Broken
  | Using m, Called n _ => if Nat.eqb m n then Using m else Broken
  | _, _ => Broken
  end.

Definition engineRun (l : list EngineEvent) : Usage :=
  fold_left engineStep l (Idle 0).

Definition engineDisciplined (s : Session) : Prop :=
  engineRun (engineLog (world s))
  = if hasEngine s then Using (instances (world s)) else Idle (instances (world s)).

(** ** Sending a chat message, leaving the room *)

(** Is the byte string, read as UTF-8, made of nothing but the characters
    that String.prototype.trim removes (WhiteSpace and LineTerminator of
    ECMAScript)? *)
Definition asciiSpace (c : ascii) : bool :=
  match nat_of_ascii c with
  | 9 | 10 | 11 | 12 | 13 | 32 => true
  | _ => false
  end.

Fixpoint isBlank (s : string) : bool :=
  match s with
  | EmptyString => true
  | String c rest =>
      if asciiSpace c then isBlank rest
      else
        match nat_of_ascii c, rest with
        (* U+00A0 *)
        | 194, String c2 rest2 =>
            if Nat.eqb (nat_of_ascii c2) 160 then isBlank rest2 else false
        | 225, String c2 (String c3 rest3) =>
            (* U+1680 *)
            if Nat.eqb (nat_of_ascii c2) 154 && Nat.eqb (nat_of_ascii c3) 128
            then isBlank rest3 else false
        | 226, String c2 (String c3 rest3) =>
            let b2 := nat_of_ascii c2 in
            let b3 := nat_of_ascii c3 in
            (* U+2000..U+200A, U+2028, U+2029, U+202F, U+205F *)
            if (Nat.eqb b2 128
                && ((Nat.leb 128 b3 && Nat.leb b3 138)
                    || Nat.eqb b3 168 || Nat.eqb b3 169 || Nat.eqb b3 175))
               || (Nat.eqb b2 129 && Nat.eqb b3 159)
            then isBlank rest3 else false
        | 227, String c2 (String c3 rest3) =>
            (* U+3000 *)
            if Nat.eqb (nat_of_ascii c2) 128 && Nat.eqb (nat_of_ascii c3) 128
            then isBlank rest3 else false
        | 239, String c2 (String c3 rest3) =>
            (* U+FEFF *)
            if Nat.eqb (nat_of_ascii c2) 187 && Nat.eqb (nat_of_ascii c3) 191
            then isBlank rest3 else false
        | _, _ => false
        end
  end.

Section Chatting.

Context {E : Engine}.

Definition chatEnvelope (m : Chat.ChatMessage) (s : Session) : SignalMessage :=
  mkSignal chat None None (myId (refs s)) (Some m).

(** handleSendMessage (lines 185-206).  [inputMessage] is the text of the
    input field, [token] the value of Math.random().toString(36).substring(7)
    and [now] that of Date.now(); the result is the session and the new text
    of the input field. *)
Definition handleSendMessage (inputMessage token : string) (now : nat)
  (s : Session) : Session * string :=
  if isBlank inputMessage then (s, inputMessage)
  else
    let msg := Chat.mkChat token inputMessage (myId (refs s)) now None in
    let s1 := on_view (fun v => with_messages (messages v ++ [msg]) v) s in
    (channelSendIfAny (chatEnvelope msg s1) s1, "").

Definition leaveEnvelope (s : Session) : SignalMessage :=
  mkSignal leave None None (myId (refs s)) None.

(** The cleanup of the main effect (lines 537-554), as far as it touches the
    session; the second component lists the tracks it stops, those of the
    local stream and those of [screen], the screen-share stream. *)
Definition cleanup (screen : option (list MediaStreamTrack)) (s : Session)
  : Session * list MediaStreamTrack :=
  let s1 := clearIfSet (announceInterval (refs s)) s in
  let s2 := clearIfSet (negotiationTimeout (refs s1)) s1 in
  let stopped :=
    match localStreamRef (refs s2) with Some ts => ts | None => [] end
    ++ match screen with Some ts => ts | None => [] end in
  let s3 := closeCurrent s2 in
  let s4 :=
    match channel (refs s3) with
    | Some _ =>
        on_refs (with_channel None)
          (on_world (fun w => with_outbox (outbox w ++ [leaveEnvelope s3]) w) s3)
    | None => s3
    end in
  (s4, stopped).

End Chatting.

(** ** The client of the relay (src/services/supabaseClient.ts) *)

Module Supabase.

Record RealtimeOptions : Type := mkRealtime { eventsPerSecond : N }.

(** What supabase-js offers here: the constructor, the URL it keeps on the
    client, and removeAllChannels. *)
Class Library : Type := {
  SupabaseClient : Type;
  createClient : string -> string -> option RealtimeOptions -> SupabaseClient;
  supabaseUrl : SupabaseClient -> string;
  removeAllChannels : SupabaseClient -> SupabaseClient
}.

Section Client.

Context {L : Library}.

(** The module variable and what the module asked of the library. *)
Record State : Type := mkState {
  supabaseInstance : option SupabaseClient;
  created : list (string * string * option RealtimeOptions);
  released : list SupabaseClient
}.

Definition initial : State := mkState None [] [].

(** getSupabase (lines 5-23) *)
Definition getSupabase (url key : string) (st : State) : SupabaseClient * State :=
  match supabaseInstance st with
  | None =>
      let opts := Some (mkRealtime 10) in
      let c := createClient url key opts in
      (c, mkState (Some c) (created st ++ [(url, key, opts)]) (released st))
  | Some c0 =>
      if negb (String.eqb (supabaseUrl c0) url) then
        let c := createClient url key None in
        (c, mkState (Some c) (created st ++ [(url, key, None)]) (released st))
      else (c0, st)
  end.

(** cleanupSupabase (lines 25-30) *)
Definition cleanupSupabase (st : State) : State :=
  match supabaseInstance st with
  | Some c => mkState None (created st) (released st ++ [removeAllChannels c])
  | None => st
  end.

(** The library keeps on the client the URL it was created with. *)
Definition keepsUrl : Prop :=
  forall u k o, supabaseUrl (createClient u k o) = u.

(** A sequence of calls, each with its URL and key. *)
Definition requests (rs : list (string * string)) (st : State) : State :=
  fold_left (fun acc r => snd (getSupabase (fst r) (snd r) acc)) rs st.

End Client.

(** A library whose client is the record of what it was created with. *)
Record Plain : Type := mkPlain {
  plainUrl : string;
  plainKey : string;
  plainOptions : option RealtimeOptions;
  plainChannels : list string
}.

Definition plain : Library := {|
  SupabaseClient := Plain;
  createClient := fun u k o => mkPlain u k o [];
  supabaseUrl := plainUrl;
  removeAllChannels := fun c => mkPlain (plainUrl c) (plainKey c) (plainOptions c) []
|}.

End Supabase.

(** ** The lobby (src/App.tsx) *)

Module App.

(** The query of the page URL as URLSearchParams sees it: the pairs in their
    order. *)
Definition Query : Type := list (string * string).

(** URLSearchParams.get: the value of the first pair of that name. *)
Fixpoint get (name : string) (q : Query) : option string :=
  match q with
  | [] => None
  | (k, v) :: rest => if String.eqb k name then Some v else get name rest
  end.

(** URLSearchParams.delete: every pair of that name goes. *)
Definition delete (name : string) (q : Query) : Query :=
  filter (fun kv => negb (String.eqb (fst kv) name)) q.

(** URLSearchParams.set: the first pair of that name takes the value and the
    others go; without such a pair one is appended. *)
Fixpoint set (name value : string) (q : Query) : Query :=
  match q with
  | [] => [(name, value)]
  | (k, v) :: rest =>
      if String.eqb k name then (name, value) :: delete name rest
      else (k, v) :: set name value rest
  end.

(** The state of App and the address bar. *)
Record State : Type := mkState {
  inRoom : bool;
  roomId : string;
  query : Query
}.

(** updateUrl (lines 35-43); an empty id is falsy. *)
Definition updateUrl (id : option string) (st : State) : State :=
  match id with
  | Some (String c r) =>
      mkState (inRoom st) (roomId st) (set "room" (String c r) (query st))
  | _ => mkState (inRoom st) (roomId st) (delete "room" (query st))
  end.

(** The effect run on load (lines 26-33). *)
Definition onLoad (st : State) : State :=
  match get "room" (query st) with
  | Some (String c r) => mkState true (String c r) (query st)
  | _ => st
  end.

(** handleCreateRoom (lines 45-50); [newId] is
    Math.random().toString(36).substring(2, 9). *)
Definition handleCreateRoom (newId : string) (st : State) : State :=
  updateUrl (Some newId) (mkState true newId (query st)).

(** handleJoinRoom (lines 52-58) *)
Definition handleJoinRoom (st : State) : State :=
  if isBlank (roomId st) then st
  else updateUrl (Some (roomId st)) (mkState true (roomId st) (query st)).

(** handleLeave (lines 60-64) *)
Definition handleLeave (st : State) : State :=
  updateUrl None (mkState false "" (query st)).

(** The page as a fresh load of the same address shows it. *)
Definition reload (st : State) : State :=
  onLoad (mkState false "" (query st)).

End App.
(** ** Comparison of identities *)

Lemma js_gt_irrefl (a : string) : js_gt a a = false.
Proof.
  unfold js_gt.
  assert (H : String.compare a a = Eq).
  { induction a as [|c a IH]; simpl; [reflexivity|].
    assert (Hc : Ascii.compare c c = Eq).
    { unfold Ascii.compare. apply N.compare_refl. }
    now rewrite Hc. }
  now rewrite H.
Qed.

Lemma js_gt_neq (a b : string) : js_gt a b = true -> String.eqb b a = false.
Proof.
  intros H. apply String.eqb_neq. intros ->.
  rewrite js_gt_irrefl in H. discriminate.
Qed.

Lemma js_gt_asym (a b : string) : js_gt a b = true -> js_gt b a = false.
Proof.
  unfold js_gt. rewrite (String.compare_antisym b a).
  destruct (String.compare a b); simpl; congruence.
Qed.

Lemma js_gt_total (a b : string) : a <> b -> js_gt a b = true \/ js_gt b a = true.
Proof.
  intros Hne. unfold js_gt. rewrite (String.compare_antisym b a).
  destruct (String.compare a b) eqn:Hc; simpl; auto.
  apply String.compare_eq_iff in Hc. congruence.
Qed.

Section SelfEcho.
Context {E : Engine}.

Lemma own_envelope (payload : SignalMessage) (s : Session) :
  senderId payload = myId (refs s) ->
  handleSignalMessage payload s = s.
Proof.
  intros H. unfold handleSignalMessage.
  now rewrite H, String.eqb_refl.
Qed.

(** C9. An inbound envelope whose senderId equals the local identity
    leaves the whole session as it was: refs, React state, timers, outbox,
    console and engine log are all unchanged, whatever the envelope
    carries. *)
Theorem self_echo_is_discarded (payload : SignalMessage) (s : Session) :
  senderId payload = myId (refs s) ->
  handleSignalMessage payload s = s.
Proof. exact (own_envelope payload s). Qed.
End SelfEcho.

Section ChatMessages.
Context {E : Engine}.

Lemma known_iff (m : Chat.ChatMessage) (prev : list Chat.ChatMessage) :
  existsb (fun x => String.eqb (Chat.id x) (Chat.id m)) prev = true
  <-> In (Chat.id m) (map Chat.id prev).
Proof.
  rewrite existsb_exists, in_map_iff. split.
  - intros [x [Hin Heq]]. apply String.eqb_eq in Heq. eauto.
  - intros [x [Heq Hin]]. exists x. split; [assumption|].
    now apply String.eqb_eq.
Qed.

Lemma appendUnlessKnown_known (m : Chat.ChatMessage) prev :
  In (Chat.id m) (map Chat.id prev) -> appendUnlessKnown m prev = prev.
Proof.
  intros H. apply known_iff in H. unfold appendUnlessKnown. now rewrite H.
Qed.

Lemma appendUnlessKnown_knows (m : Chat.ChatMessage) prev :
  In (Chat.id m) (map Chat.id (appendUnlessKnown m prev)).
Proof.
  unfold appendUnlessKnown.
  destruct (existsb _ prev) eqn:Hk.
  - now apply known_iff.
  - rewrite map_app, in_app_iff. right. simpl. auto.
Qed.

Lemma chat_branch (p : SignalMessage) (m : Chat.ChatMessage) (s : Session) :
  type p = chat -> chatMessage p = Some m ->
  senderId p <> myId (refs s) ->
  refs (handleSignalMessage p s) = refs s
  /\ messages (view (handleSignalMessage p s))
     = appendUnlessKnown m (messages (view s)).
Proof.
  intros Ht Hm Hne. unfold handleSignalMessage.
  apply String.eqb_neq in Hne. rewrite Hne, Ht, Hm.
  split; reflexivity.
Qed.

(** C10. For a chat envelope that carries a chatMessage: when the id of
    the message already occurs in the message list the list is left
    unchanged, and delivering the envelope twice yields the same message
    list as delivering it once. *)
Theorem chat_delivery_is_idempotent
  (p : SignalMessage) (m : Chat.ChatMessage) (s : Session) :
  type p = chat -> chatMessage p = Some m ->
  (In (Chat.id m) (map Chat.id (messages (view s))) ->
   messages (view (handleSignalMessage p s)) = messages (view s))
  /\ messages (view (handleSignalMessage p (handleSignalMessage p s)))
     = messages (view (handleSignalMessage p s)).
Proof.
  intros Ht Hm.
  destruct (String.eqb (senderId p) (myId (refs s))) eqn:Hid.
  - apply String.eqb_eq in Hid.
    rewrite !(own_envelope p s Hid). split; reflexivity.
  - apply String.eqb_neq in Hid.
    destruct (chat_branch p m s Ht Hm Hid) as [Hr Hms].
    assert (Hid' : senderId p <> myId (refs (handleSignalMessage p s)))
      by now rewrite Hr.
    destruct (chat_branch p m _ Ht Hm Hid') as [_ Hms'].
    split.
    + intros Hin. rewrite Hms. now apply appendUnlessKnown_known.
    + rewrite Hms', Hms. apply appendUnlessKnown_known, appendUnlessKnown_knows.
Qed.
End ChatMessages.

(** ** The engine calls, one at a time *)

Lemma with_peerConnection_same (r : Refs) :
  with_peerConnection (peerConnection r) r = r.
Proof. now destruct r. Qed.

Section EngineCalls.
Context {E : Engine}.

Lemma try_addTrack_frame (t : MediaStreamTrack) (s : Session) :
  peerConnection (refs s) <> None ->
  let s' := try_catch (pc_addTrack t)
              (consoleWrite error "Error adding initial tracks") s in
  peerConnection (refs s') <> None
  /\ refs s' = with_peerConnection (peerConnection (refs s')) (refs s)
  /\ view s' = view s
  /\ world s'
     = with_console (console (world s'))
         (with_engineLog
            (engineLog (world s) ++ [Called (instances (world s)) (AddTrack t)])
            (world s)).
Proof.
  intros Hpc. unfold try_catch, pc_addTrack, onEngine.
  destruct (peerConnection (refs s)) as [pc|] eqn:Hcur; [|congruence].
  destruct (addTrack t pc) as [pc'|]; cbn; repeat split; try congruence.
  symmetry. apply with_peerConnection_same.
Qed.

Lemma addTracks_frame (ts : list MediaStreamTrack) :
  forall s : Session,
    peerConnection (refs s) <> None ->
    let s' := addTracks ts s in
    peerConnection (refs s') <> None
    /\ refs s' = with_peerConnection (peerConnection (refs s')) (refs s)
    /\ view s' = view s
    /\ world s'
       = with_console (console (world s'))
           (with_engineLog
              (engineLog (world s)
               ++ map (fun t => Called (instances (world s)) (AddTrack t)) ts)
              (world s)).
Proof.
  induction ts as [|t ts IH]; intros s Hpc; cbn [addTracks map].
  - rewrite app_nil_r. repeat split; try assumption.
    + symmetry. apply with_peerConnection_same.
    + now destruct (world s).
  - destruct (peerConnection (refs s)) as [pc|] eqn:Hcur; [|congruence].
    assert (Hpc' : peerConnection (refs s) <> None) by congruence.
    destruct (try_addTrack_frame t s Hpc') as (H1 & H2 & H3 & H4).
    set (s1 := try_catch (pc_addTrack t)
                 (consoleWrite error "Error adding initial tracks") s) in *.
    destruct (IH s1 H1) as (J1 & J2 & J3 & J4).
    repeat split.
    + exact J1.
    + rewrite J2, H2. reflexivity.
    + congruence.
    + rewrite J4, H4. cbn. rewrite <- app_assoc. reflexivity.
Qed.

End EngineCalls.

(** ** Restarting *)

Section Restart.
Context {E : Engine}.

Lemma startAnnouncementLoop_summary (s : Session) :
  let s' := startAnnouncementLoop s in
  let h := nextHandle (world s) in
  refs s' = with_announceInterval (Some (Pos.succ h)) (refs s)
  /\ view s' = view s
  /\ world s'
     = with_nextHandle (Pos.succ (Pos.succ h))
         (with_timers
            (timers (world (clearIfSet (announceInterval (refs s)) s))
             ++ [mkTimer h 500 false InitialBroadcast;
                 mkTimer (Pos.succ h) 2000 true PeriodicBroadcast])
            (world s)).
Proof.
  unfold startAnnouncementLoop.
  destruct (announceInterval (refs s)); cbn; rewrite <- app_assoc;
    repeat split; reflexivity.
Qed.

Lemma rebuilt_summary (s : Session) :
  let s' := createPeerConnection
              (closeCurrent (consoleWrite log "Restarting connection..." s)) in
  let i := instances (world s) in
  refs s' = with_peerConnection (Some construct) (refs s)
  /\ view s' = view s
  /\ world s'
     = with_console (console (world s'))
         (with_instances (S i)
            (with_engineLog
               (engineLog (world s) ++ closing s ++ [Constructed (S i)])
               (world s))).
Proof.
  destruct s as [[me [pc|] ch ini ann neg q ls rv] v w];
    cbn; rewrite <- ?app_assoc; repeat split; reflexivity.
Qed.

Lemma attachLocalTracks_frame (s : Session) :
  peerConnection (refs s) <> None ->
  let s' := attachLocalTracks s in
  peerConnection (refs s') <> None
  /\ refs s' = with_peerConnection (peerConnection (refs s')) (refs s)
  /\ view s' = view s
  /\ world s'
     = with_console (console (world s'))
         (with_engineLog
            (engineLog (world s)
             ++ map (fun t => Called (instances (world s)) (AddTrack t))
                  (localTracks s))
            (world s)).
Proof.
  intros Hpc. unfold attachLocalTracks, localTracks.
  destruct (localStreamRef (refs s)) as [ts|].
  - destruct (peerConnection (refs s)) eqn:Hcur; [|congruence].
    apply addTracks_frame. congruence.
  - cbn. rewrite app_nil_r. repeat split; try assumption.
    + symmetry. apply with_peerConnection_same.
    + now destruct (world s).
Qed.

Lemma restart_summary (s : Session) :
  let s' := restartConnection s in
  let h := nextHandle (world s) in
  let i := instances (world s) in
  peerConnection (refs s') <> None
  /\ refs s'
     = with_announceInterval (Some (Pos.succ h))
         (with_peerConnection (peerConnection (refs s')) (refs s))
  /\ view s'
     = with_statusMessage "Retrying connection..."
         (with_status WaitingForPeer (view s))
  /\ timers (world s')
     = timers (world (clearIfSet (announceInterval (refs s)) s))
       ++ [mkTimer h 500 false InitialBroadcast;
           mkTimer (Pos.succ h) 2000 true PeriodicBroadcast]
  /\ nextHandle (world s') = Pos.succ (Pos.succ h)
  /\ outbox (world s') = outbox (world s)
  /\ instances (world s') = S i
  /\ engineLog (world s')
     = engineLog (world s) ++ closing s
       ++ Constructed (S i)
          :: map (fun t => Called (S i) (AddTrack t)) (localTracks s).
Proof.
  intros s' h i. subst s' h i. unfold restartConnection.
  destruct (rebuilt_summary s) as (R1 & R2 & R3).
  set (s3 := createPeerConnection _) in *.
  assert (Hpc : peerConnection (refs s3) <> None) by (rewrite R1; discriminate).
  destruct (attachLocalTracks_frame s3 Hpc) as (T1 & T2 & T3 & T4).
  set (s4 := attachLocalTracks s3) in *.
  destruct (startAnnouncementLoop_summary
              (setStatusMessage "Retrying connection..."
                 (setStatus WaitingForPeer s4))) as (A1 & A2 & A3).
  cbn [refs view world setStatusMessage setStatus on_view] in A1, A2, A3.
  assert (Hls : localTracks s3 = localTracks s)
    by (unfold localTracks; now rewrite R1).
  assert (Hann : announceInterval (refs s4) = announceInterval (refs s))
    by (rewrite T2, R1; reflexivity).
  assert (Htm : timers (world (clearIfSet (announceInterval (refs s4))
                  (setStatusMessage "Retrying connection..."
                     (setStatus WaitingForPeer s4))))
                = timers (world (clearIfSet (announceInterval (refs s)) s))).
  { rewrite Hann. unfold clearIfSet.
    destruct (announceInterval (refs s)); cbn; now rewrite T4, R3. }
  rewrite Hls in T4. rewrite Htm in A3.
  rewrite A1, A2, A3, T3, R2.
  assert (Hw : world s4
               = with_console (console (world s4))
                   (with_instances (S (instances (world s)))
                      (with_engineLog
                         (engineLog (world s) ++ closing s
                          ++ Constructed (S (instances (world s)))
                             :: map (fun t => Called (S (instances (world s)))
                                                (AddTrack t)) (localTracks s))
                         (world s)))).
  { rewrite T4 at 1. rewrite R3. cbn. now rewrite <- !app_assoc. }
  repeat split.
  - exact T1.
  - replace (nextHandle (world s4)) with (nextHandle (world s))
      by now rewrite Hw.
    cbn [peerConnection with_announceInterval].
    rewrite R1 in T2. cbn in T2.
    set (X := peerConnection (refs s4)) in *. now rewrite T2.
  - now rewrite Hw.
  - now rewrite Hw.
  - now rewrite Hw.
  - now rewrite Hw.
  - now rewrite Hw.
Qed.
End Restart.

(** ** The branches of the handler *)

Lemma signaling_eqb_eq (a b : RTCSignalingState) :
  signaling_eqb a b = true <-> a = b.
Proof. destruct a, b; cbn; split; congruence. Qed.

Lemma signaling_eqb_neq (a b : RTCSignalingState) :
  signaling_eqb a b = false <-> a <> b.
Proof. destruct a, b; cbn; split; congruence. Qed.

Lemma state_eqb_eq (a b : RTCPeerConnectionState) :
  state_eqb a b = true <-> a = b.
Proof. destruct a, b; cbn; split; congruence. Qed.

Lemma state_eqb_neq (a b : RTCPeerConnectionState) :
  state_eqb a b = false <-> a <> b.
Proof. destruct a, b; cbn; split; congruence. Qed.

Section Branches.
Context {E : Engine}.

(** An envelope of another peer that is no chat message reaches the try. *)
Lemma handle_signaling (p : SignalMessage) (s : Session) (pc : RTCPeerConnection) :
  senderId p <> myId (refs s) ->
  type p <> chat ->
  peerConnection (refs s) = Some pc ->
  handleSignalMessage p s = try_catch (signaling p) (signalingFailed p) s.
Proof.
  intros Hne Ht Hpc. unfold handleSignalMessage.
  apply String.eqb_neq in Hne. rewrite Hne, Hpc.
  destruct (type p); try reflexivity. congruence.
Qed.

Lemma try_addIceCandidate_summary (c : RTCIceCandidateInit) (msg : string)
  (s : Session) (pc : RTCPeerConnection) :
  peerConnection (refs s) = Some pc ->
  let s' := try_catch (pc_addIceCandidate c) (consoleWrite warn msg) s in
  refs s' = with_peerConnection (Some (applyCandidate pc c)) (refs s)
  /\ view s' = view s
  /\ world s'
     = with_console (console (world s'))
         (with_engineLog
            (engineLog (world s)
             ++ [Called (instances (world s)) (AddIceCandidate c)])
            (world s))
  /\ (addIceCandidate c pc = None ->
      s' = consoleWrite warn msg (recordCall (AddIceCandidate c) s)).
Proof.
  intros Hpc. unfold try_catch, pc_addIceCandidate, onEngine, applyCandidate.
  rewrite Hpc. destruct (addIceCandidate c pc) as [pc'|]; cbn.
  - repeat split; try reflexivity. discriminate.
  - repeat split; try reflexivity.
    rewrite <- Hpc. symmetry. apply with_peerConnection_same.
Qed.

Lemma drain_summary (q : list RTCIceCandidateInit) :
  forall (s : Session) (pc : RTCPeerConnection),
    iceCandidatesQueue (refs s) = q ->
    peerConnection (refs s) = Some pc ->
    let s' := drainQueue (List.length q) s in
    refs s'
    = with_iceCandidatesQueue []
        (with_peerConnection (Some (fold_left applyCandidate q pc)) (refs s))
    /\ view s' = view s
    /\ world s'
       = with_console (console (world s'))
           (with_engineLog
              (engineLog (world s)
               ++ map (fun c => Called (instances (world s)) (AddIceCandidate c)) q)
              (world s)).
Proof.
  induction q as [|c q IH]; intros s pc Hq Hpc; cbn [List.length drainQueue].
  - cbn. rewrite app_nil_r. repeat split.
    + rewrite <- Hpc, <- Hq. now destruct (refs s).
    + now destruct (world s).
  - rewrite Hq.
    set (s0 := on_refs (with_iceCandidatesQueue q) s).
    assert (Hpc0 : peerConnection (refs s0) = Some pc) by exact Hpc.
    destruct (try_addIceCandidate_summary c "Failed to add queued candidate"
                s0 pc Hpc0) as (A1 & A2 & A3 & _).
    set (s1 := try_catch _ _ s0) in *.
    assert (Hq1 : iceCandidatesQueue (refs s1) = q) by now rewrite A1.
    assert (Hpc1 : peerConnection (refs s1) = Some (applyCandidate pc c))
      by now rewrite A1.
    destruct (IH s1 _ Hq1 Hpc1) as (B1 & B2 & B3).
    repeat split.
    + rewrite B1, A1. reflexivity.
    + now rewrite B2, A2.
    + set (K := console (world (drainQueue (List.length q) s1))) in *.
      set (K1 := console (world s1)) in *.
      rewrite B3, A3. cbn. now rewrite <- app_assoc.
Qed.

End Branches.

(** ** The offer branch *)

Section OfferBranch.
Context {E : Engine}.

Lemma extends_refl (s : Session) : extends s s.
Proof. exists []. now rewrite app_nil_r. Qed.

Lemma extends_trans (a b c : Session) : extends a b -> extends b c -> extends a c.
Proof.
  intros [r1 H1] [r2 H2]. exists (r1 ++ r2). now rewrite H2, H1, app_assoc.
Qed.

Lemma restart_extends (s : Session) : extends s (restartConnection s).
Proof.
  destruct (restart_summary s) as (_ & _ & _ & _ & _ & _ & _ & H).
  eexists. exact H.
Qed.

Lemma restart_keeps_queue (s : Session) :
  iceCandidatesQueue (refs (restartConnection s)) = iceCandidatesQueue (refs s).
Proof.
  destruct (restart_summary s) as (_ & H & _). now rewrite H.
Qed.

Lemma offerPrefix_frame (s : Session) :
  refs (offerPrefix s) = with_announceInterval None (refs s)
  /\ engineLog (world (offerPrefix s)) = engineLog (world s)
  /\ instances (world (offerPrefix s)) = instances (world s)
  /\ outbox (world (offerPrefix s)) = outbox (world s).
Proof.
  destruct s as [[me pc ch ini [h|] neg q ls rv] v w]; cbn; repeat split.
Qed.

Lemma applyRemoteOffer_summary (p : SignalMessage) (s : Session)
  (pc : RTCPeerConnection) (d : RTCSessionDescriptionInit) :
  sdp p = Some d ->
  peerConnection (refs s) = Some pc ->
  let r := applyRemoteOffer p s in
  view (snd r) = view s
  /\ world (snd r)
     = with_engineLog
         (engineLog (world s)
          ++ map (Called (instances (world s))) (remoteOfferCalls d pc))
         (world s)
  /\ refs (snd r) = with_peerConnection (peerConnection (refs (snd r))) (refs s)
  /\ match remoteOfferAccepted d pc with
     | Some pc' => fst r = Normal tt /\ peerConnection (refs (snd r)) = Some pc'
     | None => fst r = Throw /\ peerConnection (refs (snd r)) <> None
     end.
Proof.
  intros Hd Hpc.
  unfold applyRemoteOffer, remoteOfferAccepted, remoteOfferCalls, bind, currentPC.
  rewrite Hpc, Hd.
  destruct (signaling_eqb (signalingState pc) stable); cbn [negb].
  - unfold pc_setRemoteDescription, onEngine. rewrite Hpc.
    destruct (setRemoteDescription d pc) as [pc'|]; cbn;
      repeat split; rewrite ?Hpc;
      first [ reflexivity | congruence
            | rewrite <- Hpc; symmetry; apply with_peerConnection_same ].
  - unfold pc_setLocalDescription, pc_setRemoteDescription, onEngine.
    rewrite Hpc.
    destruct (setLocalDescription rollback pc) as [pc1|]; cbn; rewrite ?Hpc.
    + destruct (setRemoteDescription d pc1) as [pc'|]; cbn;
        rewrite <- ?app_assoc; repeat split; first [ reflexivity | congruence ].
    + destruct (setRemoteDescription d pc) as [pc'|]; cbn;
        rewrite <- ?app_assoc; repeat split; rewrite ?Hpc;
        first [ reflexivity | congruence
              | rewrite <- Hpc; symmetry; apply with_peerConnection_same ].
Qed.

Lemma sendAnswer_frame (s : Session) :
  let r := sendAnswer s in
  iceCandidatesQueue (refs (snd r)) = iceCandidatesQueue (refs s)
  /\ instances (world (snd r)) = instances (world s)
  /\ extends s (snd r).
Proof.
  unfold sendAnswer, bind, pc_createAnswer, pc_setLocalDescription, onEngine,
    channelSend, extends.
  destruct (peerConnection (refs s)) as [pc|] eqn:Hpc; cbn.
  2:{ repeat split. exists []. now rewrite app_nil_r. }
  destruct (createAnswer pc) as [[d pc1]|]; cbn.
  2:{ repeat split. eexists. reflexivity. }
  destruct (setLocalDescription d pc1) as [pc2|]; cbn.
  2:{ repeat split. eexists. rewrite <- app_assoc. reflexivity. }
  destruct (channel (refs s)); cbn;
    repeat split; eexists; rewrite <- app_assoc; reflexivity.
Qed.

End OfferBranch.

Section OfferSummary.
Context {E : Engine}.

Lemma onOffer_steps (p : SignalMessage) (s : Session) :
  onOffer p s
  = (applyRemoteOffer p ;;
     exec (fun s => drainQueue (List.length (iceCandidatesQueue (refs s))) s) ;;
     sendAnswer) (offerPrefix s).
Proof. reflexivity. Qed.

Lemma signalingFailed_offer (p : SignalMessage) (s : Session) :
  type p = offer \/ type p = answer ->
  signalingFailed p s
  = restartConnection (consoleWrite error "Signaling error:" s).
Proof. unfold signalingFailed. now intros [-> | ->]. Qed.

Lemma offer_summary (p : SignalMessage) (s : Session)
  (pc : RTCPeerConnection) (d : RTCSessionDescriptionInit) :
  type p = offer ->
  sdp p = Some d ->
  senderId p <> myId (refs s) ->
  peerConnection (refs s) = Some pc ->
  let s' := handleSignalMessage p s in
  let i := instances (world s) in
  match remoteOfferAccepted d pc with
  | Some pc1 =>
      iceCandidatesQueue (refs s') = []
      /\ exists rest,
           engineLog (world s')
           = engineLog (world s)
             ++ map (Called i) (remoteOfferCalls d pc)
             ++ map (fun c => Called i (AddIceCandidate c))
                  (iceCandidatesQueue (refs s))
             ++ rest
  | None =>
      s' = restartConnection
             (consoleWrite error "Signaling error:"
                (snd (applyRemoteOffer p (offerPrefix s))))
      /\ iceCandidatesQueue (refs s') = iceCandidatesQueue (refs s)
      /\ exists rest,
           engineLog (world s')
           = engineLog (world s)
             ++ map (Called i) (remoteOfferCalls d pc) ++ rest
  end.
Proof.
  intros Ht Hd Hne Hpc s' i. subst i.
  assert (Hs' : s' = try_catch (onOffer p) (signalingFailed p) s).
  { subst s'. rewrite (handle_signaling p s pc Hne ltac:(congruence) Hpc).
    unfold try_catch, signaling. now rewrite Ht. }
  clearbody s'.
  unfold try_catch in Hs'. rewrite onOffer_steps in Hs'.
  destruct (offerPrefix_frame s) as (P1 & P2 & P3 & P4).
  assert (Hpc0 : peerConnection (refs (offerPrefix s)) = Some pc)
    by now rewrite P1.
  destruct (applyRemoteOffer_summary p (offerPrefix s) pc d Hd Hpc0)
    as (A1 & A2 & A3 & A4).
  unfold bind at 1 in Hs'.
  destruct (applyRemoteOffer p (offerPrefix s)) as [r1 s1] eqn:Hrun.
  cbn [fst snd] in *.
  destruct (remoteOfferAccepted d pc) as [pc1|].
  - destruct A4 as [-> Hpc1].
    change ((exec (fun s => drainQueue (List.length (iceCandidatesQueue (refs s))) s) ;;
             sendAnswer) s1)
      with (sendAnswer (drainQueue (List.length (iceCandidatesQueue (refs s1))) s1))
      in Hs'.
    assert (Hq1 : iceCandidatesQueue (refs s1) = iceCandidatesQueue (refs s))
      by (rewrite A3, P1; reflexivity).
    destruct (drain_summary _ s1 pc1 eq_refl Hpc1) as (D1 & D2 & D3).
    set (s2 := drainQueue _ s1) in *.
    destruct (sendAnswer_frame s2) as (T1 & T2 & [rest T3]).
    assert (Hlog2 : engineLog (world s2)
                    = engineLog (world s)
                      ++ map (Called (instances (world s))) (remoteOfferCalls d pc)
                      ++ map (fun c => Called (instances (world s)) (AddIceCandidate c))
                           (iceCandidatesQueue (refs s))).
    { rewrite D3, A2, Hq1. cbn. rewrite P2, P3. now rewrite <- app_assoc. }
    assert (Hq2 : iceCandidatesQueue (refs s2) = []) by now rewrite D1.
    destruct (sendAnswer s2) as [r3 s3]. cbn [fst snd] in *.
    destruct r3; subst s'.
    + split; [congruence|]. exists rest.
      rewrite T3, Hlog2, <- !app_assoc. reflexivity.
    + rewrite signalingFailed_offer by auto.
      split; [now rewrite restart_keeps_queue; cbn; congruence|].
      destruct (restart_extends (consoleWrite error "Signaling error:" s3))
        as [rest' R].
      exists (rest ++ rest'). rewrite R. cbn.
      rewrite T3, Hlog2, <- !app_assoc. reflexivity.
  - destruct A4 as [-> Hpc1]. subst s'.
    rewrite signalingFailed_offer by auto.
    split; [reflexivity|]. split.
    + rewrite restart_keeps_queue. cbn. rewrite A3, P1. reflexivity.
    + destruct (restart_extends (consoleWrite error "Signaling error:" s1))
        as [rest' R].
      exists rest'. rewrite R. cbn. rewrite A2. cbn. rewrite P2, P3.
      now rewrite <- app_assoc.
Qed.

End OfferSummary.

(** ** Offers: glare (C2) *)

Section Glare.
Context {E : Engine}.


End Glare.


(** Glare on the reference engine: the peer that had offered ends in the
    stable state with the remote offer and its own answer, and has sent the
    answer. *)
Example glare_resolved :
  let s := @handleSignalMessage Reference.engine
             (Sample.offerFrom "a9") Sample.offering in
  option_map signalingState (peerConnection (refs s)) = Some stable
  /\ option_map remoteDescription (peerConnection (refs s))
     = Some (Some Sample.remoteOffer)
  /\ map type (outbox (world s)) = [offer; answer].
Proof. cbv zeta. repeat split. Qed.

(** ** ICE candidates (C3) *)

Section IceCandidates.
Context {E : Engine}.

Lemma candidate_summary (p : SignalMessage) (c : RTCIceCandidateInit)
  (s : Session) (pc : RTCPeerConnection) :
  type p = ice_candidate ->
  candidate p = Some c ->
  senderId p <> myId (refs s) ->
  peerConnection (refs s) = Some pc ->
  handleSignalMessage p s
  = match remoteDescription pc with
    | Some _ =>
        try_catch (pc_addIceCandidate c)
          (consoleWrite warn "Error adding candidate") s
    | None => enqueue [c] s
    end.
Proof.
  intros Ht Hc Hne Hpc.
  rewrite (handle_signaling p s pc Hne ltac:(congruence) Hpc).
  unfold signaling. rewrite Ht. unfold onIceCandidate. rewrite Hc.
  unfold try_catch at 1, bind, currentPC. rewrite Hpc.
  now destruct (remoteDescription pc).
Qed.

Lemma enqueue_nil (s : Session) : enqueue [] s = s.
Proof.
  destruct s as [[me pc ch ini ann neg q ls rv] v w].
  unfold enqueue, on_refs. cbn. now rewrite app_nil_r.
Qed.

Lemma enqueue_enqueue (a b : list RTCIceCandidateInit) (s : Session) :
  enqueue b (enqueue a s) = enqueue (a ++ b) s.
Proof. unfold enqueue, on_refs. cbn. now rewrite app_assoc. Qed.

Lemma candidates_queue_up (ps : list SignalMessage) :
  forall (cs : list RTCIceCandidateInit) (s : Session) (pc : RTCPeerConnection),
    peerConnection (refs s) = Some pc ->
    remoteDescription pc = None ->
    Forall (fun p => type p = ice_candidate /\ senderId p <> myId (refs s)) ps ->
    map candidate ps = map Some cs ->
    deliver ps s = enqueue cs s.
Proof.
  unfold deliver.
  induction ps as [|p ps IH]; intros cs s pc Hpc Hrd Hall Hcs.
  - destruct cs; [|discriminate]. cbn. now rewrite enqueue_nil.
  - destruct cs as [|c cs]; [discriminate|].
    inversion Hall as [|? ? [Ht Hne] Hrest]; subst.
    cbn in Hcs. injection Hcs as Hc Hcs.
    cbn [fold_left].
    rewrite (candidate_summary p c s pc Ht Hc Hne Hpc), Hrd.
    rewrite (IH cs (enqueue [c] s) pc); try assumption.
    + now rewrite enqueue_enqueue.
Qed.

(** C3. For an IceCandidate envelope of another peer that carries a
    candidate: with a remote description set the candidate is handed to the
    engine at once and the queue is untouched, otherwise it is appended to
    the queue and nothing else changes; a sequence of such envelopes received
    without a remote description leaves the candidates queued in their
    order of arrival.  When an Offer is processed and the engine accepts the
    remote description, every queued candidate is handed to the engine, in
    the order of the queue, right after the description, whatever the engine
    answers to each of them, and the queue is empty afterwards; the drain
    itself leaves the engine as the candidates made it, one after the other,
    a rejected one changing nothing. *)
Theorem ice_candidates_applied_or_queued_in_order
  (s : Session) (pc : RTCPeerConnection) :
  peerConnection (refs s) = Some pc ->
  let i := instances (world s) in
  let q := iceCandidatesQueue (refs s) in
  (forall p c,
      type p = ice_candidate -> candidate p = Some c ->
      senderId p <> myId (refs s) ->
      let s' := handleSignalMessage p s in
      (remoteDescription pc <> None ->
         engineLog (world s')
         = engineLog (world s) ++ [Called i (AddIceCandidate c)]
         /\ peerConnection (refs s') = Some (applyCandidate pc c)
         /\ iceCandidatesQueue (refs s') = q)
      /\ (remoteDescription pc = None ->
            s' = enqueue [c] s
            /\ iceCandidatesQueue (refs s') = q ++ [c]))
  /\ (forall ps cs,
        remoteDescription pc = None ->
        Forall (fun p => type p = ice_candidate
                         /\ senderId p <> myId (refs s)) ps ->
        map candidate ps = map Some cs ->
        deliver ps s = enqueue cs s
        /\ iceCandidatesQueue (refs (deliver ps s)) = q ++ cs)
  /\ (forall p d pc1,
        type p = offer -> sdp p = Some d ->
        senderId p <> myId (refs s) ->
        remoteOfferAccepted d pc = Some pc1 ->
        let s' := handleSignalMessage p s in
        iceCandidatesQueue (refs s') = []
        /\ exists rest,
             engineLog (world s')
             = engineLog (world s)
               ++ map (Called i) (remoteOfferCalls d pc)
               ++ map (fun c => Called i (AddIceCandidate c)) q
               ++ rest)
  /\ (let s' := drainQueue (List.length q) s in
      iceCandidatesQueue (refs s') = []
      /\ peerConnection (refs s') = Some (fold_left applyCandidate q pc)
      /\ engineLog (world s')
         = engineLog (world s) ++ map (fun c => Called i (AddIceCandidate c)) q).
Proof.
  intros Hpc i q. subst i q. repeat split.
  - destruct (remoteDescription pc) eqn:Hrd; [|congruence].
    rewrite (candidate_summary p c s pc H H0 H1 Hpc), Hrd.
    destruct (try_addIceCandidate_summary c "Error adding candidate" s pc Hpc)
      as (_ & _ & A3 & _).
    now rewrite A3.
  - destruct (remoteDescription pc) eqn:Hrd; [|congruence].
    rewrite (candidate_summary p c s pc H H0 H1 Hpc), Hrd.
    destruct (try_addIceCandidate_summary c "Error adding candidate" s pc Hpc)
      as (A1 & _). now rewrite A1.
  - destruct (remoteDescription pc) eqn:Hrd; [|congruence].
    rewrite (candidate_summary p c s pc H H0 H1 Hpc), Hrd.
    destruct (try_addIceCandidate_summary c "Error adding candidate" s pc Hpc)
      as (A1 & _). now rewrite A1.
  - rewrite (candidate_summary p c s pc H H0 H1 Hpc). now rewrite H2.
  - rewrite (candidate_summary p c s pc H H0 H1 Hpc). now rewrite H2.
  - now apply (candidates_queue_up ps cs s pc).
  - now rewrite (candidates_queue_up ps cs s pc).
  - pose proof (offer_summary p s pc d H H0 H1 Hpc) as K.
    rewrite H2 in K. apply K.
  - pose proof (offer_summary p s pc d H H0 H1 Hpc) as K.
    rewrite H2 in K. apply K.
  - destruct (drain_summary _ s pc eq_refl Hpc) as (D1 & _). now rewrite D1.
  - destruct (drain_summary _ s pc eq_refl Hpc) as (D1 & _). now rewrite D1.
  - destruct (drain_summary _ s pc eq_refl Hpc) as (_ & _ & D3). now rewrite D3.
Qed.

End IceCandidates.

(** ** Failures (C6) *)

Section Failures.
Context {E : Engine}.

Lemma onAnswer_run (p : SignalMessage) (s : Session) (pc : RTCPeerConnection) :
  peerConnection (refs s) = Some pc ->
  onAnswer p s
  = if signaling_eqb (signalingState pc) have_local_offer then
      match sdp p with
      | None => (Throw, answerPrefix s)
      | Some d => pc_setRemoteDescription d (answerPrefix s)
      end
    else (Normal tt, answerPrefix s).
Proof.
  intros Hpc. unfold onAnswer, bind, exec, currentPC. cbn. rewrite Hpc.
  destruct (signaling_eqb _ _); [|reflexivity]. now destruct (sdp p).
Qed.

Lemma onEngine_frame {A : Type} (c : EngineCall)
  (f : RTCPeerConnection -> option (A * RTCPeerConnection)) (s : Session) :
  let r := onEngine c f s in
  instances (world (snd r)) = instances (world s)
  /\ (peerConnection (refs s) <> None -> peerConnection (refs (snd r)) <> None)
  /\ iceCandidatesQueue (refs (snd r)) = iceCandidatesQueue (refs s)
  /\ extends s (snd r).
Proof.
  unfold onEngine, extends.
  destruct (peerConnection (refs s)) as [pc|] eqn:Hpc; cbn.
  - destruct (f pc) as [[a pc']|]; cbn; rewrite ?Hpc;
      repeat split; try discriminate; eauto.
  - repeat split; try congruence. exists []. now rewrite app_nil_r.
Qed.

Lemma applyRemoteOffer_frame (p : SignalMessage) (s : Session) :
  peerConnection (refs s) <> None ->
  let r := applyRemoteOffer p s in
  instances (world (snd r)) = instances (world s)
  /\ peerConnection (refs (snd r)) <> None
  /\ extends s (snd r).
Proof.
  intros Hpc. unfold applyRemoteOffer, bind, currentPC.
  destruct (peerConnection (refs s)) as [pc|] eqn:Hcur; [|congruence].
  destruct (negb _).
  - destruct (onEngine_frame (SetLocalDescription rollback)
                (fun pc => unitResult (setLocalDescription rollback pc)) s)
      as (L1 & L2 & _ & L4).
    unfold pc_setLocalDescription.
    destruct (onEngine _ _ s) as [r1 s1]. cbn [fst snd] in *.
    destruct (sdp p) as [d|]; cbn [fst snd].
    + destruct (onEngine_frame (SetRemoteDescription d)
                  (fun pc => unitResult (setRemoteDescription d pc)) s1)
        as (M1 & M2 & _ & M4).
      unfold pc_setRemoteDescription.
      destruct (onEngine _ _ s1) as [r2 s2]. cbn [fst snd] in *.
      repeat split.
      * congruence.
      * apply M2, L2. congruence.
      * eapply extends_trans; eassumption.
    + repeat split; auto. apply L2. congruence.
  - destruct (sdp p) as [d|].
    + destruct (onEngine_frame (SetRemoteDescription d)
                  (fun pc => unitResult (setRemoteDescription d pc)) s)
        as (M1 & M2 & _ & M4).
      repeat split; auto. apply M2. congruence.
    + cbn. repeat split; try congruence. apply extends_refl.
Qed.

Lemma sendAnswer_keeps_engine (s : Session) :
  peerConnection (refs s) <> None ->
  peerConnection (refs (snd (sendAnswer s))) <> None.
Proof.
  intros Hpc. unfold sendAnswer, bind, pc_createAnswer, pc_setLocalDescription,
    onEngine, channelSend.
  destruct (peerConnection (refs s)) as [pc|] eqn:Hcur; [|congruence].
  destruct (createAnswer pc) as [[d pc1]|]; cbn; [|now rewrite Hcur].
  destruct (setLocalDescription d pc1) as [pc2|]; cbn; [|discriminate].
  destruct (channel (refs s)); cbn; discriminate.
Qed.

Lemma onOffer_cases (p : SignalMessage) (s : Session) :
  onOffer p s
  = match applyRemoteOffer p (offerPrefix s) with
    | (Normal _, s1) =>
        sendAnswer (drainQueue (List.length (iceCandidatesQueue (refs s1))) s1)
    | (Throw, s1) => (Throw, s1)
    end.
Proof.
  rewrite onOffer_steps. unfold bind at 1.
  now destruct (applyRemoteOffer p (offerPrefix s)) as [[u|] s1].
Qed.

Lemma negotiation_frame (p : SignalMessage) (s : Session) :
  type p = offer \/ type p = answer ->
  peerConnection (refs s) <> None ->
  let r := signaling p s in
  instances (world (snd r)) = instances (world s)
  /\ peerConnection (refs (snd r)) <> None
  /\ extends s (snd r).
Proof.
  intros Ht Hpc. unfold signaling.
  destruct (peerConnection (refs s)) as [pc|] eqn:Hcur; [clear Hpc|congruence].
  destruct Ht as [-> | ->].
  - rewrite onOffer_cases.
    destruct (offerPrefix_frame s) as (P1 & P2 & P3 & _).
    assert (Hpc0 : peerConnection (refs (offerPrefix s)) <> None)
      by (rewrite P1; cbn; congruence).
    destruct (applyRemoteOffer_frame p (offerPrefix s) Hpc0) as (A1 & A2 & A3).
    assert (Hex0 : extends s (offerPrefix s))
      by (exists []; now rewrite app_nil_r).
    destruct (applyRemoteOffer p (offerPrefix s)) as [[u|] s1];
      cbn [fst snd] in *.
    + destruct (peerConnection (refs s1)) as [pc1|] eqn:Hcur1; [|congruence].
      destruct (drain_summary _ s1 pc1 eq_refl Hcur1) as (D1 & D2 & D3).
      set (s2 := drainQueue _ s1) in *.
      assert (Hpc2 : peerConnection (refs s2) <> None)
        by (rewrite D1; discriminate).
      destruct (sendAnswer_frame s2) as (_ & T2 & T3).
      repeat split.
      * rewrite T2, D3. cbn. congruence.
      * now apply sendAnswer_keeps_engine.
      * eapply extends_trans; [exact Hex0|].
        eapply extends_trans; [exact A3|].
        eapply extends_trans; [|exact T3].
        eexists. rewrite D3. reflexivity.
    + repeat split; try congruence.
      eapply extends_trans; eassumption.
  - rewrite (onAnswer_run p s pc Hcur).
    assert (Hex0 : extends s (answerPrefix s))
      by (exists []; cbn; now rewrite app_nil_r).
    assert (Hpc0 : peerConnection (refs (answerPrefix s)) <> None)
      by (cbn; congruence).
    destruct (signaling_eqb _ _); [destruct (sdp p) as [d|]|].
    + destruct (onEngine_frame (SetRemoteDescription d)
                  (fun pc => unitResult (setRemoteDescription d pc))
                  (answerPrefix s)) as (M1 & M2 & _ & M4).
      repeat split; auto.
    + repeat split; assumption.
    + repeat split; assumption.
Qed.

End Failures.

Section FailurePolicy.
Context {E : Engine}.

Lemma restart_after (s s1 : Session) :
  instances (world s1) = instances (world s) ->
  closing s1 = closing s ->
  extends s s1 ->
  restarted s (restartConnection s1).
Proof.
  intros Hi Hc [pre Hpre].
  destruct (restart_summary s1) as (R1 & R2 & R3 & R4 & R5 & R6 & R7 & R8).
  unfold restarted. repeat split.
  - now rewrite R7, Hi.
  - exists pre. eexists. rewrite R8, Hpre, Hc, Hi, <- app_assoc. reflexivity.
  - exact R1.
  - now rewrite R3.
  - exists (Pos.succ (nextHandle (world s1))), (nextHandle (world s1)).
    repeat split.
    + now rewrite R2.
    + rewrite R4. apply in_or_app. right. cbn. auto.
    + rewrite R4. apply in_or_app. right. cbn. auto.
Qed.

Lemma closing_same (s s1 : Session) :
  instances (world s1) = instances (world s) ->
  peerConnection (refs s) <> None ->
  peerConnection (refs s1) <> None ->
  closing s1 = closing s.
Proof.
  intros Hi H0 H1. unfold closing. rewrite Hi.
  destruct (peerConnection (refs s)), (peerConnection (refs s1)); congruence.
Qed.

Lemma negotiation_failure_restarts (p : SignalMessage) (s : Session) :
  type p = offer \/ type p = answer ->
  senderId p <> myId (refs s) ->
  peerConnection (refs s) <> None ->
  fst (signaling p s) = Throw ->
  handleSignalMessage p s
  = restartConnection
      (consoleWrite error "Signaling error:" (snd (signaling p s)))
  /\ restarted s (handleSignalMessage p s).
Proof.
  intros Ht Hne Hpc Hthrow.
  destruct (peerConnection (refs s)) as [pc|] eqn:Hcur; [|congruence].
  assert (Hnc : type p <> chat) by (destruct Ht; congruence).
  rewrite (handle_signaling p s pc Hne Hnc Hcur).
  destruct (negotiation_frame p s Ht ltac:(congruence)) as (N1 & N2 & N3).
  unfold try_catch.
  destruct (signaling p s) as [r s1]. cbn [fst snd] in *. subst r.
  rewrite signalingFailed_offer by assumption.
  split; [reflexivity|].
  apply restart_after.
  - exact N1.
  - apply closing_same; cbn; congruence.
  - exact N3.
Qed.

(** The console under the calls that may fail. *)
Lemma try_addIceCandidate_console (c : RTCIceCandidateInit) (msg : string)
  (s : Session) (pc : RTCPeerConnection) :
  peerConnection (refs s) = Some pc ->
  console (world (try_catch (pc_addIceCandidate c) (consoleWrite warn msg) s))
  = console (world s)
    ++ match addIceCandidate c pc with
       | Some _ => []
       | None => [(warn, msg)]
       end.
Proof.
  intros Hpc. unfold try_catch, pc_addIceCandidate, onEngine. rewrite Hpc.
  destruct (addIceCandidate c pc); cbn; [now rewrite app_nil_r|reflexivity].
Qed.

Lemma drain_console (q : list RTCIceCandidateInit) :
  forall (s : Session) (pc : RTCPeerConnection),
    iceCandidatesQueue (refs s) = q ->
    peerConnection (refs s) = Some pc ->
    console (world (drainQueue (List.length q) s))
    = console (world s)
      ++ map (fun _ => (warn, "Failed to add queued candidate")) (rejected q pc).
Proof.
  induction q as [|c q IH]; intros s pc Hq Hpc;
    cbn [List.length drainQueue rejected map].
  - now rewrite app_nil_r.
  - rewrite Hq.
    set (s0 := on_refs (with_iceCandidatesQueue q) s).
    assert (Hpc0 : peerConnection (refs s0) = Some pc) by exact Hpc.
    destruct (try_addIceCandidate_summary c "Failed to add queued candidate"
                s0 pc Hpc0) as (A1 & _).
    pose proof (try_addIceCandidate_console c "Failed to add queued candidate"
                  s0 pc Hpc0) as K.
    set (s1 := try_catch _ _ s0) in *.
    assert (Hq1 : iceCandidatesQueue (refs s1) = q) by now rewrite A1.
    assert (Hpc1 : peerConnection (refs s1) = Some (applyCandidate pc c))
      by now rewrite A1.
    rewrite (IH s1 _ Hq1 Hpc1), K. unfold applyCandidate.
    destruct (addIceCandidate c pc); cbn [map]; rewrite <- app_assoc;
      reflexivity.
Qed.

Lemma addTracks_console (ts : list MediaStreamTrack) :
  forall s : Session,
    exists rest, console (world (addTracks ts s)) = console (world s) ++ rest.
Proof.
  induction ts as [|t ts IH]; intros s; cbn [addTracks].
  - exists []. now rewrite app_nil_r.
  - match goal with
    | |- context [addTracks ts ?x] => destruct (IH x) as [r Hr]; rewrite Hr
    end.
    destruct (peerConnection (refs s)) as [pc|] eqn:Hpc.
    + unfold try_catch, pc_addTrack, onEngine. rewrite Hpc.
      destruct (addTrack t pc); cbn.
      * exists r. reflexivity.
      * exists ((error, "Error adding initial tracks") :: r).
        now rewrite <- app_assoc.
    + exists r. reflexivity.
Qed.

Lemma restart_console (s : Session) :
  exists rest,
    console (world (restartConnection s))
    = console (world s) ++ (log, "Restarting connection...") :: rest.
Proof.
  unfold restartConnection.
  set (s3 := createPeerConnection _).
  assert (H3 : exists r3,
             console (world s3)
             = console (world s) ++ (log, "Restarting connection...") :: r3).
  { subst s3. destruct s as [[me [pc|] ch ini ann neg q ls rv] v w]; cbn;
      rewrite <- app_assoc; eexists; reflexivity. }
  set (s4 := attachLocalTracks s3).
  assert (H4 : exists r4, console (world s4) = console (world s3) ++ r4).
  { subst s4. unfold attachLocalTracks.
    destruct (localStreamRef (refs s3));
      [destruct (peerConnection (refs s3))|];
      try (exists []; now rewrite app_nil_r).
    apply addTracks_console. }
  destruct (startAnnouncementLoop_summary
              (setStatusMessage "Retrying connection..."
                 (setStatus WaitingForPeer s4))) as (_ & _ & A3).
  rewrite A3. cbn.
  destruct H3 as [r3 H3], H4 as [r4 H4]. exists (r3 ++ r4).
  rewrite H4, H3, <- app_assoc. reflexivity.
Qed.

(** C6. When the processing of an Offer or Answer envelope throws, the
    handler writes the error "Signaling error:" to the console and restarts
    the connection: the engine instance is closed, a new one is constructed,
    the status is Waiting for Peer and the announcement loop runs again.  A
    candidate that the engine rejects when it is applied directly is only
    logged: the console gains the warning "Error adding candidate" and
    nothing else of the session changes but the record of the call; no
    IceCandidate envelope ever constructs or closes an engine instance,
    touches a timer or changes the React state.  In the drain of the queue a
    rejected candidate is logged and the loop goes on with the rest of the
    queue: every queued candidate is handed to the engine, the console gains
    one warning "Failed to add queued candidate" for each candidate the
    engine rejected and nothing else, and the queue ends empty. *)
Theorem failure_policy (s : Session) (pc : RTCPeerConnection) :
  peerConnection (refs s) = Some pc ->
  let i := instances (world s) in
  (forall p,
      type p = offer \/ type p = answer ->
      senderId p <> myId (refs s) ->
      fst (signaling p s) = Throw ->
      handleSignalMessage p s
      = restartConnection
          (consoleWrite error "Signaling error:" (snd (signaling p s)))
      /\ restarted s (handleSignalMessage p s)
      /\ exists rest,
           console (world (handleSignalMessage p s))
           = console (world (snd (signaling p s)))
             ++ (error, "Signaling error:")
                :: (log, "Restarting connection...") :: rest)
  /\ (forall p c,
        type p = ice_candidate -> candidate p = Some c ->
        senderId p <> myId (refs s) ->
        remoteDescription pc <> None ->
        addIceCandidate c pc = None ->
        handleSignalMessage p s
        = consoleWrite warn "Error adding candidate"
            (recordCall (AddIceCandidate c) s)
        /\ console (world (handleSignalMessage p s))
           = console (world s) ++ [(warn, "Error adding candidate")]
        /\ refs (handleSignalMessage p s) = refs s)
  /\ (forall p,
        type p = ice_candidate ->
        senderId p <> myId (refs s) ->
        let s' := handleSignalMessage p s in
        instances (world s') = i
        /\ view s' = view s
        /\ timers (world s') = timers (world s)
        /\ exists calls,
             engineLog (world s') = engineLog (world s) ++ map (Called i) calls)
  /\ (forall c rest,
        iceCandidatesQueue (refs s) = c :: rest ->
        addIceCandidate c pc = None ->
        drainQueue (List.length (c :: rest)) s
        = drainQueue (List.length rest)
            (consoleWrite warn "Failed to add queued candidate"
               (recordCall (AddIceCandidate c)
                  (on_refs (with_iceCandidatesQueue rest) s))))
  /\ (let s' := drainQueue (List.length (iceCandidatesQueue (refs s))) s in
      instances (world s') = i
      /\ view s' = view s
      /\ timers (world s') = timers (world s)
      /\ iceCandidatesQueue (refs s') = []
      /\ engineLog (world s')
         = engineLog (world s)
           ++ map (fun c => Called i (AddIceCandidate c))
                (iceCandidatesQueue (refs s))
      /\ peerConnection (refs s')
         = Some (fold_left applyCandidate (iceCandidatesQueue (refs s)) pc)
      /\ console (world s')
         = console (world s)
           ++ map (fun _ => (warn, "Failed to add queued candidate"))
                (rejected (iceCandidatesQueue (refs s)) pc)).
Proof.
  intros Hpc i. subst i.
  split; [|split; [|split; [|split]]].
  - intros p Ht Hne Hthrow.
    destruct (negotiation_failure_restarts p s Ht Hne ltac:(congruence) Hthrow)
      as [Heq Hr].
    split; [exact Heq|]. split; [exact Hr|].
    rewrite Heq.
    destruct (restart_console
                (consoleWrite error "Signaling error:" (snd (signaling p s))))
      as [rest Hc].
    exists rest. rewrite Hc. cbn. now rewrite <- app_assoc.
  - intros p c Ht Hc Hne Hrd Hfail.
    assert (Heq : handleSignalMessage p s
                  = consoleWrite warn "Error adding candidate"
                      (recordCall (AddIceCandidate c) s)).
    { rewrite (candidate_summary p c s pc Ht Hc Hne Hpc).
      destruct (remoteDescription pc); [|congruence].
      now apply (try_addIceCandidate_summary c _ s pc Hpc). }
    split; [exact Heq|]. rewrite Heq. split; reflexivity.
  - intros p Ht Hne s'. subst s'.
    destruct (candidate p) as [c|] eqn:Hc.
    + rewrite (candidate_summary p c s pc Ht Hc Hne Hpc).
      destruct (remoteDescription pc).
      * destruct (try_addIceCandidate_summary c "Error adding candidate" s pc Hpc)
          as (_ & A2 & A3 & _).
        rewrite A3, A2. cbn. repeat split.
        exists [AddIceCandidate c]. reflexivity.
      * cbn. repeat split. exists []. cbn. now rewrite app_nil_r.
    + rewrite (handle_signaling p s pc Hne ltac:(congruence) Hpc).
      unfold signaling. rewrite Ht. unfold onIceCandidate. rewrite Hc. cbn.
      repeat split. exists []. cbn. now rewrite app_nil_r.
  - intros c rest Hq Hfail. cbn [List.length drainQueue]. rewrite Hq.
    f_equal.
    destruct (try_addIceCandidate_summary c "Failed to add queued candidate"
                (on_refs (with_iceCandidatesQueue rest) s) pc Hpc)
      as (_ & _ & _ & A4).
    exact (A4 Hfail).
  - destruct (drain_summary _ s pc eq_refl Hpc) as (D1 & D2 & D3).
    pose proof (drain_console _ s pc eq_refl Hpc) as D4.
    cbv zeta. rewrite D4. rewrite D1, D2, D3. cbn. repeat split.
Qed.

End FailurePolicy.

(** ** Answers (C5) *)

Section Answers.
Context {E : Engine}.

(** C5 (amended). For an Answer envelope of another peer: in the signalling
    state have-local-offer the remote description is handed to the engine
    (and becomes the engine's state when the engine accepts it); in every
    other signalling state the answer is not applied: no call is made on the
    engine, which stays as it was, descriptions included, the refs are
    untouched, nothing is sent and no timer changes.  It is not ignored in
    silence, though: lines 298-300 come before the guard, so the status
    becomes Negotiating with the message "Finalizing connection..." and
    "Received Answer" is written to the console, whatever the status was. *)
Theorem answer_applied_only_when_expected
  (p : SignalMessage) (s : Session) (pc : RTCPeerConnection)
  (d : RTCSessionDescriptionInit) :
  type p = answer ->
  sdp p = Some d ->
  senderId p <> myId (refs s) ->
  peerConnection (refs s) = Some pc ->
  let s' := handleSignalMessage p s in
  let i := instances (world s) in
  (signalingState pc = have_local_offer ->
     (exists rest,
        engineLog (world s')
        = engineLog (world s) ++ Called i (SetRemoteDescription d) :: rest)
     /\ forall pc',
          setRemoteDescription d pc = Some pc' ->
          s' = on_refs (with_peerConnection (Some pc'))
                 (recordCall (SetRemoteDescription d) (answerPrefix s)))
  /\ (signalingState pc <> have_local_offer ->
        s' = answerPrefix s
        /\ peerConnection (refs s') = Some pc
        /\ engineLog (world s') = engineLog (world s)
        /\ instances (world s') = i
        /\ outbox (world s') = outbox (world s)
        /\ timers (world s') = timers (world s)
        /\ refs s' = refs s
        /\ status (view s') = Negotiating
        /\ statusMessage (view s') = "Finalizing connection..."
        /\ console (world s') = console (world s) ++ [(log, "Received Answer")]).
Proof.
  intros Ht Hd Hne Hpc s' i.
  assert (Hs' : s' = try_catch (onAnswer p) (signalingFailed p) s).
  { subst s'. rewrite (handle_signaling p s pc Hne ltac:(congruence) Hpc).
    unfold signaling. now rewrite Ht. }
  clearbody s'. subst i.
  unfold try_catch in Hs'. rewrite (onAnswer_run p s pc Hpc), Hd in Hs'.
  split; intros Hsig.
  - apply signaling_eqb_eq in Hsig. rewrite Hsig in Hs'.
    unfold pc_setRemoteDescription, onEngine in Hs'.
    cbn [refs answerPrefix setStatusMessage setStatus consoleWrite on_view
         on_world] in Hs'.
    rewrite Hpc in Hs'.
    destruct (setRemoteDescription d pc) as [pc'|]; cbn [unitResult] in Hs'.
    + subst s'. split.
      * exists []. reflexivity.
      * intros pc'' [= <-]. reflexivity.
    + split; [|discriminate].
      rewrite signalingFailed_offer in Hs' by auto. subst s'.
      match goal with
      | |- context [restartConnection ?x] =>
          destruct (restart_extends x) as [rest R]
      end.
      exists rest. rewrite R. cbn. now rewrite <- app_assoc.
  - apply signaling_eqb_neq in Hsig. rewrite Hsig in Hs'. subst s'.
    cbn. repeat split. exact Hpc.
Qed.

End Answers.

Lemma answer_applied_only_when_expected_witness :
  signalingState Sample.offeringPC = have_local_offer
  /\ @handleSignalMessage Reference.engine (Sample.answerFrom "a9") Sample.offering
     = on_refs
         (with_peerConnection
            (Some (Reference.with_signaling stable
                     (localDescription Sample.offeringPC)
                     (Some Sample.remoteAnswer) Sample.offeringPC)))
         (@recordCall (SetRemoteDescription Sample.remoteAnswer)
            (@answerPrefix Sample.offering)).
Proof.
  assert (Hne : senderId (Sample.answerFrom "a9") <> myId (refs Sample.offering))
    by (vm_compute; discriminate).
  assert (Hpc : peerConnection (refs Sample.offering) = Some Sample.offeringPC)
    by (vm_compute; reflexivity).
  assert (Hok : @setRemoteDescription Reference.engine Sample.remoteAnswer
                  Sample.offeringPC
                = Some (Reference.with_signaling stable
                          (localDescription Sample.offeringPC)
                          (Some Sample.remoteAnswer) Sample.offeringPC))
    by (vm_compute; reflexivity).
  split; [reflexivity|].
  exact (proj2 (proj1 (answer_applied_only_when_expected (E := Reference.engine)
                         (Sample.answerFrom "a9") Sample.offering
                         Sample.offeringPC Sample.remoteAnswer
                         eq_refl eq_refl Hne Hpc) eq_refl)
           _ Hok).
Defined.

(** A stray answer: the peer that has answered is in the stable state. *)
Example stray_answer_not_applied :
  let s := @handleSignalMessage Reference.engine
             (Sample.answerFrom "b1") Sample.answered in
  peerConnection (refs s) = Some Sample.answeredPC
  /\ engineLog (world s) = engineLog (world Sample.answered)
  /\ status (view s) = Negotiating.
Proof. vm_compute. repeat split. Qed.

(** The answer of "a9" is delivered a second time when "b1" is connected:
    the signalling state is stable, the answer is not applied, and the
    status goes from Connected back to Negotiating. *)
Lemma answer_silently_ignored_counterexample :
  let s := Sample.connected in
  let s' := @handleSignalMessage Reference.engine (Sample.answerFrom "a9") s in
  option_map signalingState (peerConnection (refs s)) = Some stable
  /\ option_map connectionState (peerConnection (refs s)) = Some pcs_connected
  /\ status (view s) = Connected
  /\ statusMessage (view s) = "Securely connected"
  /\ peerConnection (refs s') = peerConnection (refs s)
  /\ status (view s') = Negotiating
  /\ statusMessage (view s') = "Finalizing connection..."
  /\ s' <> s.
Proof.
  vm_compute. repeat split. discriminate.
Qed.

(** ** The initiator path *)

Section Initiator.
Context {E : Engine}.

Lemma stopAnnouncing_frame (s : Session) :
  refs (stopAnnouncing s) = with_announceInterval None (refs s)
  /\ view (stopAnnouncing s) = view s
  /\ world (stopAnnouncing s)
     = with_timers (timers (world (clearIfSet (announceInterval (refs s)) s)))
         (world s).
Proof.
  destruct s as [[me pc ch ini [h|] neg q ls rv] v [tm nh ob co ins el]];
    cbn; repeat split.
Qed.

Lemma sendOffer_run (s : Session) (pc : RTCPeerConnection) :
  peerConnection (refs s) = Some pc ->
  let i := instances (world s) in
  let h := nextHandle (world s) in
  let r := sendOffer s in
  match offerProduced pc, channel (refs s) with
  | Some (d, pc3), Some _ =>
      fst r = Normal tt
      /\ refs (snd r)
         = with_negotiationTimeout (Some h)
             (with_peerConnection (Some pc3) (refs s))
      /\ view (snd r) = view s
      /\ world (snd r)
         = with_nextHandle (Pos.succ h)
             (with_timers
                (timers (world (clearIfSet (negotiationTimeout (refs s)) s))
                 ++ [mkTimer h 10000 false NegotiationTimedOut])
                (with_outbox (outbox (world s) ++ [offerEnvelope d s])
                   (with_engineLog
                      (engineLog (world s)
                       ++ [Called i (CreateDataChannel "keepalive");
                           Called i CreateOffer;
                           Called i (SetLocalDescription d)])
                      (world s))))
  | _, _ =>
      fst r = Throw
      /\ refs (snd r) = with_peerConnection (peerConnection (refs (snd r))) (refs s)
      /\ view (snd r) = view s
      /\ world (snd r)
         = with_engineLog (engineLog (world (snd r))) (world s)
      /\ exists rest,
           engineLog (world (snd r))
           = engineLog (world s) ++ Called i (CreateDataChannel "keepalive") :: rest
  end.
Proof.
  intros Hpc i h r. subst i h r.
  destruct s as [[me pc0 ch ini ann neg q ls rv] v [tm nh ob co ins el]].
  cbn in Hpc. subst pc0.
  unfold offerProduced, sendOffer, bind, exec, pc_createDataChannel,
    pc_createOffer, pc_setLocalDescription, onEngine, channelSend. cbn.
  destruct (createDataChannel "keepalive" pc) as [pc1|]; cbn.
  2:{ repeat split. eexists. reflexivity. }
  destruct (createOffer pc1) as [[d pc2]|]; cbn.
  2:{ repeat split. eexists. rewrite <- app_assoc. reflexivity. }
  destruct (setLocalDescription d pc2) as [pc3|]; cbn.
  2:{ repeat split. eexists. rewrite <- !app_assoc. reflexivity. }
  destruct ch as [c|]; cbn.
  2:{ repeat split. eexists. rewrite <- !app_assoc. reflexivity. }
  destruct neg as [h0|]; cbn; rewrite <- !app_assoc; repeat split.
Qed.

Lemma initiateConnection_run (s : Session) (pc : RTCPeerConnection) :
  peerConnection (refs s) = Some pc ->
  initiateConnection s
  = try_catch sendOffer (consoleWrite error "Error initiating connection")
      (initiatorPrefix s).
Proof.
  intros Hpc. unfold initiateConnection. now rewrite Hpc.
Qed.

Lemma initiatorPrefix_frame (s : Session) :
  refs (initiatorPrefix s)
  = with_isInitiator true (with_announceInterval None (refs s))
  /\ status (view (initiatorPrefix s)) = Negotiating
  /\ world (initiatorPrefix s)
     = with_timers (timers (world (clearIfSet (announceInterval (refs s)) s)))
         (world s).
Proof.
  destruct (stopAnnouncing_frame s) as (S1 & S2 & S3).
  unfold initiatorPrefix. cbn. now rewrite S1, S3.
Qed.

Lemma alreadyNegotiating_true (pc : RTCPeerConnection) :
  alreadyNegotiating pc = true <-> midNegotiation pc.
Proof.
  unfold alreadyNegotiating, midNegotiation.
  rewrite !andb_true_iff, !negb_true_iff, signaling_eqb_neq, !state_eqb_neq.
  tauto.
Qed.

Lemma alreadyNegotiating_false (pc : RTCPeerConnection) :
  alreadyNegotiating pc = false <-> ~ midNegotiation pc.
Proof.
  rewrite <- alreadyNegotiating_true.
  destruct (alreadyNegotiating pc); split; congruence.
Qed.

Lemma announce_run (p : SignalMessage) (s : Session) (pc : RTCPeerConnection) :
  type p = announce ->
  senderId p <> myId (refs s) ->
  peerConnection (refs s) = Some pc ->
  handleSignalMessage p s
  = if state_eqb (connectionState pc) pcs_connected then s
    else if js_gt (myId (refs s)) (senderId p) then
           if alreadyNegotiating pc then s
           else initiateConnection
                  (consoleWrite log
                     "Announcement received. I am Initiator. Calling peer..." s)
         else consoleWrite log
                "Announcement received. I am Follower. Waiting for offer..." s.
Proof.
  intros Ht Hne Hpc.
  rewrite (handle_signaling p s pc Hne ltac:(congruence) Hpc).
  unfold signaling. rewrite Ht.
  unfold try_catch, onAnnounce, bind, currentPC. rewrite Hpc.
  destruct (state_eqb _ _); [reflexivity|].
  destruct (js_gt _ _); [|reflexivity].
  now destruct (alreadyNegotiating pc).
Qed.

Lemma follower_silent (p : SignalMessage) (s : Session) :
  type p = announce ->
  js_gt (senderId p) (myId (refs s)) = true ->
  let s' := handleSignalMessage p s in
  (s' = s
   \/ s' = consoleWrite log
             "Announcement received. I am Follower. Waiting for offer..." s)
  /\ refs s' = refs s
  /\ view s' = view s
  /\ world s' = with_console (console (world s')) (world s).
Proof.
  intros Ht Hgt s'. subst s'.
  assert (Hne : senderId p <> myId (refs s)).
  { intros Heq. rewrite Heq, js_gt_irrefl in Hgt. discriminate. }
  assert (Hw : world s = with_console (console (world s)) (world s))
    by now destruct (world s).
  destruct (peerConnection (refs s)) as [pc|] eqn:Hpc.
  - rewrite (announce_run p s pc Ht Hne Hpc), (js_gt_asym _ _ Hgt).
    destruct (state_eqb _ _); cbn; repeat split; auto.
  - unfold handleSignalMessage. apply String.eqb_neq in Hne.
    rewrite Hne, Ht, Hpc. repeat split; auto.
Qed.

Lemma followers_silent (ps : list SignalMessage) :
  forall s : Session,
    Forall (fun p => type p = announce
                     /\ js_gt (senderId p) (myId (refs s)) = true) ps ->
    refs (deliver ps s) = refs s
    /\ view (deliver ps s) = view s
    /\ world (deliver ps s)
       = with_console (console (world (deliver ps s))) (world s).
Proof.
  unfold deliver.
  induction ps as [|p ps IH]; intros s Hall; cbn [fold_left].
  - repeat split. now destruct (world s).
  - inversion Hall as [|? ? [Ht Hgt] Hrest]; subst.
    destruct (follower_silent p s Ht Hgt) as (_ & F1 & F2 & F3).
    destruct (IH (handleSignalMessage p s)) as (I1 & I2 & I3).
    { now rewrite F1. }
    repeat split.
    + now rewrite I1.
    + now rewrite I2.
    + set (K := console (world (fold_left _ ps (handleSignalMessage p s)))) in *.
      rewrite I3, F3. reflexivity.
Qed.

End Initiator.

Section InitiateSummary.
Context {E : Engine}.

Lemma initiate_summary (s : Session) (pc : RTCPeerConnection) :
  peerConnection (refs s) = Some pc ->
  let s' := initiateConnection s in
  let i := instances (world s) in
  let h := nextHandle (world s) in
  isInitiator (refs s') = true
  /\ announceInterval (refs s') = None
  /\ status (view s') = Negotiating
  /\ instances (world s') = i
  /\ (exists rest,
        engineLog (world s')
        = engineLog (world s) ++ Called i (CreateDataChannel "keepalive") :: rest)
  /\ match offerProduced pc, channel (refs s) with
     | Some (d, pc3), Some _ =>
         outbox (world s') = outbox (world s) ++ [offerEnvelope d s]
         /\ peerConnection (refs s') = Some pc3
         /\ negotiationTimeout (refs s') = Some h
         /\ nextHandle (world s') = Pos.succ h
         /\ timers (world s')
            = timers (world (clearIfSet (negotiationTimeout (refs s))
                               (stopAnnouncing s)))
              ++ [mkTimer h 10000 false NegotiationTimedOut]
     | _, _ =>
         outbox (world s') = outbox (world s)
         /\ negotiationTimeout (refs s') = negotiationTimeout (refs s)
         /\ timers (world s') = timers (world (stopAnnouncing s))
     end.
Proof.
  intros Hpc s' i h. subst s' i h.
  rewrite (initiateConnection_run s pc Hpc).
  destruct (initiatorPrefix_frame s) as (P1 & P2 & P3).
  destruct (stopAnnouncing_frame s) as (S1 & S2 & S3).
  assert (Hpc0 : peerConnection (refs (initiatorPrefix s)) = Some pc)
    by now rewrite P1.
  pose proof (sendOffer_run (initiatorPrefix s) pc Hpc0) as R.
  cbv zeta in R. unfold try_catch.
  assert (Hch : channel (refs (initiatorPrefix s)) = channel (refs s))
    by now rewrite P1.
  assert (Hneg : negotiationTimeout (refs (initiatorPrefix s))
                 = negotiationTimeout (refs s)) by now rewrite P1.
  rewrite Hch in R.
  destruct (sendOffer (initiatorPrefix s)) as [r s1]. cbn [fst snd] in R.
  destruct (offerProduced pc) as [[d pc3]|]; [destruct (channel (refs s))|].
  - destruct R as (-> & R1 & R2 & R3).
    rewrite R1, R2, R3, P1, P2, P3. cbn.
    repeat split.
    + eexists. reflexivity.
    + unfold offerEnvelope. now rewrite P1.
    + f_equal. unfold clearIfSet.
      destruct (negotiationTimeout (refs s)); reflexivity.
  - destruct R as (-> & R1 & R2 & R3 & rest & R4). cbn.
    rewrite R1, R2, R3, P1, P2, P3, R4. cbn.
    repeat split.
    + rewrite S3. cbn. eexists. reflexivity.
    + now rewrite S3.
  - destruct R as (-> & R1 & R2 & R3 & rest & R4). cbn.
    rewrite R1, R2, R3, P1, P2, P3, R4. cbn.
    repeat split.
    + rewrite S3. cbn. eexists. reflexivity.
    + now rewrite S3.
Qed.

End InitiateSummary.

(** ** Election of the initiator (C1) *)

Section Election.
Context {E : Engine}.

(** C1. An Announce envelope of a peer P, processed while the engine is not
    connected.  When the local identity is greater than P's: if the engine
    is in the middle of a negotiation (signalling state not stable, engine
    neither failed nor disconnected) the announcement is ignored and the
    session is unchanged; otherwise the local process runs the initiator
    path, isInitiator becomes true, the engine is asked for the keep-alive
    channel, and an Offer envelope with the local identity is sent as soon
    as the engine produces the offer.  When the local identity is smaller
    than P's the process is follower: nothing is sent, the engine is not
    called, no timer changes.  Hence, however many announcements of a
    greater identity are delivered, the smaller side never sends an Offer
    and never becomes initiator. *)
Theorem initiator_election (s : Session) :
  let me := myId (refs s) in
  (forall p pc,
      type p = announce ->
      peerConnection (refs s) = Some pc ->
      connectionState pc <> pcs_connected ->
      js_gt me (senderId p) = true ->
      let s' := handleSignalMessage p s in
      (midNegotiation pc -> s' = s)
      /\ (~ midNegotiation pc ->
            s' = initiateConnection
                   (consoleWrite log
                      "Announcement received. I am Initiator. Calling peer..." s)
            /\ isInitiator (refs s') = true
            /\ (exists rest,
                  engineLog (world s')
                  = engineLog (world s)
                    ++ Called (instances (world s)) (CreateDataChannel "keepalive")
                       :: rest)
            /\ forall d pc3,
                 offerProduced pc = Some (d, pc3) ->
                 channel (refs s) <> None ->
                 outbox (world s')
                 = outbox (world s) ++ [mkSignal offer (Some d) None me None]))
  /\ (forall p,
        type p = announce ->
        js_gt (senderId p) me = true ->
        let s' := handleSignalMessage p s in
        refs s' = refs s
        /\ view s' = view s
        /\ outbox (world s') = outbox (world s)
        /\ engineLog (world s') = engineLog (world s)
        /\ timers (world s') = timers (world s))
  /\ (forall ps,
        Forall (fun p => type p = announce /\ js_gt (senderId p) me = true) ps ->
        let s' := deliver ps s in
        isInitiator (refs s') = isInitiator (refs s)
        /\ outbox (world s') = outbox (world s)
        /\ engineLog (world s') = engineLog (world s)).
Proof.
  intros me. subst me. split; [|split].
  - intros p pc Ht Hpc Hconn Hgt s'. subst s'.
    assert (Hne : senderId p <> myId (refs s)).
    { intros Heq. rewrite Heq, js_gt_irrefl in Hgt. discriminate. }
    apply state_eqb_neq in Hconn.
    rewrite (announce_run p s pc Ht Hne Hpc), Hconn, Hgt.
    split.
    + intros Hmid. apply alreadyNegotiating_true in Hmid. now rewrite Hmid.
    + intros Hmid. apply alreadyNegotiating_false in Hmid. rewrite Hmid.
      set (x := consoleWrite log
                  "Announcement received. I am Initiator. Calling peer..." s).
      assert (Hx : peerConnection (refs x) = Some pc) by exact Hpc.
      destruct (initiate_summary x pc Hx) as (I1 & _ & _ & _ & I5 & I6).
      repeat split; try assumption.
      intros d pc3 Hoff Hch.
      rewrite Hoff in I6.
      change (channel (refs x)) with (channel (refs s)) in I6.
      destruct (channel (refs s)); [|congruence].
      apply I6.
  - intros p Ht Hgt s'. subst s'.
    destruct (follower_silent p s Ht Hgt) as (_ & F1 & F2 & F3).
    rewrite F1, F2, F3. repeat split.
  - intros ps Hall s'. subst s'.
    destruct (followers_silent ps s Hall) as (F1 & F2 & F3).
    rewrite F1, F3. repeat split.
Qed.

End Election.

(** Scenario 1: "b1" and "a9" hear each other's announcement. *)
Lemma initiator_election_witness :
  js_gt "b1" "a9" = true
  /\ map type (outbox (world (@handleSignalMessage Reference.engine
                                (Sample.announceFrom "a9") (Sample.waiting "b1"))))
     = [offer]
  /\ outbox (world (@deliver Reference.engine
                      [Sample.announceFrom "b1"; Sample.announceFrom "b1"]
                      (Sample.waiting "a9")))
     = [].
Proof.
  split; [reflexivity|].
  pose proof (initiator_election (E := Reference.engine) (Sample.waiting "b1"))
    as (A & _).
  pose proof (initiator_election (E := Reference.engine) (Sample.waiting "a9"))
    as (_ & _ & B).
  split.
  - assert (Hmid : ~ midNegotiation Reference.newPC)
      by (intros [H _]; now apply H).
    assert (Hconn : connectionState Reference.newPC <> pcs_connected)
      by discriminate.
    destruct (proj2 (A (Sample.announceFrom "a9") Reference.newPC
                       eq_refl eq_refl Hconn eq_refl) Hmid)
      as (_ & _ & _ & H).
    assert (Hch : channel (refs (Sample.waiting "b1")) <> None) by discriminate.
    rewrite (H _ _ eq_refl Hch). reflexivity.
  - assert (Hall : Forall (fun p => type p = announce
                                    /\ js_gt (senderId p)
                                         (myId (refs (Sample.waiting "a9"))) = true)
                     [Sample.announceFrom "b1"; Sample.announceFrom "b1"])
      by (repeat constructor).
    destruct (B _ Hall) as (_ & H & _). rewrite H. reflexivity.
Defined.

(** ** Timers *)

Lemma find_none_intro {A : Type} (f : A -> bool) (l : list A) :
  (forall x, In x l -> f x = false) -> find f l = None.
Proof.
  induction l as [|a l IH]; intros H; cbn; [reflexivity|].
  rewrite (H a) by (cbn; auto). apply IH. intros x Hx. apply H. cbn. auto.
Qed.

Lemma find_app_last {A : Type} (f : A -> bool) (l : list A) (x : A) :
  (forall y, In y l -> f y = false) -> find f (l ++ [x]) = find f [x].
Proof.
  induction l as [|a l IH]; intros H; [reflexivity|].
  cbn [app find]. rewrite (H a) by (cbn; auto).
  apply IH. intros y Hy. apply H. cbn. auto.
Qed.

Section Timers.
Context {E : Engine}.

Lemma pending_cleared (h : positive) (s : Session) :
  pending h (clearTimer h s) = None.
Proof.
  unfold pending, clearTimer. cbn. apply find_none_intro.
  intros t Ht. apply filter_In in Ht. destruct Ht as [_ Ht].
  now apply negb_true_iff in Ht.
Qed.

Lemma pending_none_cleared (h h' : positive) (s : Session) :
  pending h s = None -> pending h (clearTimer h' s) = None.
Proof.
  unfold pending, clearTimer. cbn. intros H. apply find_none_intro.
  intros t Ht. apply filter_In in Ht. destruct Ht as [Ht _].
  exact (find_none _ _ H t Ht).
Qed.

Lemma pending_none_clearIfSet (h : positive) (o : option positive) (s : Session) :
  pending h s = None -> pending h (clearIfSet o s) = None.
Proof.
  destruct o; cbn; [apply pending_none_cleared|auto].
Qed.

Lemma issued_not_pending (s : Session) :
  handlesIssued s -> pending (nextHandle (world s)) s = None.
Proof.
  intros (H & _). unfold pending. apply find_none_intro.
  intros t Ht. apply Pos.eqb_neq. specialize (H t Ht). unfold issued in H.
  lia.
Qed.

Lemma pending_armed (l : list Timer) (t : Timer) (s s' : Session) :
  timers (world s') = l ++ [t] ->
  (forall x, In x l -> handle x <> handle t) ->
  pending (handle t) s' = Some t.
Proof.
  intros Htm Hfresh. unfold pending. rewrite Htm, find_app_last.
  - cbn. now rewrite Pos.eqb_refl.
  - intros y Hy. apply Pos.eqb_neq. now apply Hfresh.
Qed.

Lemma clearIfSet_timers (o : option positive) (s : Session) (t : Timer) :
  In t (timers (world (clearIfSet o s))) ->
  In t (timers (world s)) /\ (forall h, o = Some h -> handle t <> h).
Proof.
  destruct o as [h|]; cbn.
  - intros Ht. apply filter_In in Ht. destruct Ht as [Hin Hne].
    split; [assumption|]. intros h' [= <-].
    apply negb_true_iff in Hne. now apply Pos.eqb_neq.
  - intros Ht. split; [assumption|discriminate].
Qed.

Lemma stopAnnouncing_timers (s : Session) (t : Timer) :
  In t (timers (world (stopAnnouncing s))) -> In t (timers (world s)).
Proof.
  destruct (stopAnnouncing_frame s) as (_ & _ & S3). rewrite S3. cbn.
  intros Ht. now apply clearIfSet_timers in Ht.
Qed.

End Timers.

(** ** The negotiation timer (C7) *)

Section NegotiationTimer.
Context {E : Engine}.

Lemma negotiationTimedOut_run (s : Session) (pc : RTCPeerConnection) :
  peerConnection (refs s) = Some pc ->
  negotiationTimedOut s
  = if state_eqb (connectionState pc) pcs_connected
       || ice_eqb (iceConnectionState pc) ice_connected
    then s
    else restartConnection
           (consoleWrite log "Negotiation timed out. Retrying..." s).
Proof.
  intros Hpc. unfold negotiationTimedOut. rewrite Hpc. cbn.
  destruct (connectionState pc), (iceConnectionState pc); reflexivity.
Qed.

(** C7 (amended). When the initiator path sends its Offer it arms a
    negotiation timer: a timeout (not an interval) of 10000 ms whose handle
    is stored in negotiationTimeout, a timer armed before being cancelled.
    When that timer fires while neither the connection state nor the ICE
    connection state of the engine is connected (the test of line 364), the
    connection is restarted: the engine instance is closed and a new one
    constructed, the status is Waiting for Peer and the announcement loop
    runs again; the timer itself is consumed.  When either of the two states
    is connected, the firing consumes the timer and does nothing else: an
    engine whose connection state is not connected is left alone as soon as
    its ICE connection state is. *)
Theorem negotiation_timer (s : Session) (pc : RTCPeerConnection) :
  peerConnection (refs s) = Some pc ->
  handlesIssued s ->
  (forall d pc3,
      offerProduced pc = Some (d, pc3) ->
      channel (refs s) <> None ->
      let s' := initiateConnection s in
      let h := nextHandle (world s) in
      outbox (world s') = outbox (world s) ++ [offerEnvelope d s]
      /\ negotiationTimeout (refs s') = Some h
      /\ pending h s' = Some (mkTimer h 10000 false NegotiationTimedOut)
      /\ (forall h0,
            negotiationTimeout (refs s) = Some h0 ->
            h0 <> h /\ pending h0 s' = None))
  /\ (forall h t,
        pending h s = Some t ->
        callback t = NegotiationTimedOut ->
        repeats t = false ->
        (connectionState pc <> pcs_connected ->
         iceConnectionState pc <> ice_connected ->
         fireTimer h s
         = restartConnection
             (consoleWrite log "Negotiation timed out. Retrying..."
                (clearTimer h s))
         /\ restarted s (fireTimer h s)
         /\ pending h (fireTimer h s) = None)
        /\ (connectionState pc = pcs_connected
            \/ iceConnectionState pc = ice_connected ->
            fireTimer h s = clearTimer h s)).
Proof.
  intros Hpc Hissued. split.
  - intros d pc3 Hoff Hch s' h. subst s' h.
    destruct (initiate_summary s pc Hpc) as (_ & _ & _ & _ & _ & I6).
    rewrite Hoff in I6. destruct (channel (refs s)); [|congruence].
    destruct I6 as (O1 & O2 & O3 & O4 & O5).
    assert (Hold : forall x,
               In x (timers (world (clearIfSet (negotiationTimeout (refs s))
                                      (stopAnnouncing s)))) ->
               In x (timers (world s))
               /\ forall h0, negotiationTimeout (refs s) = Some h0 ->
                             handle x <> h0).
    { intros x Hx. apply clearIfSet_timers in Hx. destruct Hx as [Hx Hne].
      split; [now apply stopAnnouncing_timers|].
      intros h0 Hh0. now apply Hne. }
    destruct Hissued as (Htm & _ & Hneg).
    repeat split; try assumption.
    + apply (pending_armed _ (mkTimer (nextHandle (world s)) 10000 false
                                NegotiationTimedOut) s _ O5).
      intros x Hx. cbn. apply Hold in Hx. destruct Hx as [Hx _].
      specialize (Htm x Hx). unfold issued in Htm. lia.
    + specialize (Hneg h0 H). unfold issued in Hneg. lia.
    + unfold pending. rewrite O5. apply find_none_intro.
      intros x Hx. apply Pos.eqb_neq. apply in_app_or in Hx.
      destruct Hx as [Hx | [<- | []]].
      * apply Hold in Hx. now apply Hx.
      * cbn. specialize (Hneg h0 H). unfold issued in Hneg. lia.
  - intros h t Hp Hcb Hrep.
    assert (Hfire : fireTimer h s = negotiationTimedOut (clearTimer h s)).
    { unfold fireTimer. now rewrite Hp, Hcb, Hrep. }
    assert (Hpc' : peerConnection (refs (clearTimer h s)) = Some pc)
      by exact Hpc.
    rewrite Hfire, (negotiationTimedOut_run _ pc Hpc').
    split.
    + intros Hc Hi.
      apply state_eqb_neq in Hc. rewrite Hc.
      assert (Hi' : ice_eqb (iceConnectionState pc) ice_connected = false)
        by (destruct (iceConnectionState pc); cbn; congruence).
      rewrite Hi'. cbn [orb]. split; [reflexivity|]. split.
      * apply restart_after.
        -- reflexivity.
        -- unfold closing. cbn. reflexivity.
        -- exists []. cbn. now rewrite app_nil_r.
      * match goal with
        | |- pending h (restartConnection ?x) = None =>
            destruct (restart_summary x) as (_ & R2 & _ & R4 & _);
            assert (Hx : pending h x = None)
              by (apply (pending_cleared h s))
        end.
        unfold pending. rewrite R4. apply find_none_intro.
        intros y Hy. apply in_app_or in Hy. destruct Hy as [Hy|Hy].
        -- apply clearIfSet_timers in Hy. destruct Hy as [Hy _].
           exact (find_none _ _ Hx y Hy).
        -- assert (Hlt : (h < nextHandle (world s))%positive).
           { destruct Hissued as (Htm & _).
             apply find_some in Hp. destruct Hp as [Hin Heq].
             apply Pos.eqb_eq in Heq. rewrite <- Heq. exact (Htm t Hin). }
           apply Pos.eqb_neq. cbn in Hy.
           destruct Hy as [<- | [<- | []]]; cbn; lia.
    + intros [Hc | Hi].
      * apply state_eqb_eq in Hc. now rewrite Hc.
      * rewrite Hi. cbn. now rewrite orb_true_r.
Qed.

End NegotiationTimer.

(** ** Connection-state changes (C8) *)

Section ConnectionState.
Context {E : Engine}.

Lemma clearIfSet_refs (o : option positive) (s : Session) :
  refs (clearIfSet o s) = refs s.
Proof. now destruct o. Qed.

Lemma clearIfSet_view (o : option positive) (s : Session) :
  view (clearIfSet o s) = view s.
Proof. now destruct o. Qed.

Lemma clearIfSet_engineLog (o : option positive) (s : Session) :
  engineLog (world (clearIfSet o s)) = engineLog (world s).
Proof. now destruct o. Qed.

(** C8. After the engine changed its connection state: to disconnected,
    only the status (with its message and the peerConnected flag) and the
    console change, no timer is armed and the engine is not touched; to
    failed, the status is Failed and one timeout of 2000 ms is armed whose
    firing restarts the connection, the engine being untouched until then;
    to connected, the status is Connected and neither the announcement
    interval nor the negotiation timer stays pending. *)
Theorem connection_state_changes (s : Session) (pc : RTCPeerConnection) :
  peerConnection (refs s) = Some pc ->
  (let s' := connectionStateChanged pcs_disconnected s in
   status (view s') = Disconnected
   /\ refs s'
      = with_peerConnection (Some (with_connectionState pcs_disconnected pc))
          (refs s)
   /\ world s' = with_console (console (world s')) (world s))
  /\ (let s' := connectionStateChanged pcs_failed s in
      let h := nextHandle (world s) in
      status (view s') = Failed
      /\ refs s'
         = with_peerConnection (Some (with_connectionState pcs_failed pc))
             (refs s)
      /\ engineLog (world s') = engineLog (world s)
      /\ instances (world s') = instances (world s)
      /\ outbox (world s') = outbox (world s)
      /\ timers (world s')
         = timers (world s) ++ [mkTimer h 2000 false DelayedRestart]
      /\ (handlesIssued s ->
          pending h s' = Some (mkTimer h 2000 false DelayedRestart)
          /\ fireTimer h s' = restartConnection (clearTimer h s')
          /\ restarted s (fireTimer h s')))
  /\ (let s' := connectionStateChanged pcs_connected s in
      status (view s') = Connected
      /\ engineLog (world s') = engineLog (world s)
      /\ (forall h, announceInterval (refs s) = Some h -> pending h s' = None)
      /\ (forall h, negotiationTimeout (refs s) = Some h -> pending h s' = None)).
Proof.
  intros Hpc.
  unfold connectionStateChanged, onconnectionstatechange.
  cbn [refs on_refs peerConnection with_peerConnection].
  rewrite Hpc. cbn [option_map connectionState with_connectionState].
  split; [|split].
  - cbn. repeat split. now rewrite Hpc.
  - cbv zeta.
    set (s1 := setStatusMessage _ _).
    assert (Htm : timers (world (snd (setTimer DelayedRestart 2000 false s1)))
                  = timers (world s)
                    ++ [mkTimer (nextHandle (world s)) 2000 false DelayedRestart])
      by reflexivity.
    split; [reflexivity|]. split; [cbn; now rewrite Hpc|].
    split; [reflexivity|]. split; [reflexivity|]. split; [reflexivity|].
    split; [exact Htm|].
    intros (Hissued & _).
    set (t := mkTimer (nextHandle (world s)) 2000 false DelayedRestart) in *.
    assert (Hp : pending (nextHandle (world s))
                   (snd (setTimer DelayedRestart 2000 false s1)) = Some t).
    { apply (pending_armed _ t s _ Htm). intros x Hx. cbn.
      specialize (Hissued x Hx). unfold issued in Hissued. lia. }
    split; [exact Hp|].
    assert (Hfire : fireTimer (nextHandle (world s))
                      (snd (setTimer DelayedRestart 2000 false s1))
                    = restartConnection
                        (clearTimer (nextHandle (world s))
                           (snd (setTimer DelayedRestart 2000 false s1)))).
    { unfold fireTimer. now rewrite Hp. }
    split; [exact Hfire|]. rewrite Hfire.
    apply restart_after.
    + reflexivity.
    + unfold closing. cbn. now rewrite Hpc.
    + exists []. cbn. now rewrite app_nil_r.
  - cbv zeta.
    set (s1 := setPeerConnected true _).
    assert (Hann : announceInterval (refs s1) = announceInterval (refs s))
      by reflexivity.
    assert (Hneg : negotiationTimeout (refs s1) = negotiationTimeout (refs s))
      by reflexivity.
    rewrite clearIfSet_refs, Hann, Hneg.
    split; [|split; [|split]].
    + rewrite !clearIfSet_view. reflexivity.
    + rewrite !clearIfSet_engineLog. reflexivity.
    + intros h Hh. rewrite Hh. cbn [clearIfSet].
      apply pending_none_clearIfSet, pending_cleared.
    + intros h Hh. rewrite Hh. cbn [clearIfSet]. apply pending_cleared.
Qed.

End ConnectionState.

(** ** The candidate queue across a restart (C4) *)

Section QueueAcrossRestart.
Context {E : Engine}.

(** C4 (amended). A restart leaves the candidate queue as it was, not
    emptied, while the engine instance is replaced by a new one; when an
    Offer is handled directly after the restart and the new instance accepts
    the remote description, the candidates that were queued before the
    restart are handed to the new instance, in their order, and the queue is
    empty afterwards. *)
Theorem restart_keeps_candidate_queue (s : Session) :
  let s' := restartConnection s in
  let n := S (instances (world s)) in
  iceCandidatesQueue (refs s') = iceCandidatesQueue (refs s)
  /\ instances (world s') = n
  /\ forall p d pcN pc1,
       type p = offer ->
       sdp p = Some d ->
       senderId p <> myId (refs s) ->
       peerConnection (refs s') = Some pcN ->
       remoteOfferAccepted d pcN = Some pc1 ->
       iceCandidatesQueue (refs (handleSignalMessage p s')) = []
       /\ exists pre rest,
            engineLog (world (handleSignalMessage p s'))
            = pre
              ++ map (fun c => Called n (AddIceCandidate c))
                   (iceCandidatesQueue (refs s))
              ++ rest.
Proof.
  intros s' n. subst s' n.
  destruct (restart_summary s) as (_ & R2 & _ & _ & _ & _ & R7 & _).
  split; [apply restart_keeps_queue|]. split; [exact R7|].
  intros p d pcN pc1 Ht Hd Hne Hpc Hacc.
  assert (Hne' : senderId p <> myId (refs (restartConnection s)))
    by now rewrite R2.
  pose proof (offer_summary p (restartConnection s) pcN d Ht Hd Hne' Hpc) as K.
  cbv zeta in K. rewrite Hacc, restart_keeps_queue, R7 in K.
  destruct K as (K1 & rest & K2).
  split; [exact K1|].
  eexists. exists rest. rewrite K2, app_assoc. reflexivity.
Qed.

End QueueAcrossRestart.

(** A candidate queued under engine instance 1 is still queued after the
    restart and is handed to instance 2 when an offer arrives. *)
Lemma restart_empties_queue_counterexample :
  let s1 := @handleSignalMessage Reference.engine
              (Sample.candidateFrom "b1" (Sample.host 0)) (Sample.waiting "a9") in
  let s2 := @restartConnection Reference.engine s1 in
  let s3 := @handleSignalMessage Reference.engine (Sample.offerFrom "b1") s2 in
  instances (world s1) = 1
  /\ iceCandidatesQueue (refs s1) = [Sample.host 0]
  /\ instances (world s2) = 2
  /\ iceCandidatesQueue (refs s2) <> []
  /\ In (Called 2 (AddIceCandidate (Sample.host 0))) (engineLog (world s3)).
Proof.
  vm_compute. repeat split; try discriminate. auto 10.
Qed.

Lemma restart_keeps_candidate_queue_witness :
  let s1 := @handleSignalMessage Reference.engine
              (Sample.candidateFrom "b1" (Sample.host 0)) (Sample.waiting "a9") in
  let s2 := @restartConnection Reference.engine s1 in
  iceCandidatesQueue (refs s2) = iceCandidatesQueue (refs s1)
  /\ iceCandidatesQueue
       (refs (@handleSignalMessage Reference.engine (Sample.offerFrom "b1") s2))
     = [].
Proof.
  intros s1 s2.
  pose proof (restart_keeps_candidate_queue (E := Reference.engine) s1)
    as (H1 & _ & H3).
  split; [exact H1|].
  assert (Hne : senderId (Sample.offerFrom "b1") <> myId (refs s1))
    by (vm_compute; discriminate).
  assert (Hpc : peerConnection (refs s2) = Some Reference.newPC)
    by (vm_compute; reflexivity).
  assert (Hacc : @remoteOfferAccepted Reference.engine Sample.remoteOffer
                   Reference.newPC
                 = Some (Reference.with_signaling have_remote_offer None
                           (Some Sample.remoteOffer) Reference.newPC))
    by (vm_compute; reflexivity).
  exact (proj1 (H3 (Sample.offerFrom "b1") Sample.remoteOffer _ _
                  eq_refl eq_refl Hne Hpc Hacc)).
Defined.

(** ** The results on the sample sessions *)

Lemma self_echo_is_discarded_witness :
  @handleSignalMessage Reference.engine (Sample.offerFrom "b1") (Sample.waiting "b1")
  = Sample.waiting "b1".
Proof.
  apply (self_echo_is_discarded (E := Reference.engine)).
  reflexivity.
Defined.

Lemma chat_delivery_is_idempotent_witness :
  let p := Sample.chatFrom "a9" Sample.hello in
  messages (view (@handleSignalMessage Reference.engine p
                    (@handleSignalMessage Reference.engine p (Sample.waiting "b1"))))
  = messages (view (@handleSignalMessage Reference.engine p (Sample.waiting "b1"))).
Proof.
  intros p.
  exact (proj2 (chat_delivery_is_idempotent (E := Reference.engine)
                  p Sample.hello (Sample.waiting "b1") eq_refl eq_refl)).
Defined.

(** Scenario 3: three candidates queued, the offer arrives. *)
Lemma ice_candidates_applied_or_queued_in_order_witness :
  iceCandidatesQueue (refs Sample.queued)
  = [Sample.host 0; Sample.malformed; Sample.host 2]
  /\ iceCandidatesQueue
       (refs (@handleSignalMessage Reference.engine
                (Sample.offerFrom "b1") Sample.queued))
     = [].
Proof.
  split; [vm_compute; reflexivity|].
  assert (Hpc : peerConnection (refs Sample.queued) = Some Reference.newPC)
    by (vm_compute; reflexivity).
  assert (Hne : senderId (Sample.offerFrom "b1") <> myId (refs Sample.queued))
    by (vm_compute; discriminate).
  assert (Hacc : @remoteOfferAccepted Reference.engine Sample.remoteOffer
                   Reference.newPC
                 = Some (Reference.with_signaling have_remote_offer None
                           (Some Sample.remoteOffer) Reference.newPC))
    by (vm_compute; reflexivity).
  pose proof (ice_candidates_applied_or_queued_in_order (E := Reference.engine)
                Sample.queued Reference.newPC Hpc) as (_ & _ & H & _).
  exact (proj1 (H (Sample.offerFrom "b1") Sample.remoteOffer _
                  eq_refl eq_refl Hne Hacc)).
Defined.

(** On the reference engine the malformed candidate is rejected and the two
    others reach the engine in their order. *)
Example scenario_three :
  let s := @handleSignalMessage Reference.engine
             (Sample.offerFrom "b1") Sample.queued in
  option_map candidates (peerConnection (refs s))
  = Some [Sample.host 0; Sample.host 2]
  /\ engineLog (world s)
     = [Constructed 1;
        Called 1 (SetRemoteDescription Sample.remoteOffer);
        Called 1 (AddIceCandidate (Sample.host 0));
        Called 1 (AddIceCandidate Sample.malformed);
        Called 1 (AddIceCandidate (Sample.host 2));
        Called 1 CreateAnswer;
        Called 1 (SetLocalDescription (mkDescription sdp_answer "v=0 o=answer"))]
  /\ map type (outbox (world s)) = [answer].
Proof. vm_compute. repeat split. Qed.

(** An answer that the engine rejects, received by the peer that offered;
    a candidate that the engine rejects, received by the peer that
    answered. *)
Lemma failure_policy_witness :
  (fst (@signaling Reference.engine (Sample.badAnswerFrom "a9") Sample.offering)
   = Throw
   /\ @restarted Sample.offering
        (@handleSignalMessage Reference.engine
           (Sample.badAnswerFrom "a9") Sample.offering))
  /\ (@addIceCandidate Reference.engine Sample.malformed Sample.answeredPC = None
      /\ console (world (@handleSignalMessage Reference.engine
                           (Sample.candidateFrom "b1" Sample.malformed)
                           Sample.answered))
         = console (world Sample.answered) ++ [(warn, "Error adding candidate")]).
Proof.
  split.
  2:{ assert (Hpc : peerConnection (refs Sample.answered) = Some Sample.answeredPC)
        by (vm_compute; reflexivity).
      assert (Hne : senderId (Sample.candidateFrom "b1" Sample.malformed)
                    <> myId (refs Sample.answered))
        by (vm_compute; discriminate).
      assert (Hrd : remoteDescription Sample.answeredPC <> None)
        by discriminate.
      assert (Hfail : @addIceCandidate Reference.engine Sample.malformed
                        Sample.answeredPC = None)
        by (vm_compute; reflexivity).
      split; [exact Hfail|].
      pose proof (failure_policy (E := Reference.engine) Sample.answered
                    Sample.answeredPC Hpc) as (_ & H & _).
      exact (proj1 (proj2 (H (Sample.candidateFrom "b1" Sample.malformed)
                             Sample.malformed eq_refl eq_refl Hne Hrd Hfail))). }
  assert (Hpc : peerConnection (refs Sample.offering) = Some Sample.offeringPC)
    by (vm_compute; reflexivity).
  assert (Hne : senderId (Sample.badAnswerFrom "a9") <> myId (refs Sample.offering))
    by (vm_compute; discriminate).
  assert (Hthrow : fst (@signaling Reference.engine (Sample.badAnswerFrom "a9")
                          Sample.offering) = Throw)
    by (vm_compute; reflexivity).
  split; [exact Hthrow|].
  pose proof (failure_policy (E := Reference.engine) Sample.offering
                Sample.offeringPC Hpc) as (H & _).
  exact (proj1 (proj2 (H (Sample.badAnswerFrom "a9") (or_intror eq_refl)
                         Hne Hthrow))).
Defined.

Lemma handlesIssued_waiting (me : string) : @handlesIssued (Sample.waiting me).
Proof.
  unfold handlesIssued, issued. cbn. repeat split.
  - intros t [<- | [<- | []]]; cbn; lia.
  - intros h [= <-]. lia.
  - discriminate.
Qed.

Lemma handlesIssued_offering : @handlesIssued Sample.offering.
Proof.
  unfold handlesIssued, issued. vm_compute. repeat split.
  - intros t [<- | [<- | []]]; reflexivity.
  - discriminate.
  - intros h [= <-]. reflexivity.
Qed.

(** Scenario 2: "b1" offers, the timer is armed; no answer comes and the
    timer fires. *)
Lemma negotiation_timer_witness :
  pending 3 Sample.offering = Some (mkTimer 3 10000 false NegotiationTimedOut)
  /\ @restarted Sample.offering (@fireTimer Reference.engine 3 Sample.offering).
Proof.
  assert (Hp : pending 3 Sample.offering
               = Some (mkTimer 3 10000 false NegotiationTimedOut))
    by (vm_compute; reflexivity).
  split; [exact Hp|].
  assert (Hpc : peerConnection (refs Sample.offering) = Some Sample.offeringPC)
    by (vm_compute; reflexivity).
  pose proof (negotiation_timer (E := Reference.engine) Sample.offering
                Sample.offeringPC Hpc handlesIssued_offering) as (_ & H).
  assert (Hc : connectionState Sample.offeringPC <> pcs_connected) by discriminate.
  assert (Hi : iceConnectionState Sample.offeringPC <> ice_connected)
    by discriminate.
  exact (proj1 (proj2 (proj1 (H 3%positive _ Hp eq_refl eq_refl) Hc Hi))).
Defined.

(** The answer has arrived and been applied, the ICE agent has connected,
    the connection state is still connecting: the timer fires and nothing
    is restarted. *)
Lemma negotiation_timer_not_connected_counterexample :
  let s := Sample.iceConnected in
  let s' := @fireTimer Reference.engine 3 s in
  pending 3 s = Some (mkTimer 3 10000 false NegotiationTimedOut)
  /\ option_map connectionState (peerConnection (refs s)) = Some pcs_connecting
  /\ option_map iceConnectionState (peerConnection (refs s)) = Some ice_connected
  /\ s' = clearTimer 3 s
  /\ instances (world s') = instances (world s)
  /\ engineLog (world s') = engineLog (world s)
  /\ status (view s') = Negotiating
  /\ announceInterval (refs s') = None
  /\ ~ @restarted s s'.
Proof.
  vm_compute. repeat split. intros (H & _). discriminate H.
Qed.

Lemma connection_state_changes_witness :
  let s' := @connectionStateChanged pcs_disconnected Sample.offering in
  status (view s') = Disconnected
  /\ refs s'
     = with_peerConnection
         (Some (with_connectionState pcs_disconnected Sample.offeringPC))
         (refs Sample.offering)
  /\ world s' = with_console (console (world s')) (world Sample.offering).
Proof.
  assert (Hpc : peerConnection (refs Sample.offering) = Some Sample.offeringPC)
    by (vm_compute; reflexivity).
  exact (proj1 (connection_state_changes (E := Reference.engine) Sample.offering
                  Sample.offeringPC Hpc)).
Defined.

(** ** The 'leave' branch and the reconnect path *)

Section Leave.
Context {E : Engine}.

Lemma handleRemoteDisconnect_run (s : Session) :
  handleRemoteDisconnect s
  = restartConnection
      (on_refs (with_remoteVideoSrcObject None)
         (setPeerConnected false
            (setStatusMessage "Peer left. Waiting..."
               (setStatus WaitingForPeer s)))).
Proof. reflexivity. Qed.

(** X1. A Leave envelope of another peer, received while an engine exists,
    restarts the connection: the engine instance is closed and a new one
    constructed, the status is Waiting for Peer and the announcement loop runs
    again; the remote video is detached and peerConnected is false.  The
    status message ends as "Retrying connection...", the one set by the
    restart, and neither the chat messages, the candidate queue, the stored
    negotiation timer nor the outbox change.  Without an engine the envelope
    is ignored. *)
Theorem leave_restarts (p : SignalMessage) (s : Session) :
  type p = leave ->
  senderId p <> myId (refs s) ->
  let s' := handleSignalMessage p s in
  (peerConnection (refs s) = None -> s' = s)
  /\ (peerConnection (refs s) <> None ->
      restarted s s'
      /\ peerConnected (view s') = false
      /\ remoteVideoSrcObject (refs s') = None
      /\ statusMessage (view s') = "Retrying connection..."
      /\ messages (view s') = messages (view s)
      /\ iceCandidatesQueue (refs s') = iceCandidatesQueue (refs s)
      /\ negotiationTimeout (refs s') = negotiationTimeout (refs s)
      /\ outbox (world s') = outbox (world s)).
Proof.
  intros Ht Hne s'. subst s'. split.
  - intros Hpc. unfold handleSignalMessage. apply String.eqb_neq in Hne.
    now rewrite Hne, Ht, Hpc.
  - intros Hpc.
    destruct (peerConnection (refs s)) as [pc|] eqn:Hcur; [clear Hpc|congruence].
    rewrite (handle_signaling p s pc Hne ltac:(congruence) Hcur).
    unfold signaling, try_catch. rewrite Ht. cbn [exec].
    rewrite handleRemoteDisconnect_run.
    set (x := on_refs _ _).
    destruct (restart_summary x) as (_ & R2 & R3 & _ & _ & R6 & _).
    split.
    { apply restart_after.
      - reflexivity.
      - unfold closing. cbn. reflexivity.
      - exists []. cbn. now rewrite app_nil_r. }
    rewrite R2, R3, R6. cbn. repeat split.
Qed.

End Leave.

Lemma leave_restarts_witness :
  @restarted Sample.answered
    (@handleSignalMessage Reference.engine
       (mkSignal leave None None "b1" None) Sample.answered).
Proof.
  assert (Hne : senderId (mkSignal leave None None "b1" None)
                <> myId (refs Sample.answered))
    by (vm_compute; discriminate).
  assert (Hpc : peerConnection (refs Sample.answered) <> None)
    by (vm_compute; discriminate).
  exact (proj1 (proj2 (leave_restarts (E := Reference.engine)
                         (mkSignal leave None None "b1" None) Sample.answered
                         eq_refl Hne) Hpc)).
Defined.

(** ** The announcement loop at work *)

Section AnnouncementTicks.
Context {E : Engine}.

Lemma broadcast_unless_connected (s : Session) :
  option_map connectionState (peerConnection (refs s)) <> Some pcs_connected ->
  initialBroadcast s
  = channelSendIfAny (announceEnvelope s)
      (consoleWrite log "Broadcasting presence..." s)
  /\ periodicBroadcast s
     = channelSendIfAny (announceEnvelope s)
         (consoleWrite log "Broadcasting presence..." s).
Proof.
  intros H. unfold initialBroadcast, periodicBroadcast.
  destruct (peerConnection (refs s)) as [pc|]; cbn in *; [|split; reflexivity].
  destruct (connectionState pc); try (split; reflexivity). congruence.
Qed.

Lemma find_filter_other (h h' : positive) (l : list Timer) :
  h <> h' ->
  find (fun t => Pos.eqb (handle t) h)
    (filter (fun t => negb (Pos.eqb (handle t) h')) l)
  = find (fun t => Pos.eqb (handle t) h) l.
Proof.
  intros Hne. induction l as [|t l IH]; [reflexivity|]. cbn.
  destruct (Pos.eqb (handle t) h') eqn:H1; cbn.
  - apply Pos.eqb_eq in H1.
    destruct (Pos.eqb (handle t) h) eqn:H2; [|exact IH].
    apply Pos.eqb_eq in H2. congruence.
  - destruct (Pos.eqb (handle t) h); [reflexivity|exact IH].
Qed.

Lemma find_app_first {A : Type} (f : A -> bool) (l l' : list A) (x : A) :
  find f l = Some x -> find f (l ++ l') = Some x.
Proof.
  induction l as [|a l IH]; cbn; [discriminate|].
  destruct (f a); [auto|exact IH].
Qed.

Lemma pending_clearIfSet_other (h : positive) (o : option positive) (s : Session) :
  o <> Some h -> pending h (clearIfSet o s) = pending h s.
Proof.
  intros Ho. destruct o as [h'|]; [|reflexivity].
  unfold pending, clearIfSet, clearTimer. cbn.
  apply find_filter_other. congruence.
Qed.

Lemma channelSendIfAny_open (m : SignalMessage) (s : Session) :
  channel (refs s) <> None ->
  channelSendIfAny m s = on_world (fun w => with_outbox (outbox w ++ [m]) w) s.
Proof.
  intros H. unfold channelSendIfAny. now destruct (channel (refs s)).
Qed.

Lemma pending_frame (h : positive) (s s' : Session) :
  timers (world s') = timers (world s) -> pending h s' = pending h s.
Proof. unfold pending. now intros ->. Qed.

Lemma initialBroadcast_timers (s : Session) :
  timers (world (initialBroadcast s)) = timers (world s).
Proof.
  unfold initialBroadcast, channelSendIfAny.
  cbn [refs consoleWrite on_world channel].
  destruct (option_map connectionState (peerConnection (refs s))) as [[]|];
    try reflexivity; destruct (channel (refs s)); reflexivity.
Qed.

(** X2. A tick of the announcement interval: while the engine is connected
    it sends nothing and clears the interval that announceInterval names;
    otherwise (also when there is no engine) it stays armed, leaves every
    timer as it was and sends one Announce envelope with the local identity
    when the channel exists, none when it does not.  The first broadcast,
    a timeout, is consumed by its firing; it sends nothing while the engine
    is connected, and that envelope when it is not and the channel exists. *)
Theorem announcement_ticks (s : Session) (h : positive) (t : Timer) :
  pending h s = Some t ->
  (callback t = PeriodicBroadcast -> repeats t = true ->
     (option_map connectionState (peerConnection (refs s)) = Some pcs_connected ->
        fireTimer h s = clearIfSet (announceInterval (refs s)) s
        /\ outbox (world (fireTimer h s)) = outbox (world s)
        /\ (announceInterval (refs s) = Some h ->
            pending h (fireTimer h s) = None))
     /\ (option_map connectionState (peerConnection (refs s)) <> Some pcs_connected ->
           pending h (fireTimer h s) = Some t
           /\ timers (world (fireTimer h s)) = timers (world s)
           /\ (channel (refs s) <> None ->
               outbox (world (fireTimer h s))
               = outbox (world s) ++ [mkSignal announce None None (myId (refs s)) None])
           /\ (channel (refs s) = None ->
               outbox (world (fireTimer h s)) = outbox (world s))))
  /\ (callback t = InitialBroadcast -> repeats t = false ->
        pending h (fireTimer h s) = None
        /\ (option_map connectionState (peerConnection (refs s)) = Some pcs_connected ->
            outbox (world (fireTimer h s)) = outbox (world s))
        /\ (option_map connectionState (peerConnection (refs s)) <> Some pcs_connected ->
            channel (refs s) <> None ->
            outbox (world (fireTimer h s))
            = outbox (world s) ++ [mkSignal announce None None (myId (refs s)) None])).
Proof.
  intros Hp. split.
  - intros Hcb Hrep.
    assert (Hfire : fireTimer h s = periodicBroadcast s).
    { unfold fireTimer. now rewrite Hp, Hcb, Hrep. }
    rewrite Hfire. split.
    + intros Hconn. unfold periodicBroadcast. rewrite Hconn.
      split; [reflexivity|]. split.
      * now destruct (announceInterval (refs s)).
      * intros Ha. rewrite Ha. apply pending_cleared.
    + intros Hconn.
      destruct (broadcast_unless_connected s Hconn) as [_ ->].
      unfold channelSendIfAny. cbn [refs consoleWrite on_world channel].
      destruct (channel (refs s)) eqn:Hch; cbn; repeat split;
        try exact Hp; try congruence.
  - intros Hcb Hrep.
    assert (Hfire : fireTimer h s = initialBroadcast (clearTimer h s)).
    { unfold fireTimer. now rewrite Hp, Hcb, Hrep. }
    rewrite Hfire. split; [|split].
    + rewrite (pending_frame h _ _ (initialBroadcast_timers (clearTimer h s))).
      apply pending_cleared.
    + intros Hconn. unfold initialBroadcast.
      cbn [refs clearTimer on_world peerConnection]. now rewrite Hconn.
    + intros Hconn Hch.
      assert (Hconn' : option_map connectionState
                         (peerConnection (refs (clearTimer h s)))
                       <> Some pcs_connected) by exact Hconn.
      destruct (broadcast_unless_connected _ Hconn') as [-> _].
      rewrite channelSendIfAny_open by exact Hch. reflexivity.
Qed.

(** X3. A restart cancels no timer but the announcement interval: a timer
    that was pending under another handle, such as the negotiation timer or a
    delayed restart, is still pending after restartConnection, and the stored
    negotiationTimeout handle is unchanged. *)
Theorem restart_cancels_only_the_announcement_interval
  (s : Session) (h : positive) (t : Timer) :
  pending h s = Some t ->
  announceInterval (refs s) <> Some h ->
  pending h (restartConnection s) = Some t
  /\ negotiationTimeout (refs (restartConnection s)) = negotiationTimeout (refs s).
Proof.
  intros Hp Ha.
  destruct (restart_summary s) as (_ & R2 & _ & R4 & _).
  split; [|now rewrite R2].
  unfold pending. rewrite R4. apply find_app_first.
  rewrite <- Hp. apply (pending_clearIfSet_other h _ s Ha).
Qed.

End AnnouncementTicks.

(** ** The follower path to its end, and the initiator path when it fails *)

Section Paths.
Context {E : Engine}.

Lemma sendAnswer_run (s : Session) (pc : RTCPeerConnection) :
  peerConnection (refs s) = Some pc ->
  forall a pc2 pc3,
    createAnswer pc = Some (a, pc2) ->
    setLocalDescription a pc2 = Some pc3 ->
    channel (refs s) <> None ->
    sendAnswer s
    = (Normal tt,
       on_world (fun w => with_outbox (outbox w ++ [answerEnvelope a s]) w)
         (on_refs (with_peerConnection (Some pc3))
            (recordCall (SetLocalDescription a)
               (on_refs (with_peerConnection (Some pc2))
                  (recordCall CreateAnswer s))))).
Proof.
  intros Hpc a pc2 pc3 Ha Hl Hch.
  unfold sendAnswer, bind, pc_createAnswer, pc_setLocalDescription, onEngine,
    channelSend.
  rewrite Hpc, Ha. cbn. rewrite Hl. cbn.
  destruct (channel (refs s)); [reflexivity|congruence].
Qed.

Lemma offer_answered_summary
  (p : SignalMessage) (s : Session) (pc pc1 pc2 pc3 : RTCPeerConnection)
  (d a : RTCSessionDescriptionInit) :
  type p = offer ->
  sdp p = Some d ->
  senderId p <> myId (refs s) ->
  peerConnection (refs s) = Some pc ->
  channel (refs s) <> None ->
  remoteOfferAccepted d pc = Some pc1 ->
  createAnswer (fold_left applyCandidate (iceCandidatesQueue (refs s)) pc1)
  = Some (a, pc2) ->
  setLocalDescription a pc2 = Some pc3 ->
  let s' := handleSignalMessage p s in
  let i := instances (world s) in
  outbox (world s') = outbox (world s) ++ [mkSignal answer (Some a) None (myId (refs s)) None]
  /\ peerConnection (refs s') = Some pc3
  /\ engineLog (world s')
     = engineLog (world s)
       ++ map (Called i) (remoteOfferCalls d pc)
       ++ map (fun c => Called i (AddIceCandidate c)) (iceCandidatesQueue (refs s))
       ++ [Called i CreateAnswer; Called i (SetLocalDescription a)]
  /\ instances (world s') = i
  /\ iceCandidatesQueue (refs s') = []
  /\ status (view s') = Negotiating
  /\ announceInterval (refs s') = None
  /\ (forall h, announceInterval (refs s) = Some h -> pending h s' = None)
  /\ negotiationTimeout (refs s') = negotiationTimeout (refs s)
  /\ isInitiator (refs s') = isInitiator (refs s).
Proof.
  intros Ht Hd Hne Hpc Hch Hacc Hans Hloc s' i. subst i.
  assert (Hs' : s' = try_catch (onOffer p) (signalingFailed p) s).
  { subst s'. rewrite (handle_signaling p s pc Hne ltac:(congruence) Hpc).
    unfold signaling. now rewrite Ht. }
  clearbody s'. unfold try_catch in Hs'. rewrite onOffer_cases in Hs'.
  destruct (offerPrefix_frame s) as (P1 & P2 & P3 & P4).
  destruct (stopAnnouncing_frame
              (setStatusMessage "Accepting connection..."
                 (setStatus Negotiating (consoleWrite log "Received Offer" s))))
    as (Q1 & Q2 & Q3).
  fold (offerPrefix s) in Q1, Q2, Q3.
  assert (Hpc0 : peerConnection (refs (offerPrefix s)) = Some pc)
    by now rewrite P1.
  destruct (applyRemoteOffer_summary p (offerPrefix s) pc d Hd Hpc0)
    as (A1 & A2 & A3 & A4).
  rewrite Hacc in A4. destruct A4 as [A4 A5].
  destruct (applyRemoteOffer p (offerPrefix s)) as [r1 s1].
  cbn [fst snd] in *. subst r1.
  assert (Hq1 : iceCandidatesQueue (refs s1) = iceCandidatesQueue (refs s))
    by (rewrite A3, P1; reflexivity).
  destruct (drain_summary _ s1 pc1 eq_refl A5) as (D1 & D2 & D3).
  set (s2 := drainQueue _ s1) in *.
  assert (Hpc2 : peerConnection (refs s2)
                 = Some (fold_left applyCandidate (iceCandidatesQueue (refs s)) pc1))
    by (rewrite D1, Hq1; reflexivity).
  assert (Hch2 : channel (refs s2) <> None)
    by (rewrite D1, A3, P1; exact Hch).
  rewrite (sendAnswer_run s2 _ Hpc2 a pc2 pc3 Hans Hloc Hch2) in Hs'.
  subst s'. cbn.
  assert (Hmy : myId (refs s2) = myId (refs s))
    by (rewrite D1, A3, P1; reflexivity).
  assert (Hw2 : world s2
                = with_console (console (world s2))
                    (with_engineLog
                       (engineLog (world s)
                        ++ map (Called (instances (world s))) (remoteOfferCalls d pc)
                        ++ map (fun c => Called (instances (world s)) (AddIceCandidate c))
                             (iceCandidatesQueue (refs s)))
                       (world (offerPrefix s)))).
  { rewrite D3 at 1. rewrite A2, Hq1. cbn. rewrite P2, P3.
    now rewrite <- app_assoc. }
  repeat split.
  - rewrite Hw2. cbn. unfold answerEnvelope. now rewrite P4, Hmy.
  - rewrite Hw2. cbn. rewrite P3. now rewrite <- !app_assoc.
  - rewrite Hw2. cbn. exact P3.
  - now rewrite D1.
  - rewrite D2, A1, Q2. reflexivity.
  - rewrite D1, A3, P1. reflexivity.
  - intros h Hh. unfold pending. cbn. rewrite Hw2. cbn.
    rewrite Q3. cbn. rewrite Hh. cbn.
    apply find_none_intro. intros t Hin. apply filter_In in Hin.
    destruct Hin as [_ Hin]. now apply negb_true_iff in Hin.
  - rewrite D1, A3, P1. reflexivity.
  - rewrite D1, A3, P1. reflexivity.
Qed.

(** X4. The follower path to its end.  When an Offer of another peer is
    processed, the engine accepts the remote description, produces an answer
    and accepts it as local description, and the channel is open, then
    exactly one envelope is sent, the Answer with that description and the
    local identity; the engine log gains the calls for the remote offer, one
    addIceCandidate per queued candidate in order, createAnswer and
    setLocalDescription, and nothing else; no engine instance is built; the
    queue is empty; the status is Negotiating; the announcement interval is
    cancelled and its handle cleared, the negotiation timer and isInitiator
    being left alone. *)
Theorem offer_is_answered
  (p : SignalMessage) (s : Session) (pc pc1 pc2 pc3 : RTCPeerConnection)
  (d a : RTCSessionDescriptionInit) :
  type p = offer ->
  sdp p = Some d ->
  senderId p <> myId (refs s) ->
  peerConnection (refs s) = Some pc ->
  channel (refs s) <> None ->
  remoteOfferAccepted d pc = Some pc1 ->
  createAnswer (fold_left applyCandidate (iceCandidatesQueue (refs s)) pc1)
  = Some (a, pc2) ->
  setLocalDescription a pc2 = Some pc3 ->
  let s' := handleSignalMessage p s in
  let i := instances (world s) in
  outbox (world s') = outbox (world s) ++ [mkSignal answer (Some a) None (myId (refs s)) None]
  /\ peerConnection (refs s') = Some pc3
  /\ engineLog (world s')
     = engineLog (world s)
       ++ map (Called i) (remoteOfferCalls d pc)
       ++ map (fun c => Called i (AddIceCandidate c)) (iceCandidatesQueue (refs s))
       ++ [Called i CreateAnswer; Called i (SetLocalDescription a)]
  /\ instances (world s') = i
  /\ iceCandidatesQueue (refs s') = []
  /\ status (view s') = Negotiating
  /\ announceInterval (refs s') = None
  /\ (forall h, announceInterval (refs s) = Some h -> pending h s' = None)
  /\ negotiationTimeout (refs s') = negotiationTimeout (refs s)
  /\ isInitiator (refs s') = isInitiator (refs s).
Proof. exact (offer_answered_summary p s pc pc1 pc2 pc3 d a). Qed.

(** X5. When the initiator path cannot produce its offer (a call of the
    engine throws) or has no channel to send it on, initiateConnection sends
    nothing and arms no negotiation timer, although it has already set
    isInitiator, set the status to Negotiating and cancelled the announcement
    interval: no timer is pending afterwards that was not pending before, and
    the interval is not. *)
Theorem failed_offer_leaves_no_timer (s : Session) (pc : RTCPeerConnection) :
  peerConnection (refs s) = Some pc ->
  offerProduced pc = None \/ channel (refs s) = None ->
  let s' := initiateConnection s in
  outbox (world s') = outbox (world s)
  /\ isInitiator (refs s') = true
  /\ status (view s') = Negotiating
  /\ announceInterval (refs s') = None
  /\ (forall h, announceInterval (refs s) = Some h -> pending h s' = None)
  /\ negotiationTimeout (refs s') = negotiationTimeout (refs s)
  /\ (forall t, In t (timers (world s')) -> In t (timers (world s)))
  /\ instances (world s') = instances (world s).
Proof.
  intros Hpc Hfail s'. subst s'.
  destruct (initiate_summary s pc Hpc) as (I1 & I2 & I3 & I4 & _ & I6).
  destruct (stopAnnouncing_frame s) as (_ & _ & S3).
  assert (K : outbox (world (initiateConnection s)) = outbox (world s)
              /\ negotiationTimeout (refs (initiateConnection s))
                 = negotiationTimeout (refs s)
              /\ timers (world (initiateConnection s))
                 = timers (world (stopAnnouncing s))).
  { destruct Hfail as [Hoff|Hch].
    - rewrite Hoff in I6. exact I6.
    - rewrite Hch in I6. destruct (offerProduced pc) as [[d pc3]|]; exact I6. }
  destruct K as (K1 & K2 & K3).
  repeat split; try assumption.
  - intros h Hh. unfold pending. rewrite K3, S3. cbn. rewrite Hh.
    apply (pending_cleared h s).
  - intros t Ht. rewrite K3 in Ht. now apply stopAnnouncing_timers in Ht.
Qed.

(** X6. An Answer never touches the candidate queue: whatever the
    signalling state and whatever the engine answers, the queue after the
    handler is the queue before it; and when the answer is applied the only
    call on the engine is setRemoteDescription, so candidates buffered on the
    offering side are not handed to the engine by the arrival of the
    answer. *)
Theorem answer_never_drains_the_queue
  (p : SignalMessage) (s : Session) (pc : RTCPeerConnection) :
  type p = answer ->
  senderId p <> myId (refs s) ->
  peerConnection (refs s) = Some pc ->
  let s' := handleSignalMessage p s in
  iceCandidatesQueue (refs s') = iceCandidatesQueue (refs s)
  /\ forall d pc',
       sdp p = Some d ->
       signalingState pc = have_local_offer ->
       setRemoteDescription d pc = Some pc' ->
       peerConnection (refs s') = Some pc'
       /\ engineLog (world s')
          = engineLog (world s)
            ++ [Called (instances (world s)) (SetRemoteDescription d)].
Proof.
  intros Ht Hne Hpc s'.
  assert (Hs' : s' = try_catch (onAnswer p) (signalingFailed p) s).
  { subst s'. rewrite (handle_signaling p s pc Hne ltac:(congruence) Hpc).
    unfold signaling. now rewrite Ht. }
  clearbody s'. unfold try_catch in Hs'.
  rewrite (onAnswer_run p s pc Hpc) in Hs'.
  split.
  - destruct (signaling_eqb _ _); [destruct (sdp p) as [d|]|].
    + destruct (onEngine_frame (SetRemoteDescription d)
                  (fun pc => unitResult (setRemoteDescription d pc))
                  (answerPrefix s)) as (_ & _ & M3 & _).
      unfold pc_setRemoteDescription in Hs'.
      destruct (onEngine _ _ (answerPrefix s)) as [[u|] s1];
        cbn [fst snd] in *; subst s'.
      * exact M3.
      * rewrite signalingFailed_offer by auto.
        rewrite restart_keeps_queue. exact M3.
    + subst s'. rewrite signalingFailed_offer by auto.
      now rewrite restart_keeps_queue.
    + now subst s'.
  - intros d pc' Hd Hsig Hok.
    apply signaling_eqb_eq in Hsig. rewrite Hsig, Hd in Hs'.
    unfold pc_setRemoteDescription, onEngine in Hs'.
    cbn [refs answerPrefix setStatusMessage setStatus consoleWrite on_view
         on_world] in Hs'.
    rewrite Hpc, Hok in Hs'. cbn [unitResult] in Hs'. subst s'.
    split; reflexivity.
Qed.

End Paths.

(** ** Preservation of an invariant by the event loop *)

Section Preservation.
Context {E : Engine}.
Variable I : Session -> Prop.

Hypothesis I_frame : forall s s', skeleton s' = skeleton s -> I s -> I s'.
Hypothesis I_call : forall c s, hasEngine s = true -> I s -> I (recordCall c s).
Hypothesis I_close : keeps I closeCurrent.
Hypothesis I_create : keeps I createPeerConnection.
Hypothesis I_stop : keeps I stopAnnouncing.
Hypothesis I_start : keeps I startAnnouncementLoop.
Hypothesis I_arm : keeps I armNegotiationTimer.
Hypothesis I_clearAnn :
  forall s, I s -> I (clearIfSet (announceInterval (refs s)) s).
Hypothesis I_clearNeg :
  forall s, I s -> I (clearIfSet (negotiationTimeout (refs s)) s).
Hypothesis I_consume : forall h, keeps I (clearTimer h).
Hypothesis I_delay : keeps I (fun s => snd (setTimer DelayedRestart 2000 false s)).

Ltac framed := intros s Hs; apply (I_frame s); [reflexivity|exact Hs].

Lemma keeps_consoleWrite l m : keeps I (consoleWrite l m).
Proof. framed. Qed.

Lemma keeps_on_view f : keeps I (on_view f).
Proof. framed. Qed.

Lemma keepsCode_ret {A : Type} (a : A) : keepsCode I (ret a).
Proof. intros s Hs. exact Hs. Qed.

Lemma keepsCode_throw {A : Type} : keepsCode I (@throw A).
Proof. intros s Hs. exact Hs. Qed.

Lemma keepsCode_exec f : keeps I f -> keepsCode I (exec f).
Proof. intros H s Hs. apply H, Hs. Qed.

Lemma keepsCode_bind {A B : Type} (m : Code A) (k : A -> Code B) :
  keepsCode I m -> (forall a, keepsCode I (k a)) -> keepsCode I (bind m k).
Proof.
  intros Hm Hk s Hs. unfold bind. specialize (Hm s Hs).
  destruct (m s) as [[a|] s1]; cbn in *; [apply Hk|]; assumption.
Qed.

Lemma keeps_try_catch (m : Code unit) h :
  keepsCode I m -> keeps I h -> keeps I (try_catch m h).
Proof.
  intros Hm Hh s Hs. unfold try_catch. specialize (Hm s Hs).
  destruct (m s) as [[u|] s1]; cbn in *; [|apply Hh]; assumption.
Qed.

Lemma keepsCode_onEngine {A : Type} (c : EngineCall)
  (f : RTCPeerConnection -> option (A * RTCPeerConnection)) :
  keepsCode I (onEngine c f).
Proof.
  intros s Hs. unfold onEngine.
  destruct (peerConnection (refs s)) as [pc|] eqn:Hpc; [|exact Hs].
  assert (He : hasEngine s = true) by (unfold hasEngine; now rewrite Hpc).
  pose proof (I_call c s He Hs) as Hc.
  destruct (f pc) as [[a pc']|]; cbn; [|exact Hc].
  apply (I_frame (recordCall c s)); [|exact Hc].
  unfold skeleton, hasEngine. cbn. now rewrite Hpc.
Qed.

Lemma keepsCode_channelSend m : keepsCode I (channelSend m).
Proof.
  intros s Hs. unfold channelSend.
  destruct (channel (refs s)); cbn; [|exact Hs].
  apply (I_frame s); [reflexivity|exact Hs].
Qed.

Lemma keeps_channelSendIfAny m : keeps I (channelSendIfAny m).
Proof.
  intros s Hs. unfold channelSendIfAny.
  destruct (channel (refs s)); [|exact Hs].
  apply (I_frame s); [reflexivity|exact Hs].
Qed.

Lemma keeps_addTracks ts : keeps I (addTracks ts).
Proof.
  induction ts as [|t ts IH]; intros s Hs; cbn [addTracks]; [exact Hs|].
  apply IH. destruct (peerConnection (refs s)); [|exact Hs].
  apply keeps_try_catch; [apply keepsCode_onEngine|apply keeps_consoleWrite|exact Hs].
Qed.

Lemma keeps_attachLocalTracks : keeps I attachLocalTracks.
Proof.
  intros s Hs. unfold attachLocalTracks.
  destruct (localStreamRef (refs s)); [|exact Hs].
  destruct (peerConnection (refs s)); [|exact Hs].
  now apply keeps_addTracks.
Qed.

Lemma keeps_restartConnection : keeps I restartConnection.
Proof.
  intros s Hs. unfold restartConnection.
  apply I_start, keeps_on_view, keeps_on_view, keeps_attachLocalTracks,
    I_create, I_close, keeps_consoleWrite, Hs.
Qed.

Lemma keeps_handleRemoteDisconnect : keeps I handleRemoteDisconnect.
Proof.
  intros s Hs. unfold handleRemoteDisconnect.
  apply keeps_restartConnection.
  apply (I_frame (setPeerConnected false
                    (setStatusMessage "Peer left. Waiting..."
                       (setStatus WaitingForPeer s)))); [reflexivity|].
  apply keeps_on_view, keeps_on_view, keeps_on_view, Hs.
Qed.

Lemma keepsCode_sendOffer : keepsCode I sendOffer.
Proof.
  unfold sendOffer.
  apply keepsCode_bind; [apply keepsCode_onEngine|intros _].
  apply keepsCode_bind; [apply keepsCode_onEngine|intros d].
  apply keepsCode_bind; [apply keepsCode_onEngine|intros _].
  apply keepsCode_bind; [intros s Hs; now apply keepsCode_channelSend|intros _].
  apply keepsCode_exec. exact I_arm.
Qed.

Lemma keeps_initiateConnection : keeps I initiateConnection.
Proof.
  intros s Hs. unfold initiateConnection.
  destruct (peerConnection (refs s)); [|exact Hs].
  apply keeps_try_catch;
    [apply keepsCode_sendOffer|apply keeps_consoleWrite|].
  apply (I_frame (setStatusMessage "Calling peer..."
                    (setStatus Negotiating (stopAnnouncing s))));
    [reflexivity|].
  apply keeps_on_view, keeps_on_view, I_stop, Hs.
Qed.

Lemma keeps_drainQueue fuel : keeps I (drainQueue fuel).
Proof.
  induction fuel as [|n IH]; intros s Hs; cbn [drainQueue]; [exact Hs|].
  destruct (iceCandidatesQueue (refs s)) as [|c rest]; [exact Hs|].
  apply IH.
  apply keeps_try_catch;
    [apply keepsCode_onEngine|apply keeps_consoleWrite|].
  apply (I_frame s); [reflexivity|exact Hs].
Qed.

Lemma keepsCode_applyRemoteOffer p : keepsCode I (applyRemoteOffer p).
Proof.
  intros s Hs. unfold applyRemoteOffer, bind, currentPC.
  destruct (peerConnection (refs s)) as [pc|]; [|exact Hs].
  destruct (negb _).
  - pose proof (keepsCode_onEngine (SetLocalDescription rollback)
                  (fun pc => unitResult (setLocalDescription rollback pc)) s Hs)
      as H1.
    unfold pc_setLocalDescription.
    destruct (onEngine _ _ s) as [r1 s1]. cbn [snd] in H1.
    destruct (sdp p) as [d|]; [|exact H1].
    pose proof (keepsCode_onEngine (SetRemoteDescription d)
                  (fun pc => unitResult (setRemoteDescription d pc)) s1 H1)
      as H2.
    unfold pc_setRemoteDescription.
    destruct (onEngine _ _ s1) as [r2 s2]. exact H2.
  - destruct (sdp p) as [d|]; [|exact Hs].
    now apply keepsCode_onEngine.
Qed.

Lemma keepsCode_sendAnswer : keepsCode I sendAnswer.
Proof.
  unfold sendAnswer.
  apply keepsCode_bind; [apply keepsCode_onEngine|intros d].
  apply keepsCode_bind; [apply keepsCode_onEngine|intros _].
  intros s Hs. now apply keepsCode_channelSend.
Qed.

Lemma keepsCode_onOffer p : keepsCode I (onOffer p).
Proof.
  unfold onOffer.
  apply keepsCode_bind; [apply keepsCode_exec, keeps_consoleWrite|intros _].
  apply keepsCode_bind; [apply keepsCode_exec, keeps_on_view|intros _].
  apply keepsCode_bind; [apply keepsCode_exec, keeps_on_view|intros _].
  apply keepsCode_bind; [apply keepsCode_exec, I_stop|intros _].
  apply keepsCode_bind; [apply keepsCode_applyRemoteOffer|intros _].
  apply keepsCode_bind; [|intros _; apply keepsCode_sendAnswer].
  apply keepsCode_exec. intros s Hs. now apply keeps_drainQueue.
Qed.

Lemma keepsCode_onAnswer p : keepsCode I (onAnswer p).
Proof.
  unfold onAnswer.
  apply keepsCode_bind; [apply keepsCode_exec, keeps_consoleWrite|intros _].
  apply keepsCode_bind; [apply keepsCode_exec, keeps_on_view|intros _].
  apply keepsCode_bind; [apply keepsCode_exec, keeps_on_view|intros _].
  apply keepsCode_bind.
  - intros s Hs. unfold currentPC. now destruct (peerConnection (refs s)).
  - intros pc. destruct (signaling_eqb _ _); [|apply keepsCode_ret].
    destruct (sdp p); [apply keepsCode_onEngine|apply keepsCode_throw].
Qed.

Lemma keepsCode_onIceCandidate p : keepsCode I (onIceCandidate p).
Proof.
  unfold onIceCandidate. destruct (candidate p) as [c|]; [|apply keepsCode_ret].
  apply keepsCode_bind.
  - intros s Hs. unfold currentPC. now destruct (peerConnection (refs s)).
  - intros pc. destruct (remoteDescription pc); apply keepsCode_exec.
    + apply keeps_try_catch; [apply keepsCode_onEngine|apply keeps_consoleWrite].
    + framed.
Qed.

Lemma keepsCode_onAnnounce p : keepsCode I (onAnnounce p).
Proof.
  unfold onAnnounce. apply keepsCode_bind.
  - intros s Hs. unfold currentPC. now destruct (peerConnection (refs s)).
  - intros pc. destruct (state_eqb _ _); [apply keepsCode_ret|].
    intros s Hs. destruct (js_gt _ _).
    + destruct (alreadyNegotiating pc); [exact Hs|].
      cbn. apply keeps_initiateConnection, keeps_consoleWrite, Hs.
    + cbn. now apply keeps_consoleWrite.
Qed.

Lemma keepsCode_signaling p : keepsCode I (signaling p).
Proof.
  unfold signaling. destruct (type p).
  - apply keepsCode_onAnnounce.
  - apply keepsCode_ret.
  - apply keepsCode_onOffer.
  - apply keepsCode_onAnswer.
  - apply keepsCode_onIceCandidate.
  - apply keepsCode_exec, keeps_handleRemoteDisconnect.
  - apply keepsCode_ret.
Qed.

Lemma keeps_signalingFailed p : keeps I (signalingFailed p).
Proof.
  intros s Hs. unfold signalingFailed.
  destruct (type p); try (now apply keeps_consoleWrite);
    apply keeps_restartConnection, keeps_consoleWrite, Hs.
Qed.

Lemma keeps_handleSignalMessage p : keeps I (handleSignalMessage p).
Proof.
  intros s Hs. unfold handleSignalMessage.
  destruct (String.eqb _ _); [exact Hs|].
  assert (Htry : I (match peerConnection (refs s) with
                    | Some _ => try_catch (signaling p) (signalingFailed p) s
                    | None => s
                    end)).
  { destruct (peerConnection (refs s)); [|exact Hs].
    apply keeps_try_catch;
      [apply keepsCode_signaling|apply keeps_signalingFailed|exact Hs]. }
  destruct (type p); try exact Htry.
  destruct (chatMessage p) as [m|]; [|exact Htry].
  now apply keeps_on_view, keeps_on_view.
Qed.

Lemma keeps_negotiationTimedOut : keeps I negotiationTimedOut.
Proof.
  intros s Hs. unfold negotiationTimedOut.
  destruct (option_map connectionState (peerConnection (refs s))) as [[]|];
    try exact Hs;
    destruct (option_map iceConnectionState (peerConnection (refs s))) as [[]|];
    try exact Hs; apply keeps_restartConnection, keeps_consoleWrite, Hs.
Qed.

Lemma keeps_initialBroadcast : keeps I initialBroadcast.
Proof.
  intros s Hs. unfold initialBroadcast.
  destruct (option_map connectionState (peerConnection (refs s))) as [[]|];
    try exact Hs; apply keeps_channelSendIfAny, keeps_consoleWrite, Hs.
Qed.

Lemma keeps_periodicBroadcast : keeps I periodicBroadcast.
Proof.
  intros s Hs. unfold periodicBroadcast.
  destruct (option_map connectionState (peerConnection (refs s))) as [[]|];
    try (now apply I_clearAnn);
    apply keeps_channelSendIfAny, keeps_consoleWrite, Hs.
Qed.

Lemma keeps_fireTimer h : keeps I (fireTimer h).
Proof.
  intros s Hs. unfold fireTimer.
  destruct (pending h s) as [t|]; [|exact Hs].
  assert (H0 : I (if repeats t then s else clearTimer h s))
    by (destruct (repeats t); [exact Hs|now apply I_consume]).
  destruct (callback t); cbn [runCallback].
  - now apply keeps_negotiationTimedOut.
  - now apply keeps_restartConnection.
  - now apply keeps_initialBroadcast.
  - now apply keeps_periodicBroadcast.
Qed.

Lemma keeps_onconnectionstatechange : keeps I onconnectionstatechange.
Proof.
  intros s Hs. unfold onconnectionstatechange.
  pose proof (keeps_consoleWrite log "Connection State Change:" s Hs) as H0.
  destruct (option_map connectionState (peerConnection (refs s))) as [[]|];
    try exact H0.
  - cbv zeta. apply I_clearNeg, I_clearAnn.
    now apply keeps_on_view, keeps_on_view, keeps_on_view.
  - now apply keeps_on_view, keeps_on_view, keeps_on_view.
  - apply I_delay. now apply keeps_on_view, keeps_on_view.
Qed.

Lemma keeps_connectionStateChanged v : keeps I (connectionStateChanged v).
Proof.
  intros s Hs. unfold connectionStateChanged.
  apply keeps_onconnectionstatechange.
  apply (I_frame s); [|exact Hs].
  unfold skeleton, hasEngine. cbn.
  now destruct (peerConnection (refs s)).
Qed.

Lemma keeps_dispatch e : keeps I (dispatch e).
Proof.
  destruct e; cbn [dispatch].
  - apply keeps_handleSignalMessage.
  - apply keeps_fireTimer.
  - apply keeps_connectionStateChanged.
  - apply keeps_restartConnection.
Qed.

Lemma keeps_run es : keeps I (run es).
Proof.
  unfold run. induction es as [|e es IH]; intros s Hs; cbn [fold_left].
  - exact Hs.
  - apply IH. now apply keeps_dispatch.
Qed.

End Preservation.

(** ** The timers stay owned *)

Lemma NoDup_map_filter {A B : Type} (f : A -> B) (g : A -> bool) (l : list A) :
  NoDup (map f l) -> NoDup (map f (filter g l)).
Proof.
  induction l as [|a l IH]; cbn; intros H; [constructor|].
  inversion H as [|? ? Hnin Hnd]; subst.
  destruct (g a); cbn; [|auto].
  constructor; [|auto].
  intros Hin. apply Hnin. apply in_map_iff in Hin.
  destruct Hin as [x [Hx Hin]]. apply filter_In in Hin.
  apply in_map_iff. exists x. tauto.
Qed.

Lemma NoDup_map_same {A B : Type} (f : A -> B) (l : list A) (a b : A) :
  NoDup (map f l) -> In a l -> In b l -> f a = f b -> a = b.
Proof.
  induction l as [|x l IH]; cbn; intros H Ha Hb Hf; [contradiction|].
  inversion H as [|? ? Hnin Hnd]; subst.
  destruct Ha as [<-|Ha], Hb as [<-|Hb]; auto.
  - exfalso. apply Hnin. rewrite Hf. now apply in_map.
  - exfalso. apply Hnin. rewrite <- Hf. now apply in_map.
Qed.

Section TimersOwned.
Context {E : Engine}.

Lemma timersOwned_frame (s s' : Session) :
  timers (world s') = timers (world s) ->
  nextHandle (world s') = nextHandle (world s) ->
  announceInterval (refs s') = announceInterval (refs s) ->
  negotiationTimeout (refs s') = negotiationTimeout (refs s) ->
  timersOwned s -> timersOwned s'.
Proof.
  unfold timersOwned, handlesIssued, issued. intros -> -> -> ->. exact id.
Qed.

Lemma timersOwned_skeleton (s s' : Session) :
  skeleton s' = skeleton s -> timersOwned s -> timersOwned s'.
Proof.
  unfold skeleton. intros [= H1 H2 H3 H4 _ _ _].
  now apply timersOwned_frame.
Qed.

Lemma timersOwned_clearTimer (h : positive) : keeps timersOwned (clearTimer h).
Proof.
  intros s ((Hi & Ha & Hn) & Hnd & Hp & Hg).
  unfold timersOwned, handlesIssued, issued, clearTimer. cbn.
  repeat split; try assumption.
  - intros t Ht. apply filter_In in Ht. now apply Hi.
  - now apply NoDup_map_filter.
  - intros t Ht. apply filter_In in Ht. now apply Hp.
  - intros t Ht. apply filter_In in Ht. now apply Hg.
Qed.

Lemma timersOwned_clearIfSet (o : option positive) : keeps timersOwned (clearIfSet o).
Proof.
  destruct o; cbn; [apply timersOwned_clearTimer|intros s Hs; exact Hs].
Qed.

(** After the handle a ref names is cleared, no timer of its kind is left. *)
Lemma no_interval_left (s : Session) (t : Timer) :
  timersOwned s ->
  In t (timers (world (clearIfSet (announceInterval (refs s)) s))) ->
  callback t <> PeriodicBroadcast.
Proof.
  intros (_ & _ & Hp & _) Ht Hcb.
  apply clearIfSet_timers in Ht. destruct Ht as [Hin Hne].
  exact (Hne _ (Hp t Hin Hcb) eq_refl).
Qed.

Lemma no_negotiation_timer_left (s : Session) (t : Timer) :
  timersOwned s ->
  In t (timers (world (clearIfSet (negotiationTimeout (refs s)) s))) ->
  callback t <> NegotiationTimedOut.
Proof.
  intros (_ & _ & _ & Hg) Ht Hcb.
  apply clearIfSet_timers in Ht. destruct Ht as [Hin Hne].
  exact (Hne _ (Hg t Hin Hcb) eq_refl).
Qed.

Lemma timersOwned_stopAnnouncing : keeps timersOwned stopAnnouncing.
Proof.
  intros s Hs.
  pose proof (timersOwned_clearIfSet (announceInterval (refs s)) s Hs)
    as ((Hi & Ha & Hn) & Hnd & Hp & Hg).
  pose proof (fun t => no_interval_left s t Hs) as Hnone.
  destruct (stopAnnouncing_frame s) as (S1 & S2 & S3).
  unfold timersOwned, handlesIssued, issued. rewrite S1, S3. cbn.
  assert (Hr : refs (clearIfSet (announceInterval (refs s)) s) = refs s)
    by now destruct (announceInterval (refs s)).
  assert (Hh : nextHandle (world (clearIfSet (announceInterval (refs s)) s))
               = nextHandle (world s))
    by now destruct (announceInterval (refs s)).
  unfold issued in *. rewrite Hr, Hh in *.
  repeat split; try assumption.
  - discriminate.
  - intros t Ht Hcb. now apply Hnone in Ht.
Qed.

Lemma timersOwned_setTimer (cb : TimerCallback) (ms : N) (rep : bool) :
  cb <> PeriodicBroadcast -> cb <> NegotiationTimedOut ->
  keeps timersOwned (fun s => snd (setTimer cb ms rep s)).
Proof.
  intros Hc1 Hc2 s ((Hi & Ha & Hn) & Hnd & Hp & Hg).
  unfold timersOwned, handlesIssued, issued in *. cbn.
  repeat split.
  - intros t Ht. apply in_app_or in Ht. destruct Ht as [Ht|[<-|[]]].
    + specialize (Hi t Ht). lia.
    + cbn. lia.
  - intros h Hh. specialize (Ha h Hh). lia.
  - intros h Hh. specialize (Hn h Hh). lia.
  - rewrite map_app. cbn. apply NoDup_app.
    + exact Hnd.
    + repeat constructor. intros [].
    + intros x Hx [<-|[]]. apply in_map_iff in Hx.
      destruct Hx as [t [Heq Ht]]. specialize (Hi t Ht). lia.
  - intros t Ht Hcb. apply in_app_or in Ht. destruct Ht as [Ht|[<-|[]]].
    + now apply Hp.
    + cbn in Hcb. congruence.
  - intros t Ht Hcb. apply in_app_or in Ht. destruct Ht as [Ht|[<-|[]]].
    + now apply Hg.
    + cbn in Hcb. congruence.
Qed.

Lemma timersOwned_startAnnouncementLoop : keeps timersOwned startAnnouncementLoop.
Proof.
  intros s Hs.
  pose proof (timersOwned_clearIfSet (announceInterval (refs s)) s Hs) as H1.
  pose proof (fun t => no_interval_left s t Hs) as Hnone.
  set (s1 := clearIfSet (announceInterval (refs s)) s) in *.
  destruct H1 as ((Hi & Ha & Hn) & Hnd & Hp & Hg).
  unfold startAnnouncementLoop. fold s1.
  unfold timersOwned, handlesIssued, issued in *. cbn.
  repeat split.
  - intros t Ht. apply in_app_or in Ht. destruct Ht as [Ht|[<-|[]]].
    + apply in_app_or in Ht. destruct Ht as [Ht|[<-|[]]].
      * specialize (Hi t Ht). lia.
      * cbn. lia.
    + cbn. lia.
  - intros h [= <-]. lia.
  - intros h Hh. specialize (Hn h Hh). lia.
  - rewrite !map_app. cbn. apply NoDup_app.
    + apply NoDup_app.
      * exact Hnd.
      * repeat constructor. intros [].
      * intros x Hx [<-|[]]. apply in_map_iff in Hx.
        destruct Hx as [t [Heq Ht]]. specialize (Hi t Ht). lia.
    + repeat constructor. intros [].
    + intros x Hx [<-|[]]. apply in_app_or in Hx. destruct Hx as [Hx|[Hx|[]]].
      * apply in_map_iff in Hx. destruct Hx as [t [Heq Ht]].
        specialize (Hi t Ht). lia.
      * lia.
  - intros t Ht Hcb. apply in_app_or in Ht. destruct Ht as [Ht|[<-|[]]].
    + apply in_app_or in Ht. destruct Ht as [Ht|[<-|[]]].
      * now apply Hnone in Ht.
      * discriminate.
    + reflexivity.
  - intros t Ht Hcb. apply in_app_or in Ht. destruct Ht as [Ht|[<-|[]]].
    + apply in_app_or in Ht. destruct Ht as [Ht|[<-|[]]].
      * now apply Hg.
      * discriminate.
    + discriminate.
Qed.

Lemma timersOwned_armNegotiationTimer : keeps timersOwned armNegotiationTimer.
Proof.
  intros s Hs.
  pose proof (timersOwned_clearIfSet (negotiationTimeout (refs s)) s Hs) as H1.
  pose proof (fun t => no_negotiation_timer_left s t Hs) as Hnone.
  set (s1 := clearIfSet (negotiationTimeout (refs s)) s) in *.
  destruct H1 as ((Hi & Ha & Hn) & Hnd & Hp & Hg).
  unfold armNegotiationTimer. fold s1.
  unfold timersOwned, handlesIssued, issued in *. cbn.
  repeat split.
  - intros t Ht. apply in_app_or in Ht. destruct Ht as [Ht|[<-|[]]].
    + specialize (Hi t Ht). lia.
    + cbn. lia.
  - intros h Hh. specialize (Ha h Hh). lia.
  - intros h [= <-]. lia.
  - rewrite map_app. cbn. apply NoDup_app.
    + exact Hnd.
    + repeat constructor. intros [].
    + intros x Hx [<-|[]]. apply in_map_iff in Hx.
      destruct Hx as [t [Heq Ht]]. specialize (Hi t Ht). lia.
  - intros t Ht Hcb. apply in_app_or in Ht. destruct Ht as [Ht|[<-|[]]].
    + now apply Hp.
    + discriminate.
  - intros t Ht Hcb. apply in_app_or in Ht. destruct Ht as [Ht|[<-|[]]].
    + now apply Hnone in Ht.
    + reflexivity.
Qed.

Lemma timersOwned_dispatch (e : Event) : keeps timersOwned (dispatch e).
Proof.
  apply keeps_dispatch.
  - exact timersOwned_skeleton.
  - intros c s _. now apply timersOwned_frame.
  - intros s. apply timersOwned_frame; unfold closeCurrent;
      now destruct (peerConnection (refs s)).
  - intros s. apply timersOwned_frame; unfold createPeerConnection;
      now destruct (peerConnection (refs s)).
  - exact timersOwned_stopAnnouncing.
  - exact timersOwned_startAnnouncementLoop.
  - exact timersOwned_armNegotiationTimer.
  - intros s. apply timersOwned_clearIfSet.
  - intros s. apply timersOwned_clearIfSet.
  - exact timersOwned_clearTimer.
  - apply timersOwned_setTimer; discriminate.
Qed.

End TimersOwned.

Section Invariants.
Context {E : Engine}.

Lemma subscribed_timersOwned (me room : string) : timersOwned (subscribed me room).
Proof.
  unfold timersOwned, handlesIssued, issued. cbn. repeat split.
  - intros t [<- | [<- | []]]; cbn; lia.
  - intros h [= <-]. lia.
  - discriminate.
  - repeat constructor; cbn; intuition discriminate.
  - intros t [<- | [<- | []]]; cbn; congruence.
  - intros t [<- | [<- | []]]; cbn; congruence.
Qed.

Lemma owned_pending (s : Session) (t : Timer) :
  timersOwned s -> In t (timers (world s)) -> pending (handle t) s = Some t.
Proof.
  intros (_ & Hnd & _) Ht. unfold pending.
  destruct (find _ _) as [x|] eqn:Hf.
  - apply find_some in Hf. destruct Hf as [Hx Heq]. apply Pos.eqb_eq in Heq.
    f_equal. exact (NoDup_map_same handle _ x t Hnd Hx Ht Heq).
  - pose proof (find_none _ _ Hf t Ht) as Hc. cbn in Hc.
    now rewrite Pos.eqb_refl in Hc.
Qed.

(** X7. The timers stay owned over every run of the event loop (envelopes,
    timers coming due, connection-state changes, Force Reconnect): from a
    session whose handles are fresh and distinct and whose announcement
    interval and negotiation timer are the ones the refs name, every later
    session is such a session.  Hence at most one announcement interval and
    at most one negotiation timer are pending at any time, and each pending
    timer is the one found under its handle. *)
Theorem timers_stay_owned (es : list Event) (s : Session) :
  timersOwned s ->
  let s' := run es s in
  timersOwned s'
  /\ (forall t1 t2,
        In t1 (timers (world s')) -> In t2 (timers (world s')) ->
        callback t1 = PeriodicBroadcast -> callback t2 = PeriodicBroadcast ->
        t1 = t2)
  /\ (forall t1 t2,
        In t1 (timers (world s')) -> In t2 (timers (world s')) ->
        callback t1 = NegotiationTimedOut -> callback t2 = NegotiationTimedOut ->
        t1 = t2)
  /\ (forall t, In t (timers (world s')) -> pending (handle t) s' = Some t).
Proof.
  intros Hs s'.
  assert (Hs' : timersOwned s').
  { subst s'. unfold run. revert s Hs.
    induction es as [|e es IH]; intros s Hs; cbn [fold_left]; [exact Hs|].
    apply IH. now apply timersOwned_dispatch. }
  clearbody s'. split; [exact Hs'|].
  pose proof Hs' as (_ & Hnd & Hp & Hg).
  repeat split.
  - intros t1 t2 H1 H2 C1 C2.
    apply (NoDup_map_same handle _ t1 t2 Hnd H1 H2).
    pose proof (Hp t1 H1 C1) as A1. pose proof (Hp t2 H2 C2) as A2. congruence.
  - intros t1 t2 H1 H2 C1 C2.
    apply (NoDup_map_same handle _ t1 t2 Hnd H1 H2).
    pose proof (Hg t1 H1 C1) as A1. pose proof (Hg t2 H2 C2) as A2. congruence.
  - intros t Ht. now apply owned_pending.
Qed.

(** ** The engine protocol *)

Lemma engineRun_app (l : list EngineEvent) (e : EngineEvent) :
  engineRun (l ++ [e]) = engineStep (engineRun l) e.
Proof. unfold engineRun. now rewrite fold_left_app. Qed.

Lemma engineDisciplined_frame (s s' : Session) :
  hasEngine s' = hasEngine s ->
  instances (world s') = instances (world s) ->
  engineLog (world s') = engineLog (world s) ->
  engineDisciplined s -> engineDisciplined s'.
Proof. unfold engineDisciplined. intros -> -> ->. exact id. Qed.

Lemma engineDisciplined_skeleton (s s' : Session) :
  skeleton s' = skeleton s -> engineDisciplined s -> engineDisciplined s'.
Proof.
  unfold skeleton. intros [= _ _ _ _ H1 H2 H3].
  now apply engineDisciplined_frame.
Qed.

Lemma engineDisciplined_recordCall (c : EngineCall) (s : Session) :
  hasEngine s = true -> engineDisciplined s -> engineDisciplined (recordCall c s).
Proof.
  unfold engineDisciplined. intros He Hs.
  assert (He' : hasEngine (recordCall c s) = true) by exact He.
  rewrite He'. rewrite He in Hs.
  change (engineLog (world (recordCall c s)))
    with (engineLog (world s) ++ [Called (instances (world s)) c]).
  change (instances (world (recordCall c s))) with (instances (world s)).
  rewrite engineRun_app, Hs. cbn [engineStep]. now rewrite Nat.eqb_refl.
Qed.

Lemma engineDisciplined_closeCurrent : keeps engineDisciplined closeCurrent.
Proof.
  intros s Hs. unfold engineDisciplined, hasEngine in *. unfold closeCurrent.
  destruct (peerConnection (refs s)) eqn:Hpc.
  - cbn [refs world on_refs on_world with_peerConnection peerConnection
         with_engineLog engineLog instances].
    rewrite engineRun_app, Hs. cbn [engineStep]. now rewrite Nat.eqb_refl.
  - rewrite Hpc. exact Hs.
Qed.

Lemma engineDisciplined_createPeerConnection :
  keeps engineDisciplined createPeerConnection.
Proof.
  intros s Hs. unfold engineDisciplined, hasEngine in *.
  unfold createPeerConnection.
  destruct (peerConnection (refs s)) eqn:Hpc.
  - rewrite Hpc. exact Hs.
  - cbn [refs world on_refs on_world with_peerConnection peerConnection
         with_engineLog engineLog instances with_instances consoleWrite
         with_console].
    rewrite engineRun_app, Hs. cbn [engineStep].
    destruct (Nat.ltb_spec (instances (world s)) (S (instances (world s))));
      [reflexivity|lia].
Qed.

Lemma engineDisciplined_timers (f : Session -> Session) :
  (forall s, hasEngine (f s) = hasEngine s
             /\ instances (world (f s)) = instances (world s)
             /\ engineLog (world (f s)) = engineLog (world s)) ->
  keeps engineDisciplined f.
Proof.
  intros Hf s. destruct (Hf s) as (H1 & H2 & H3).
  now apply engineDisciplined_frame.
Qed.

Lemma engineDisciplined_dispatch (e : Event) : keeps engineDisciplined (dispatch e).
Proof.
  apply keeps_dispatch.
  - exact engineDisciplined_skeleton.
  - exact engineDisciplined_recordCall.
  - exact engineDisciplined_closeCurrent.
  - exact engineDisciplined_createPeerConnection.
  - apply engineDisciplined_timers. intros s. unfold stopAnnouncing.
    now destruct (announceInterval (refs s)).
  - apply engineDisciplined_timers. intros s. unfold startAnnouncementLoop.
    now destruct (announceInterval (refs s)).
  - apply engineDisciplined_timers. intros s. unfold armNegotiationTimer.
    now destruct (negotiationTimeout (refs s)).
  - intros s. apply engineDisciplined_frame;
      now destruct (announceInterval (refs s)).
  - intros s. apply engineDisciplined_frame;
      now destruct (negotiationTimeout (refs s)).
  - intros h. apply engineDisciplined_timers. now intros s.
  - apply engineDisciplined_timers. now intros s.
Qed.

Lemma engineRun_broken (l : list EngineEvent) :
  fold_left engineStep l Broken = Broken.
Proof. induction l as [|e l IH]; [reflexivity|exact IH]. Qed.

Lemma engineRun_prefix (l1 l2 : list EngineEvent) (e : EngineEvent) :
  engineRun (l1 ++ e :: l2) <> Broken ->
  engineStep (engineRun l1) e <> Broken.
Proof.
  unfold engineRun. rewrite fold_left_app. cbn [fold_left].
  intros H Hb. apply H. rewrite Hb. apply engineRun_broken.
Qed.

(** X8. The engine instances are used in turn over every run of the event
    loop: if the engine log so far shows instances numbered upwards, one in
    use at a time and standing as the session says, then so does the log
    after the run; every call in it was made on the instance in use at that
    moment, every close closed the instance in use, and every construction
    happened while none was in use, with a number above all earlier
    ones. *)
Theorem engine_stays_disciplined (es : list Event) (s : Session) :
  engineDisciplined s ->
  let s' := run es s in
  engineDisciplined s'
  /\ (forall l1 l2 n c,
        engineLog (world s') = l1 ++ Called n c :: l2 -> engineRun l1 = Using n)
  /\ (forall l1 l2 n,
        engineLog (world s') = l1 ++ Closed n :: l2 -> engineRun l1 = Using n)
  /\ (forall l1 l2 n,
        engineLog (world s') = l1 ++ Constructed n :: l2 ->
        exists last, engineRun l1 = Idle last /\ last < n).
Proof.
  intros Hs s'.
  assert (Hs' : engineDisciplined s').
  { subst s'. unfold run. revert s Hs.
    induction es as [|e es IH]; intros s Hs; cbn [fold_left]; [exact Hs|].
    apply IH. now apply engineDisciplined_dispatch. }
  clearbody s'. split; [exact Hs'|].
  assert (Hnb : engineRun (engineLog (world s')) <> Broken).
  { unfold engineDisciplined in Hs'. rewrite Hs'.
    destruct (hasEngine s'); discriminate. }
  repeat split.
  - intros l1 l2 n c Hl. rewrite Hl in Hnb. apply engineRun_prefix in Hnb.
    destruct (engineRun l1) as [|last|m]; cbn [engineStep] in Hnb; try congruence.
    destruct (Nat.eqb_spec m n); congruence.
  - intros l1 l2 n Hl. rewrite Hl in Hnb. apply engineRun_prefix in Hnb.
    destruct (engineRun l1) as [|last|m]; cbn [engineStep] in Hnb; try congruence.
    destruct (Nat.eqb_spec m n); congruence.
  - intros l1 l2 n Hl. rewrite Hl in Hnb. apply engineRun_prefix in Hnb.
    destruct (engineRun l1) as [|last|m]; cbn [engineStep] in Hnb; try congruence.
    exists last. split; [reflexivity|].
    destruct (Nat.ltb_spec last n); [assumption|congruence].
Qed.

Lemma subscribed_engineDisciplined (me room : string) :
  engineDisciplined (subscribed me room).
Proof. reflexivity. Qed.

End Invariants.

Lemma timers_stay_owned_witness :
  @timersOwned
    (@run Reference.engine
       [Envelope (Sample.announceFrom "a9"); TimerDue 3; ReconnectClicked]
       (Sample.waiting "b1")).
Proof.
  exact (proj1 (timers_stay_owned (E := Reference.engine)
                  [Envelope (Sample.announceFrom "a9"); TimerDue 3; ReconnectClicked]
                  (Sample.waiting "b1")
                  (subscribed_timersOwned (E := Reference.engine) "b1" "lobby"))).
Defined.

Lemma engine_stays_disciplined_witness :
  @engineDisciplined
    (@run Reference.engine
       [Envelope (Sample.announceFrom "a9"); TimerDue 3; ReconnectClicked]
       (Sample.waiting "b1")).
Proof.
  exact (proj1 (engine_stays_disciplined (E := Reference.engine)
                  [Envelope (Sample.announceFrom "a9"); TimerDue 3; ReconnectClicked]
                  (Sample.waiting "b1")
                  (subscribed_engineDisciplined (E := Reference.engine) "b1" "lobby"))).
Defined.

(** On the reference engine that run restarts twice: three instances are
    constructed, each closed before the next. *)
Example two_restarts :
  engineLog (world (@run Reference.engine
                      [Envelope (Sample.announceFrom "a9"); TimerDue 3;
                       ReconnectClicked]
                      (Sample.waiting "b1")))
  = [Constructed 1;
     Called 1 (CreateDataChannel "keepalive");
     Called 1 CreateOffer;
     Called 1 (SetLocalDescription (mkDescription sdp_offer "v=0 o=offer"));
     Closed 1; Constructed 2; Closed 2; Constructed 3].
Proof. vm_compute. reflexivity. Qed.

(** ** Chat, end to end *)

Section ChatRoundTrip.
Context {E : Engine}.

(** X9. Chat from the input field to the peer.  A text that trim would leave
    empty changes nothing.  Any other text is appended as a message with the
    local identity to the sender's list, the field is emptied, and one Chat
    envelope with that message is sent when the channel exists; the sender
    ignores that envelope coming back; a peer with another identity appends
    the message when its id is new to it, leaves its list alone when the id
    is known, and ends with the same list if the envelope is delivered
    twice. *)
Theorem chat_round_trip
  (inputMessage token : string) (now : nat) (a b : Session) :
  let msg := Chat.mkChat token inputMessage (myId (refs a)) now None in
  let e := mkSignal chat None None (myId (refs a)) (Some msg) in
  let a' := fst (handleSendMessage inputMessage token now a) in
  (isBlank inputMessage = true ->
     handleSendMessage inputMessage token now a = (a, inputMessage))
  /\ (isBlank inputMessage = false ->
        snd (handleSendMessage inputMessage token now a) = ""
        /\ messages (view a') = messages (view a) ++ [msg]
        /\ (channel (refs a) <> None ->
            outbox (world a') = outbox (world a) ++ [e])
        /\ (channel (refs a) = None -> outbox (world a') = outbox (world a))
        /\ handleSignalMessage e a' = a'
        /\ (myId (refs b) <> myId (refs a) ->
            (~ In token (map Chat.id (messages (view b))) ->
             messages (view (handleSignalMessage e b))
             = messages (view b) ++ [msg])
            /\ (In token (map Chat.id (messages (view b))) ->
                messages (view (handleSignalMessage e b)) = messages (view b))
            /\ messages (view (handleSignalMessage e (handleSignalMessage e b)))
               = messages (view (handleSignalMessage e b)))).
Proof.
  intros msg e a'. split.
  - intros Hb. unfold handleSendMessage. now rewrite Hb.
  - intros Hb. subst a'. unfold handleSendMessage. rewrite Hb. cbn [fst snd].
    fold msg.
    set (a1 := on_view (fun v => with_messages (messages v ++ [msg]) v) a).
    assert (He : chatEnvelope msg a1 = e) by reflexivity.
    rewrite He.
    assert (Hmy : myId (refs (channelSendIfAny e a1)) = myId (refs a)).
    { unfold channelSendIfAny. now destruct (channel (refs a1)). }
    split; [reflexivity|]. split.
    { unfold channelSendIfAny. now destruct (channel (refs a1)). }
    split.
    { intros Hch. rewrite channelSendIfAny_open by exact Hch. reflexivity. }
    split.
    { intros Hch. unfold channelSendIfAny.
      change (channel (refs a1)) with (channel (refs a)). now rewrite Hch. }
    split.
    { apply own_envelope. now rewrite Hmy. }
    intros Hne.
    assert (Hne' : senderId e <> myId (refs b)) by (cbn; congruence).
    destruct (chat_branch e msg b eq_refl eq_refl Hne') as [Hr Hm].
    split; [|split].
    + intros Hnew. rewrite Hm. unfold appendUnlessKnown.
      destruct (existsb _ _) eqn:Hk; [|reflexivity].
      apply known_iff in Hk. contradiction.
    + intros Hold. rewrite Hm. now apply appendUnlessKnown_known.
    + assert (Hne'' : senderId e <> myId (refs (handleSignalMessage e b)))
        by now rewrite Hr.
      destruct (chat_branch e msg _ eq_refl eq_refl Hne'') as [_ Hm'].
      rewrite Hm', Hm. apply appendUnlessKnown_known, appendUnlessKnown_knows.
Qed.

End ChatRoundTrip.

Lemma chat_round_trip_witness :
  isBlank "hi there" = false
  /\ messages (view (fst (@handleSendMessage "hi there" "m7" 5 (Sample.waiting "b1"))))
     = messages (view (Sample.waiting "b1"))
       ++ [Chat.mkChat "m7" "hi there" (myId (refs (Sample.waiting "b1"))) 5 None].
Proof.
  assert (Hb : isBlank "hi there" = false) by (vm_compute; reflexivity).
  split; [exact Hb|].
  exact (proj1 (proj2 (proj2 (chat_round_trip (E := Reference.engine)
                                "hi there" "m7" 5
                                (Sample.waiting "b1") (Sample.waiting "a9")) Hb))).
Defined.

(** Blank input in the sense of trim: spaces, a tab, a no-break space. *)
Example blank_inputs :
  isBlank "" = true
  /\ isBlank (String (ascii_of_nat 32) (String (ascii_of_nat 9)
               (String (ascii_of_nat 194) (String (ascii_of_nat 160) ""))))
     = true
  /\ isBlank " a " = false.
Proof. vm_compute. repeat split. Qed.

(** ** Leaving the room *)

Section Teardown.
Context {E : Engine}.

Lemma cleanup_run (screen : option (list MediaStreamTrack)) (s : Session) :
  let s2 := clearIfSet (negotiationTimeout (refs s))
              (clearIfSet (announceInterval (refs s)) s) in
  refs (fst (cleanup screen s))
  = with_channel None (with_peerConnection None (refs s))
  /\ view (fst (cleanup screen s)) = view s
  /\ timers (world (fst (cleanup screen s))) = timers (world s2)
  /\ nextHandle (world (fst (cleanup screen s))) = nextHandle (world s)
  /\ instances (world (fst (cleanup screen s))) = instances (world s)
  /\ engineLog (world (fst (cleanup screen s)))
     = engineLog (world s) ++ closing s
  /\ outbox (world (fst (cleanup screen s)))
     = outbox (world s)
       ++ match channel (refs s) with
          | Some _ => [leaveEnvelope s]
          | None => []
          end.
Proof.
  destruct s as [[me pc ch ini ann neg q ls rv] v [tm nh ob co ins el]].
  unfold cleanup, closing, closeCurrent, leaveEnvelope.
  destruct ann, neg, pc, ch; cbn; rewrite ?app_nil_r; repeat split.
Qed.

(** X10. The cleanup on leaving the room closes the engine instance and
    forgets it, stops the tracks of the local stream and of the screen share,
    sends a Leave envelope with the local identity as its last envelope when
    the channel exists and forgets the channel, and leaves neither the
    announcement interval nor the negotiation timer pending.  It cancels no
    other timer: one that was pending under another handle still is, and a
    delayed restart among them, when it comes due, constructs a new engine
    instance and arms a new announcement interval. *)
Theorem cleanup_closes_and_leaves
  (screen : option (list MediaStreamTrack)) (s : Session) :
  let s' := fst (cleanup screen s) in
  peerConnection (refs s') = None
  /\ channel (refs s') = None
  /\ snd (cleanup screen s)
     = localTracks s ++ match screen with Some ts => ts | None => [] end
  /\ engineLog (world s') = engineLog (world s) ++ closing s
  /\ (channel (refs s) <> None ->
      outbox (world s') = outbox (world s) ++ [mkSignal leave None None (myId (refs s)) None])
  /\ (channel (refs s) = None -> outbox (world s') = outbox (world s))
  /\ (forall h, announceInterval (refs s) = Some h -> pending h s' = None)
  /\ (forall h, negotiationTimeout (refs s) = Some h -> pending h s' = None)
  /\ (forall h t,
        pending h s = Some t ->
        announceInterval (refs s) <> Some h ->
        negotiationTimeout (refs s) <> Some h ->
        pending h s' = Some t)
  /\ (forall h t,
        pending h s = Some t ->
        callback t = DelayedRestart -> repeats t = false ->
        announceInterval (refs s) <> Some h ->
        negotiationTimeout (refs s) <> Some h ->
        let s'' := fireTimer h s' in
        peerConnection (refs s'') <> None
        /\ instances (world s'') = S (instances (world s))
        /\ exists h',
             announceInterval (refs s'') = Some h'
             /\ In (mkTimer h' 2000 true PeriodicBroadcast) (timers (world s''))).
Proof.
  intros s'. subst s'.
  destruct (cleanup_run screen s) as (C1 & C2 & C3 & C4 & C5 & C6 & C7).
  assert (Hkeep : forall h t,
             pending h s = Some t ->
             announceInterval (refs s) <> Some h ->
             negotiationTimeout (refs s) <> Some h ->
             pending h (fst (cleanup screen s)) = Some t).
  { intros h t Hp Ha Hn. unfold pending. rewrite C3.
    fold (pending h (clearIfSet (negotiationTimeout (refs s))
                       (clearIfSet (announceInterval (refs s)) s))).
    rewrite pending_clearIfSet_other by exact Hn.
    rewrite pending_clearIfSet_other by exact Ha. exact Hp. }
  split; [now rewrite C1|]. split; [now rewrite C1|].
  split.
  { unfold cleanup, localTracks. cbn [snd].
    now rewrite !clearIfSet_refs. }
  split; [exact C6|].
  split.
  { intros Hch. rewrite C7. destruct (channel (refs s)); [reflexivity|congruence]. }
  split.
  { intros Hch. rewrite C7, Hch. apply app_nil_r. }
  split.
  { intros h Hh. unfold pending. rewrite C3, Hh.
    fold (pending h (clearIfSet (negotiationTimeout (refs s))
                       (clearIfSet (Some h) s))).
    apply pending_none_clearIfSet. apply pending_cleared. }
  split.
  { intros h Hh. unfold pending. rewrite C3, Hh.
    fold (pending h (clearIfSet (Some h)
                       (clearIfSet (announceInterval (refs s)) s))).
    apply pending_cleared. }
  split; [exact Hkeep|].
  intros h t Hp Hcb Hrep Ha Hn s''. subst s''.
  unfold fireTimer. rewrite (Hkeep h t Hp Ha Hn), Hcb, Hrep. cbn [runCallback].
  destruct (restart_summary (clearTimer h (fst (cleanup screen s))))
    as (R1 & R2 & _ & R4 & _ & _ & R7 & _).
  split; [exact R1|]. split.
  { rewrite R7.
    change (instances (world (clearTimer h (fst (cleanup screen s)))))
      with (instances (world (fst (cleanup screen s)))).
    now rewrite C5. }
  eexists. split.
  - rewrite R2. reflexivity.
  - rewrite R4. apply in_or_app. right. cbn. auto.
Qed.

End Teardown.

(** ** The client of the relay *)

Module SupabaseFacts.
Import Supabase.

Section Client.
Context {L : Library}.

Lemma same_url_reuses (u k : string) (st : State) (c : SupabaseClient) :
  supabaseInstance st = Some c -> supabaseUrl c = u ->
  getSupabase u k st = (c, st).
Proof.
  intros Hc Hu. unfold getSupabase. rewrite Hc, Hu, String.eqb_refl.
  reflexivity.
Qed.

Lemma same_url_requests (u : string) (ks : list string) :
  forall (st : State) (c : SupabaseClient),
    supabaseInstance st = Some c -> supabaseUrl c = u ->
    requests (map (fun k => (u, k)) ks) st = st.
Proof.
  unfold requests. induction ks as [|k ks IH]; intros st c Hc Hu; [reflexivity|].
  cbn [map fold_left fst snd].
  rewrite (same_url_reuses u k st c Hc Hu). cbn [snd]. now apply (IH st c).
Qed.

(** X11. With a library that keeps on the client the URL it was created
    with: however many times getSupabase is called with one URL, one client
    is created, with the key of the first call and 10 events per second, and
    every call returns it, whatever key it is given.  A call with another URL
    creates a second client, without the realtime options.  cleanupSupabase
    removes the channels of the client and forgets it, a second cleanup does
    nothing, and the next getSupabase creates a client anew, with the
    options. *)
Theorem one_client_per_url (u k : string) (ks : list string) :
  keepsUrl ->
  let first := createClient u k (Some (mkRealtime 10)) in
  let st := requests ((u, k) :: map (fun k' => (u, k')) ks) initial in
  supabaseInstance st = Some first
  /\ created st = [(u, k, Some (mkRealtime 10))]
  /\ (forall k', fst (getSupabase u k' st) = first)
  /\ (forall u' k',
        u' <> u ->
        fst (getSupabase u' k' st) = createClient u' k' None
        /\ created (snd (getSupabase u' k' st))
           = [(u, k, Some (mkRealtime 10)); (u', k', None)])
  /\ (let st' := cleanupSupabase st in
      supabaseInstance st' = None
      /\ released st' = [removeAllChannels first]
      /\ cleanupSupabase st' = st'
      /\ forall k', fst (getSupabase u k' st')
                    = createClient u k' (Some (mkRealtime 10))).
Proof.
  intros Hlaw first st.
  assert (Hst : st = mkState (Some first) [(u, k, Some (mkRealtime 10))] []).
  { subst st. unfold requests. cbn [fold_left fst snd].
    change (snd (getSupabase u k initial))
      with (mkState (Some first) [(u, k, Some (mkRealtime 10))] []).
    apply (same_url_requests u ks _ first); [reflexivity|apply Hlaw]. }
  clearbody st. subst st. cbn [supabaseInstance created].
  split; [reflexivity|]. split; [reflexivity|]. split; [|split].
  - intros k'.
    now rewrite (same_url_reuses u k'
                   (mkState (Some first) [(u, k, Some (mkRealtime 10))] [])
                   first eq_refl (Hlaw _ _ _)).
  - intros u' k' Hne. unfold getSupabase. cbn [supabaseInstance].
    unfold first. rewrite Hlaw.
    assert (Hq : String.eqb u u' = false) by (apply String.eqb_neq; congruence).
    rewrite Hq. cbn. split; reflexivity.
  - cbn. repeat split.
Qed.

End Client.

End SupabaseFacts.

Lemma one_client_per_url_witness :
  Supabase.created
    (@Supabase.requests Supabase.plain
       [("https://x.supabase.co", "k1"); ("https://x.supabase.co", "k2")]
       (@Supabase.initial Supabase.plain))
  = [("https://x.supabase.co", "k1", Some (Supabase.mkRealtime 10))].
Proof.
  assert (Hlaw : @Supabase.keepsUrl Supabase.plain)
    by (intros u k o; reflexivity).
  exact (proj1 (proj2 (SupabaseFacts.one_client_per_url (L := Supabase.plain)
                         "https://x.supabase.co" "k1" ["k2"] Hlaw))).
Defined.

(** ** The lobby *)

Module AppFacts.
Import App.

Lemma get_set (name value : string) (q : Query) :
  get name (set name value q) = Some value.
Proof.
  induction q as [|[k v] q IH]; cbn.
  - now rewrite String.eqb_refl.
  - destruct (String.eqb k name) eqn:Hk; cbn.
    + now rewrite String.eqb_refl.
    + now rewrite Hk.
Qed.

Lemma get_delete (name : string) (q : Query) :
  get name (delete name q) = None.
Proof.
  induction q as [|[k v] q IH]; cbn; [reflexivity|].
  destruct (String.eqb k name) eqn:Hk; cbn; [exact IH|now rewrite Hk].
Qed.

Lemma get_set_other (name other value : string) (q : Query) :
  other <> name -> get other (set name value q) = get other q.
Proof.
  intros Hne. apply String.eqb_neq in Hne.
  assert (Hd : forall q, get other (delete name q) = get other q).
  { induction q0 as [|[k v] q0 IH]; cbn; [reflexivity|].
    destruct (String.eqb k name) eqn:Hk; cbn.
    - apply String.eqb_eq in Hk. subst k.
      rewrite String.eqb_sym, Hne. exact IH.
    - destruct (String.eqb k other); [reflexivity|exact IH]. }
  induction q as [|[k v] q IH]; cbn.
  - now rewrite String.eqb_sym, Hne.
  - destruct (String.eqb k name) eqn:Hk; cbn.
    + apply String.eqb_eq in Hk. subst k.
      rewrite (String.eqb_sym name other), Hne. apply Hd.
    + destruct (String.eqb k other); [reflexivity|exact IH].
Qed.

Lemma blank_empty : isBlank "" = true.
Proof. reflexivity. Qed.

Lemma not_blank_not_empty (s : string) : isBlank s = false -> s <> "".
Proof. intros H ->. discriminate. Qed.

(** X12. The room link.  After a room was created under a non-empty id, a
    fresh load of the address enters that room, and the other parameters of
    the address are untouched; joining with an id that is not blank enters
    the room and so does a fresh load; joining with a blank id changes
    nothing; after leaving, the address has no room parameter and a fresh
    load shows the lobby.  A created room whose id is empty is entered, but
    a fresh load shows the lobby. *)
Theorem room_link_round_trip (st : State) :
  (forall newId,
      newId <> "" ->
      inRoom (reload (handleCreateRoom newId st)) = true
      /\ roomId (reload (handleCreateRoom newId st)) = newId
      /\ forall other, other <> "room" ->
           get other (query (handleCreateRoom newId st)) = get other (query st))
  /\ (isBlank (roomId st) = false ->
        inRoom (handleJoinRoom st) = true
        /\ inRoom (reload (handleJoinRoom st)) = true
        /\ roomId (reload (handleJoinRoom st)) = roomId st)
  /\ (isBlank (roomId st) = true -> handleJoinRoom st = st)
  /\ (inRoom (handleLeave st) = false
      /\ get "room" (query (handleLeave st)) = None
      /\ inRoom (reload (handleLeave st)) = false)
  /\ (inRoom (handleCreateRoom "" st) = true
      /\ inRoom (reload (handleCreateRoom "" st)) = false).
Proof.
  split; [|split; [|split; [|split]]].
  - intros newId Hne. destruct newId as [|c r]; [congruence|].
    unfold reload, onLoad, handleCreateRoom, updateUrl. cbn [query inRoom roomId].
    rewrite get_set. cbn. repeat split.
    intros other Ho. now apply get_set_other.
  - intros Hb. pose proof (not_blank_not_empty _ Hb) as Hne.
    unfold reload, onLoad, handleJoinRoom. rewrite Hb.
    destruct (roomId st) as [|c r] eqn:Hr; [congruence|].
    unfold updateUrl. cbn [query inRoom roomId].
    rewrite get_set. cbn. repeat split.
  - intros Hb. unfold handleJoinRoom. now rewrite Hb.
  - unfold reload, onLoad, handleLeave, updateUrl. cbn [query inRoom roomId].
    rewrite get_delete. repeat split.
  - unfold reload, onLoad, handleCreateRoom, updateUrl. cbn [query inRoom roomId].
    rewrite get_delete. repeat split.
Qed.

End AppFacts.

Lemma room_link_round_trip_witness :
  App.roomId (App.reload (App.handleCreateRoom "k3x9qz1"
                            (App.mkState false "" [("utm", "1")])))
  = "k3x9qz1".
Proof.
  assert (Hne : "k3x9qz1" <> "") by discriminate.
  exact (proj1 (proj2 (proj1 (AppFacts.room_link_round_trip
                                (App.mkState false "" [("utm", "1")]))
                         "k3x9qz1" Hne))).
Defined.

(** ** The handshake, envelope by envelope *)

Section Handshake.
Context {E : Engine}.

Lemma initiate_success (s : Session) (pc pc3 : RTCPeerConnection)
  (d : RTCSessionDescriptionInit) :
  peerConnection (refs s) = Some pc ->
  offerProduced pc = Some (d, pc3) ->
  channel (refs s) <> None ->
  let s' := initiateConnection s in
  refs s'
  = with_negotiationTimeout (Some (nextHandle (world s)))
      (with_peerConnection (Some pc3)
         (with_isInitiator true (with_announceInterval None (refs s))))
  /\ status (view s') = Negotiating
  /\ outbox (world s') = outbox (world s) ++ [offerEnvelope d s].
Proof.
  intros Hpc Hoff Hch s'. subst s'.
  rewrite (initiateConnection_run s pc Hpc).
  destruct (initiatorPrefix_frame s) as (P1 & P2 & P3).
  assert (Hpc0 : peerConnection (refs (initiatorPrefix s)) = Some pc)
    by now rewrite P1.
  pose proof (sendOffer_run (initiatorPrefix s) pc Hpc0) as R.
  cbv zeta in R. rewrite Hoff in R.
  assert (Hch0 : channel (refs (initiatorPrefix s)) = channel (refs s))
    by now rewrite P1.
  rewrite Hch0 in R. destruct (channel (refs s)); [|congruence].
  unfold try_catch.
  destruct (sendOffer (initiatorPrefix s)) as [r s1]. cbn [fst snd] in R.
  destruct R as (-> & R1 & R2 & R3).
  rewrite R1, R2, R3, P1, P2, P3. cbn. repeat split.
  unfold offerEnvelope. now rewrite P1.
Qed.

(** X13. The handshake, envelope by envelope, for any engine.  Let A have
    the greater identity and be neither connected nor in the middle of a
    negotiation, and let both channels be open.  If A's engine produces the
    offer, B's engine accepts it and produces and accepts the answer, and A's
    engine, then in have-local-offer, accepts the answer, then: B's
    announcement makes A send exactly the Offer, that Offer makes B send
    exactly the Answer, and that Answer makes A send nothing; A's engine ends
    as the answer left it and B's as its own answer left it; A is initiator
    and B's isInitiator is untouched; both have stopped announcing and
    neither has built a new engine instance. *)
Theorem handshake_completes
  (a0 b0 : Session) (pcA pcA1 pcA2 pcB pcB1 pcB2 pcB3 : RTCPeerConnection)
  (d ans : RTCSessionDescriptionInit) :
  js_gt (myId (refs a0)) (myId (refs b0)) = true ->
  peerConnection (refs a0) = Some pcA ->
  connectionState pcA <> pcs_connected ->
  ~ midNegotiation pcA ->
  channel (refs a0) <> None ->
  offerProduced pcA = Some (d, pcA1) ->
  peerConnection (refs b0) = Some pcB ->
  channel (refs b0) <> None ->
  remoteOfferAccepted d pcB = Some pcB1 ->
  createAnswer (fold_left applyCandidate (iceCandidatesQueue (refs b0)) pcB1)
  = Some (ans, pcB2) ->
  setLocalDescription ans pcB2 = Some pcB3 ->
  signalingState pcA1 = have_local_offer ->
  setRemoteDescription ans pcA1 = Some pcA2 ->
  let announced := mkSignal announce None None (myId (refs b0)) None in
  let offered := mkSignal offer (Some d) None (myId (refs a0)) None in
  let answered := mkSignal answer (Some ans) None (myId (refs b0)) None in
  let a1 := handleSignalMessage announced a0 in
  let b1 := handleSignalMessage offered b0 in
  let a2 := handleSignalMessage answered a1 in
  outbox (world a1) = outbox (world a0) ++ [offered]
  /\ outbox (world b1) = outbox (world b0) ++ [answered]
  /\ outbox (world a2) = outbox (world a1)
  /\ peerConnection (refs a2) = Some pcA2
  /\ peerConnection (refs b1) = Some pcB3
  /\ isInitiator (refs a2) = true
  /\ isInitiator (refs b1) = isInitiator (refs b0)
  /\ announceInterval (refs a2) = None
  /\ announceInterval (refs b1) = None
  /\ instances (world a2) = instances (world a0)
  /\ instances (world b1) = instances (world b0).
Proof.
  intros Hgt HpcA HconnA HmidA HchA Hoff HpcB HchB Hacc Hans Hloc Hsig Hrem
         announced offered answered a1 b1 a2.
  assert (Hne : myId (refs b0) <> myId (refs a0)).
  { intros Heq. rewrite Heq, js_gt_irrefl in Hgt. discriminate. }
  (* the announcement *)
  assert (Ha1 : a1 = initiateConnection
                       (consoleWrite log
                          "Announcement received. I am Initiator. Calling peer..."
                          a0)).
  { subst a1. rewrite (announce_run announced a0 pcA eq_refl Hne HpcA).
    apply state_eqb_neq in HconnA. rewrite HconnA.
    change (senderId announced) with (myId (refs b0)). rewrite Hgt.
    apply alreadyNegotiating_false in HmidA. now rewrite HmidA. }
  destruct (initiate_success
              (consoleWrite log
                 "Announcement received. I am Initiator. Calling peer..." a0)
              pcA pcA1 d HpcA Hoff HchA) as (I1 & I2 & I3).
  destruct (initiate_summary
              (consoleWrite log
                 "Announcement received. I am Initiator. Calling peer..." a0)
              pcA HpcA) as (_ & _ & _ & I4 & _).
  rewrite <- Ha1 in I1, I2, I3, I4. clearbody a1.
  (* the offer *)
  assert (HneB : senderId offered <> myId (refs b0)) by (cbn; congruence).
  destruct (offer_answered_summary offered b0 pcB pcB1 pcB2 pcB3 d ans
              eq_refl eq_refl HneB HpcB HchB Hacc Hans Hloc)
    as (B1 & B2 & _ & B4 & _ & _ & B7 & _ & _ & B10).
  fold b1 in B1, B2, B4, B7, B10. clearbody b1.
  (* the answer *)
  assert (HpcA1 : peerConnection (refs a1) = Some pcA1) by now rewrite I1.
  assert (HneA : senderId answered <> myId (refs a1))
    by (rewrite I1; cbn; congruence).
  assert (Ha2 : a2 = on_refs (with_peerConnection (Some pcA2))
                       (recordCall (SetRemoteDescription ans) (answerPrefix a1))).
  { subst a2.
    rewrite (handle_signaling answered a1 pcA1 HneA ltac:(discriminate) HpcA1).
    unfold try_catch, signaling. cbn [type answered].
    rewrite (onAnswer_run answered a1 pcA1 HpcA1).
    apply signaling_eqb_eq in Hsig. rewrite Hsig. cbn [sdp answered].
    unfold pc_setRemoteDescription, onEngine.
    cbn [refs answerPrefix setStatusMessage setStatus consoleWrite on_view
         on_world].
    now rewrite HpcA1, Hrem. }
  clearbody a2. subst a2. cbn.
  rewrite I1. cbn.
  repeat split; try assumption.
Qed.

End Handshake.

Section OneInitiator.
Context {E : Engine}.

(** X14. Two peers with distinct identities, each with an engine that is
    neither connected nor in the middle of a negotiation, hear each other's
    announcement: the one with the greater identity becomes initiator, and
    the other one's refs, outbox and engine log are left as they were. *)
Theorem announcements_elect_one_side
  (a b : Session) (pcA pcB : RTCPeerConnection) :
  myId (refs a) <> myId (refs b) ->
  peerConnection (refs a) = Some pcA ->
  peerConnection (refs b) = Some pcB ->
  connectionState pcA <> pcs_connected ->
  connectionState pcB <> pcs_connected ->
  ~ midNegotiation pcA ->
  ~ midNegotiation pcB ->
  let a1 := handleSignalMessage (announceEnvelope b) a in
  let b1 := handleSignalMessage (announceEnvelope a) b in
  (js_gt (myId (refs a)) (myId (refs b)) = true
   /\ isInitiator (refs a1) = true
   /\ refs b1 = refs b /\ outbox (world b1) = outbox (world b)
   /\ engineLog (world b1) = engineLog (world b))
  \/ (js_gt (myId (refs b)) (myId (refs a)) = true
      /\ isInitiator (refs b1) = true
      /\ refs a1 = refs a /\ outbox (world a1) = outbox (world a)
      /\ engineLog (world a1) = engineLog (world a)).
Proof.
  intros Hne HpcA HpcB HcA HcB HmA HmB a1 b1.
  assert (Hinit : forall x y pc,
             js_gt (myId (refs x)) (myId (refs y)) = true ->
             peerConnection (refs x) = Some pc ->
             connectionState pc <> pcs_connected ->
             ~ midNegotiation pc ->
             isInitiator (refs (handleSignalMessage (announceEnvelope y) x))
             = true).
  { intros x y pc Hgt Hpc Hc Hm.
    assert (Hn : senderId (announceEnvelope y) <> myId (refs x)).
    { cbn. intros Heq. rewrite Heq, js_gt_irrefl in Hgt. discriminate. }
    rewrite (announce_run (announceEnvelope y) x pc eq_refl Hn Hpc).
    apply state_eqb_neq in Hc. rewrite Hc.
    change (senderId (announceEnvelope y)) with (myId (refs y)). rewrite Hgt.
    apply alreadyNegotiating_false in Hm. rewrite Hm.
    now apply (initiate_summary _ pc). }
  assert (Hfol : forall x y,
             js_gt (myId (refs y)) (myId (refs x)) = true ->
             let x1 := handleSignalMessage (announceEnvelope y) x in
             refs x1 = refs x /\ outbox (world x1) = outbox (world x)
             /\ engineLog (world x1) = engineLog (world x)).
  { intros x y Hgt x1. subst x1.
    destruct (follower_silent (announceEnvelope y) x eq_refl Hgt)
      as (_ & F1 & _ & F3).
    rewrite F1, F3. repeat split. }
  destruct (js_gt_total _ _ Hne) as [Hgt|Hgt].
  - left. split; [exact Hgt|]. split; [now apply (Hinit a b pcA)|].
    now apply Hfol.
  - right. split; [exact Hgt|]. split; [now apply (Hinit b a pcB)|].
    now apply Hfol.
Qed.

End OneInitiator.

(** ** The further results on the sample sessions *)

Lemma announcement_ticks_witness :
  pending 2 (Sample.waiting "b1")
  = Some (mkTimer 2 2000 true PeriodicBroadcast)
  /\ pending 2 (@fireTimer Reference.engine 2 (Sample.waiting "b1"))
     = Some (mkTimer 2 2000 true PeriodicBroadcast).
Proof.
  assert (Hp : pending 2 (Sample.waiting "b1")
               = Some (mkTimer 2 2000 true PeriodicBroadcast))
    by (vm_compute; reflexivity).
  assert (Hc : option_map connectionState
                 (peerConnection (refs (Sample.waiting "b1")))
               <> Some pcs_connected) by (vm_compute; discriminate).
  split; [exact Hp|].
  exact (proj1 (proj2 (proj1 (announcement_ticks (E := Reference.engine)
                                (Sample.waiting "b1") 2 _ Hp) eq_refl eq_refl)
                  Hc)).
Defined.

Lemma restart_cancels_only_the_announcement_interval_witness :
  pending 3 (@restartConnection Reference.engine Sample.offering)
  = Some (mkTimer 3 10000 false NegotiationTimedOut).
Proof.
  assert (Hp : pending 3 Sample.offering
               = Some (mkTimer 3 10000 false NegotiationTimedOut))
    by (vm_compute; reflexivity).
  assert (Ha : announceInterval (refs Sample.offering) <> Some 3%positive)
    by (vm_compute; discriminate).
  exact (proj1 (restart_cancels_only_the_announcement_interval
                  (E := Reference.engine) Sample.offering 3 _ Hp Ha)).
Defined.

Lemma offer_is_answered_witness :
  outbox (world (@handleSignalMessage Reference.engine
                   (Sample.offerFrom "b1") (Sample.waiting "a9")))
  = outbox (world (Sample.waiting "a9"))
    ++ [mkSignal answer (Some (mkDescription sdp_answer "v=0 o=answer")) None
          (myId (refs (Sample.waiting "a9"))) None].
Proof.
  assert (Hne : senderId (Sample.offerFrom "b1") <> myId (refs (Sample.waiting "a9")))
    by (vm_compute; discriminate).
  assert (Hpc : peerConnection (refs (Sample.waiting "a9")) = Some Reference.newPC)
    by (vm_compute; reflexivity).
  assert (Hch : channel (refs (Sample.waiting "a9")) <> None)
    by (vm_compute; discriminate).
  set (pc1 := Reference.with_signaling have_remote_offer None
                (Some Sample.remoteOffer) Reference.newPC).
  assert (Hacc : @remoteOfferAccepted Reference.engine Sample.remoteOffer
                   Reference.newPC = Some pc1) by (vm_compute; reflexivity).
  assert (Hans : @createAnswer Reference.engine
                   (fold_left (@applyCandidate Reference.engine)
                      (iceCandidatesQueue (refs (Sample.waiting "a9"))) pc1)
                 = Some (mkDescription sdp_answer "v=0 o=answer", pc1))
    by (vm_compute; reflexivity).
  assert (Hloc : @setLocalDescription Reference.engine
                   (mkDescription sdp_answer "v=0 o=answer") pc1
                 = Some Sample.answeredPC) by (vm_compute; reflexivity).
  exact (proj1 (offer_is_answered (E := Reference.engine)
                  (Sample.offerFrom "b1") (Sample.waiting "a9")
                  Reference.newPC pc1 pc1 Sample.answeredPC
                  Sample.remoteOffer (mkDescription sdp_answer "v=0 o=answer")
                  eq_refl eq_refl Hne Hpc Hch Hacc Hans Hloc)).
Defined.

Lemma failed_offer_leaves_no_timer_witness :
  outbox (world (@initiateConnection Reference.broken (Sample.waiting "b1")))
  = outbox (world (Sample.waiting "b1")).
Proof.
  assert (Hpc : peerConnection (refs (Sample.waiting "b1")) = Some Reference.newPC)
    by (vm_compute; reflexivity).
  exact (proj1 (failed_offer_leaves_no_timer (E := Reference.broken)
                  (Sample.waiting "b1") Reference.newPC Hpc
                  (or_introl eq_refl))).
Defined.

Lemma answer_never_drains_the_queue_witness :
  iceCandidatesQueue
    (refs (@handleSignalMessage Reference.engine
             (Sample.answerFrom "a9") Sample.offering))
  = iceCandidatesQueue (refs Sample.offering).
Proof.
  assert (Hne : senderId (Sample.answerFrom "a9") <> myId (refs Sample.offering))
    by (vm_compute; discriminate).
  assert (Hpc : peerConnection (refs Sample.offering) = Some Sample.offeringPC)
    by (vm_compute; reflexivity).
  exact (proj1 (answer_never_drains_the_queue (E := Reference.engine)
                  (Sample.answerFrom "a9") Sample.offering Sample.offeringPC
                  eq_refl Hne Hpc)).
Defined.

Lemma cleanup_closes_and_leaves_witness :
  channel (refs Sample.offering) <> None
  /\ outbox (world (fst (@cleanup None Sample.offering)))
     = outbox (world Sample.offering)
       ++ [mkSignal leave None None (myId (refs Sample.offering)) None].
Proof.
  assert (Hch : channel (refs Sample.offering) <> None)
    by (vm_compute; discriminate).
  split; [exact Hch|].
  pose proof (cleanup_closes_and_leaves (E := Reference.engine) None
                Sample.offering) as (_ & _ & _ & _ & H & _).
  exact (H Hch).
Defined.

Lemma handshake_completes_witness :
  let announced := mkSignal announce None None (myId (refs (Sample.waiting "a9"))) None in
  let offered :=
    mkSignal offer (Some (mkDescription sdp_offer "v=0 o=offer")) None
      (myId (refs (Sample.waiting "b1"))) None in
  let answered :=
    mkSignal answer (Some (mkDescription sdp_answer "v=0 o=answer")) None
      (myId (refs (Sample.waiting "a9"))) None in
  let a1 := @handleSignalMessage Reference.engine announced (Sample.waiting "b1") in
  let b1 := @handleSignalMessage Reference.engine offered (Sample.waiting "a9") in
  let a2 := @handleSignalMessage Reference.engine answered a1 in
  outbox (world a1) = outbox (world (Sample.waiting "b1")) ++ [offered]
  /\ outbox (world b1) = outbox (world (Sample.waiting "a9")) ++ [answered]
  /\ outbox (world a2) = outbox (world a1).
Proof.
  set (dOff := mkDescription sdp_offer "v=0 o=offer").
  set (dAns := mkDescription sdp_answer "v=0 o=answer").
  set (pcA1 := mkPC pcs_new have_local_offer ice_new (Some dOff) None [] []
                 ["keepalive"]).
  set (pcA2 := mkPC pcs_new stable ice_new (Some dOff) (Some dAns) [] []
                 ["keepalive"]).
  set (pcB1 := Reference.with_signaling have_remote_offer None (Some dOff)
                 Reference.newPC).
  set (pcB3 := Reference.with_signaling stable (Some dAns) (Some dOff)
                 Reference.newPC).
  assert (H1 : js_gt (myId (refs (Sample.waiting "b1")))
                 (myId (refs (Sample.waiting "a9"))) = true)
    by (vm_compute; reflexivity).
  assert (H2 : peerConnection (refs (Sample.waiting "b1")) = Some Reference.newPC)
    by (vm_compute; reflexivity).
  assert (H3 : connectionState Reference.newPC <> pcs_connected) by discriminate.
  assert (H4 : ~ midNegotiation Reference.newPC)
    by (intros [H _]; now apply H).
  assert (H5 : channel (refs (Sample.waiting "b1")) <> None)
    by (vm_compute; discriminate).
  assert (H6 : @offerProduced Reference.engine Reference.newPC = Some (dOff, pcA1))
    by (vm_compute; reflexivity).
  assert (H7 : peerConnection (refs (Sample.waiting "a9")) = Some Reference.newPC)
    by (vm_compute; reflexivity).
  assert (H8 : channel (refs (Sample.waiting "a9")) <> None)
    by (vm_compute; discriminate).
  assert (H9 : @remoteOfferAccepted Reference.engine dOff Reference.newPC
               = Some pcB1) by (vm_compute; reflexivity).
  assert (H10 : @createAnswer Reference.engine
                  (fold_left (@applyCandidate Reference.engine)
                     (iceCandidatesQueue (refs (Sample.waiting "a9"))) pcB1)
                = Some (dAns, pcB1)) by (vm_compute; reflexivity).
  assert (H11 : @setLocalDescription Reference.engine dAns pcB1 = Some pcB3)
    by (vm_compute; reflexivity).
  assert (H12 : signalingState pcA1 = have_local_offer) by reflexivity.
  assert (H13 : @setRemoteDescription Reference.engine dAns pcA1 = Some pcA2)
    by (vm_compute; reflexivity).
  pose proof (handshake_completes (E := Reference.engine)
                (Sample.waiting "b1") (Sample.waiting "a9")
                Reference.newPC pcA1 pcA2 Reference.newPC pcB1 pcB1 pcB3
                dOff dAns H1 H2 H3 H4 H5 H6 H7 H8 H9 H10 H11 H12 H13)
    as (K1 & K2 & K3 & _).
  exact (conj K1 (conj K2 K3)).
Defined.

Lemma announcements_elect_one_side_witness :
  isInitiator
    (refs (@handleSignalMessage Reference.engine
             (@announceEnvelope (Sample.waiting "a9")) (Sample.waiting "b1")))
  = true.
Proof.
  assert (Hne : myId (refs (Sample.waiting "b1")) <> myId (refs (Sample.waiting "a9")))
    by (vm_compute; discriminate).
  assert (HpcA : peerConnection (refs (Sample.waiting "b1")) = Some Reference.newPC)
    by (vm_compute; reflexivity).
  assert (HpcB : peerConnection (refs (Sample.waiting "a9")) = Some Reference.newPC)
    by (vm_compute; reflexivity).
  assert (Hc : connectionState Reference.newPC <> pcs_connected) by discriminate.
  assert (Hm : ~ midNegotiation Reference.newPC) by (intros [H _]; now apply H).
  destruct (announcements_elect_one_side (E := Reference.engine)
              (Sample.waiting "b1") (Sample.waiting "a9")
              Reference.newPC Reference.newPC Hne HpcA HpcB Hc Hc Hm Hm)
    as [(_ & H & _) | (Hgt & _)].
  - exact H.
  - vm_compute in Hgt. discriminate.
Defined.
